(** * Object detection application: the per-tick pipeline and the label file

    A shallow embedding of [object-detection/app/object_detection.c]:
    the label-file parser [parseLabels], the coordinate helper
    [get_coordinates], the timer callback [detect_objects], the set-up
    helpers [createAndMapTmpFile] and [setupLarod], the globals that
    [main] sets from its arguments and the bounding-box drawing of
    [draw_cv25_overlay], with the C arithmetic written out
    (IEEE 754 binary32 and binary64 values, 32-bit unsigned wrap-around,
    float-to-integer truncation) and the calls into the image provider,
    larod, the bbox library and the JPEG helpers recorded as a trace of
    events. *)

From Stdlib Require Import ZArith List String Ascii Bool Lia Sorting.Sorted.
From Stdlib Require Import Floats.SpecFloat.
From stdpp Require Import base list.

Open Scope Z_scope.

(** ** C numbers *)

(** [float] is IEEE 754 binary32 and [double] binary64; both are carried
    by [spec_float], whose operations are parameterised by the precision
    and the exponent of the infinities.  Every operation rounds to
    nearest even on its own: products are not fused into sums. *)
Module F32.
Definition prec : Z := 24.
Definition emax : Z := 128.

(** The [float] stored in a 32-bit word: sign bit 31, biased exponent
    in bits 30..23, fraction in bits 22..0 (with the implicit leading
    one for a normal number). *)
Definition of_bits (w : Z) : spec_float :=
  let s := Z.testbit w 31 in
  let ef := Z.land (Z.shiftr w 23) 0xFF in
  let mf := Z.land w 0x7FFFFF in
  if ef =? 0 then
    match mf with
    | Zpos p => S754_finite s p (-149)
    | _ => S754_zero s
    end
  else if ef =? 255 then
    if mf =? 0 then S754_infinity s else S754_nan
  else S754_finite s (Z.to_pos (0x800000 + mf)) (ef - 150).

(** Conversion of an integer to [float] (round to nearest even). *)
Definition of_Z (n : Z) : spec_float := binary_normalize prec emax n 0 false.

Definition mul : spec_float -> spec_float -> spec_float := SFmul prec emax.
Definition add : spec_float -> spec_float -> spec_float := SFadd prec emax.
Definition sub : spec_float -> spec_float -> spec_float := SFsub prec emax.
End F32.

Module F64.
Definition prec : Z := 53.
Definition emax : Z := 1024.

Definition of_Z (n : Z) : spec_float := binary_normalize prec emax n 0 false.

(** Promotion of a [float] to [double]; the value is unchanged, the
    mantissa is realigned to 53 bits. *)
Definition of_float (f : spec_float) : spec_float :=
  match f with
  | S754_finite s m e => binary_normalize prec emax (cond_Zopp s (Zpos m)) e s
  | _ => f
  end.

Definition div : spec_float -> spec_float -> spec_float := SFdiv prec emax.
End F64.

(** Conversion of a floating value to an integer type discards the
    fractional part; it is defined only when the integral part fits the
    target type (C11 6.3.1.4). *)
Definition trunc (f : spec_float) : option Z :=
  match f with
  | S754_zero _ => Some 0
  | S754_finite s m e => Some (cond_Zopp s (Z.shiftl (Zpos m) e))
  | S754_infinity _ | S754_nan => None
  end.

Definition in_range (lo hi : Z) (f : spec_float) : option Z :=
  match trunc f with
  | Some z => if (lo <=? z) && (z <? hi) then Some z else None
  | None => None
  end.

Definition to_uint : spec_float -> option Z := in_range 0 (2 ^ 32).
Definition to_int : spec_float -> option Z := in_range (- 2 ^ 31) (2 ^ 31).
Definition to_size_t : spec_float -> option Z := in_range 0 (2 ^ 64).

(** [unsigned int] arithmetic wraps modulo 2^32; storing an
    [unsigned int] into an [int] keeps the low 32 bits. *)
Definition wrap_uint (z : Z) : Z := z mod 2 ^ 32.
Definition uint_to_int (u : Z) : Z := if u <? 2 ^ 31 then u else u - 2 ^ 32.

(** ** The label file *)

Module Labels.

Definition NUL : ascii := "000"%char.
Definition NEWLINE : ascii := "010"%char.

(** What the file system and the allocator answer during one call of
    [parseLabels]; [file_bytes] is the contents of the file, whose
    length is [st_size]. *)
Record label_file := {
  stat_ok : bool;
  file_bytes : list ascii;
  open_ok : bool;
  data_malloc_ok : bool;
  read_ok : bool;
  array_malloc_ok : bool
}.

Inductive parse_result :=
| ParseFalse
| ParseUndefined
| ParseTrue (labelArray : list Z) (numLines : Z) (labelsData : list ascii).

(** [for (size_t i = 0; i < n; i++) body], the body failing when it
    reads or writes outside the buffer. *)
Fixpoint for_loop {S : Type} (n : nat) (i : Z)
         (body : Z -> S -> option S) (s : S) : option S :=
  match n with
  | O => Some s
  | Datatypes.S n' =>
      match body i s with
      | Some s' => for_loop n' (i + 1) body s'
      | None => None
      end
  end.

Definition load (data : list ascii) (i : Z) : option ascii :=
  if 0 <=? i then data !! Z.to_nat i else None.

Definition store (data : list ascii) (i : Z) (c : ascii) : option (list ascii) :=
  if (0 <=? i) && (i <? Z.of_nat (length data))
  then Some (<[Z.to_nat i := c]> data) else None.

Definition store_ptr (arr : list Z) (i : Z) (p : Z) : option (list Z) :=
  if (0 <=? i) && (i <? Z.of_nat (length arr))
  then Some (<[Z.to_nat i := p]> arr) else None.

(** [strnlen(s, maxlen)] on the bytes that start at [s]. *)
Fixpoint strnlen (s : list ascii) (maxlen : nat) : nat :=
  match maxlen, s with
  | Datatypes.S k, c :: rest =>
      if Ascii.eqb c NUL then O else Datatypes.S (strnlen rest k)
  | _, _ => O
  end.

(** The C string that starts at [s]: the bytes before the first NUL. *)
Fixpoint cstring (s : list ascii) : string :=
  match s with
  | c :: rest => if Ascii.eqb c NUL then EmptyString else String c (cstring rest)
  | [] => EmptyString
  end.

Definition LINE_MAX_LEN : Z := 60.

(** First pass: count the newlines in all bytes but the last. *)
Definition count_lines (labelsData : list ascii) (labelsFileSize : Z) : option Z :=
  for_loop (Z.to_nat (labelsFileSize - 1)) 0
    (fun i numLines =>
       match load labelsData i with
       | Some c => Some (if Ascii.eqb c NEWLINE then numLines + 1 else numLines)
       | None => None
       end) 0.

(** Second pass: register the start of every line and end each line
    with a NUL in place of its newline. *)
Definition split_lines (labelsData : list ascii) (labelArray : list Z)
           (labelsFileSize : Z) : option (list ascii * list Z * Z) :=
  for_loop (Z.to_nat labelsFileSize) 0
    (fun i '(data, arr, labelIdx) =>
       match load data i with
       | Some c =>
           if Ascii.eqb c NEWLINE then
             if i <? labelsFileSize - 1 then
               match store_ptr arr labelIdx (i + 1), store data i NUL with
               | Some arr', Some data' => Some (data', arr', labelIdx + 1)
               | _, _ => None
               end
             else
               match store data i NUL with
               | Some data' => Some (data', arr, labelIdx)
               | None => None
               end
           else Some (data, arr, labelIdx)
       | None => None
       end) (labelsData, labelArray, 1).

(** Third pass: cap the strings that are too long. *)
Definition cap_lines (labelsData : list ascii) (labelArray : list Z)
           (numLines : Z) : option (list ascii) :=
  for_loop (Z.to_nat numLines) 0
    (fun i data =>
       match (if 0 <=? i then labelArray !! Z.to_nat i else None) with
       | Some p =>
           let stringLen :=
             Z.of_nat (strnlen (drop (Z.to_nat p) data) (Z.to_nat LINE_MAX_LEN)) in
           if LINE_MAX_LEN <=? stringLen
           then store data (p + LINE_MAX_LEN + 1) NUL
           else Some data
       | None => None
       end) labelsData.

Definition parseLabels (f : label_file) : parse_result :=
  if negb (stat_ok f) then ParseFalse else
  let labelsFileSize := Z.of_nat (length (file_bytes f)) in
  if 10 * 1024 * 1024 <? labelsFileSize then ParseFalse else
  if negb (open_ok f) then ParseFalse else
  if negb (data_malloc_ok f) then ParseFalse else
  if negb (read_ok f) && (0 <? labelsFileSize) then ParseFalse else
  (* malloc(labelsFileSize + 1): the file contents and one more byte,
   which is written before it is ever read *)
  let labelsData := file_bytes f ++ [NUL] in
  (* an empty file makes [labelsFileSize - 1] wrap to SIZE_MAX *)
  if labelsFileSize =? 0 then ParseUndefined else
  match count_lines labelsData labelsFileSize with
  | None => ParseUndefined
  | Some n =>
      let numLines := n + 1 in
      if negb (array_malloc_ok f) then ParseFalse else
      let labelArray := <[0%nat := 0]> (replicate (Z.to_nat numLines) 0) in
      match split_lines labelsData labelArray labelsFileSize with
      | None => ParseUndefined
      | Some (data, arr, _) =>
          match store data labelsFileSize NUL with
          | None => ParseUndefined
          | Some data' =>
              match cap_lines data' arr numLines with
              | None => ParseUndefined
              | Some data'' => ParseTrue arr numLines data''
              end
          end
      end
  end.

(** The string [labels[i]] of a parsed table. *)
Definition label_at (labelsData : list ascii) (p : Z) : string :=
  cstring (drop (Z.to_nat p) labelsData).

Definition label_table (r : parse_result) : list string :=
  match r with
  | ParseTrue arr _ data => map (label_at data) arr
  | _ => []
  end.

End Labels.


(** ** The detection pipeline *)

(** *** Memory-mapped output tensors *)

Definition CHANNELS : Z := 3.
Definition FLOATSIZE : Z := 4.
Definition TENSOR1SIZE : Z := 80 * FLOATSIZE.
Definition TENSOR2SIZE : Z := 20 * FLOATSIZE.
Definition TENSOR3SIZE : Z := 20 * FLOATSIZE.
Definition TENSOR4SIZE : Z := 1 * FLOATSIZE.

(** The four outputs of the detector, in the order of [outputTensors]:
    [locations], [classes], [scores] and [numberOfDetections]. *)
Inductive tensor := Locations | Classes | Scores | NumberOfDetections.

Definition tensor_size (t : tensor) : Z :=
  match t with
  | Locations => TENSOR1SIZE
  | Classes => TENSOR2SIZE
  | Scores => TENSOR3SIZE
  | NumberOfDetections => TENSOR4SIZE
  end.

(** The mapped regions [larodOutput1Addr] .. [larodOutput4Addr], as
    32-bit words.  A word that the list does not give is zero, as in a
    freshly truncated file. *)
Record outputs := {
  larodOutput1 : list Z;
  larodOutput2 : list Z;
  larodOutput3 : list Z;
  larodOutput4 : list Z
}.

Definition tensor_words (o : outputs) (t : tensor) : list Z :=
  match t with
  | Locations => larodOutput1 o
  | Classes => larodOutput2 o
  | Scores => larodOutput3 o
  | NumberOfDetections => larodOutput4 o
  end.

(** [((float* )addr)[i]]: defined when the four bytes lie in the mapping. *)
Definition read_f32 (o : outputs) (t : tensor) (i : Z) : option spec_float :=
  if (0 <=? i) && (FLOATSIZE * i + FLOATSIZE <=? tensor_size t)
  then Some (F32.of_bits (default 0 (tensor_words o t !! Z.to_nat i)))
  else None.

(** *** Globals *)

Definition OBJECT_OVERLAYS_MAX_LENGTH : Z := 5.
Definition CLASS_BUFFER_SIZE : Z := 50.

Record ObjectOverlay := {
  ov_top : Z;
  ov_bottom : Z;
  ov_left : Z;
  ov_right : Z;
  ov_class : string;
  ov_score : spec_float;
  bounding_box_id : Z;
  text_id : Z
}.

(** File positions of [larodOutput1Fd] .. [larodOutput4Fd]. *)
Record fdpos := { pos1 : Z; pos2 : Z; pos3 : Z; pos4 : Z }.

Definition set_pos (p : fdpos) (t : tensor) (z : Z) : fdpos :=
  match t with
  | Locations => {| pos1 := z; pos2 := pos2 p; pos3 := pos3 p; pos4 := pos4 p |}
  | Classes => {| pos1 := pos1 p; pos2 := z; pos3 := pos3 p; pos4 := pos4 p |}
  | Scores => {| pos1 := pos1 p; pos2 := pos2 p; pos3 := z; pos4 := pos4 p |}
  | NumberOfDetections => {| pos1 := pos1 p; pos2 := pos2 p; pos3 := pos3 p; pos4 := z |}
  end.

(** The globals that a tick reads and writes. *)
Record globals := {
  object_overlays_length : Z;
  object_overlays : list ObjectOverlay;
  stream_width : Z;
  stream_height : Z;
  out_pos : fdpos;
  out_mem : outputs
}.

(** The globals that are set once by [main]; [overlay_build] says
    whether ENABLE_OVERLAY or ENABLE_CV25_OVERLAY is defined. *)
Record config := {
  widthFrameHD : Z;
  heightFrameHD : Z;
  desiredHDImgWidth : Z;
  desiredHDImgHeight : Z;
  yuyvBufferSize : Z;
  threshold : Z;
  quality : Z;
  labels : list string;
  overlay_build : bool
}.

(** *** The world outside *)

Inductive provider := SdImageProvider | HdImageProvider.
Inductive job := PpReq | PpReqHD | InfReq.

(** What the collaborators answer during one tick: the frames (a handle,
    or [None] for NULL), the outcome of each job and of each [lseek], and
    what the inference job leaves in the output tensors and at which file
    positions. *)
Record tick_env := {
  sd_frame : option Z;
  hd_frame : option Z;
  pp_ok : bool;
  pp_hd_ok : bool;
  lseek_ok : tensor -> bool;
  inf_ok : bool;
  inf_mem : outputs;
  inf_pos : fdpos
}.

Inductive logmsg :=
| LogSeparator
| LogBufEmpty
| LogBufEmptyHD
| LogPreprocessFailed
| LogRewindFailed
| LogInferenceFailed
| LogNoObject
| LogObject (i : Z) (label : string) (score top left bottom right : spec_float)
| LogHDSize (desired_h desired_w h w : Z)
| LogCoordinates (frame_width frame_height : Z)
                 (top : spec_float) (out_top : Z) (left : spec_float) (out_left : Z)
                 (bottom : spec_float) (out_bottom : Z) (right : spec_float) (out_right : Z).

(** The calls that leave the function.  [EvCrop i ..] is the call of
    [crop_interleaved] made in iteration [i] of the detection loop, and
    [EvJpegToFile i] writes the file /tmp/detection_<i>.jpg.  [EvRunJob]
    carries the file positions of the four output descriptors at the time
    of the call. *)
Inductive event :=
| EvGetLastFrame (p : provider) (buf : option Z)
| EvMemcpy (p : provider) (buf : Z) (n : Z)
| EvRunJob (j : job) (ok : bool) (pos : fdpos)
| EvLseek (t : tensor) (ok : bool)
| EvSyslog (m : logmsg)
| EvCrop (i : Z) (image_width image_height channels crop_x crop_y crop_w crop_h : Z)
| EvJpegConf (i : Z) (width height channels quality : Z)
| EvJpegToFile (i : Z)
| EvReturnFrame (p : provider) (buf : Z).

(** *** The monad of one tick *)

(** Behaviour that C leaves undefined. *)
Inductive ub :=
| UbTensorRead (t : tensor) (i : Z)
| UbLabelIndex (i : Z)
| UbFloatToInt (f : spec_float)
| UbOverlayIndex (i : Z)
| UbStrcpy (label : string).

(** A statement falls through ([Next]), leaves the function ([Return]),
    has no defined behaviour, or exhausts the loop budget of the model. *)
Inductive res (A : Type) : Type :=
| Next (a : A)
| Return (b : bool)
| Undefined (u : ub)
| OutOfFuel.

Arguments Next {A} a.
Arguments Return {A} b.
Arguments Undefined {A} u.
Arguments OutOfFuel {A}.

Definition M (A : Type) : Type := globals -> list event * globals * res A.

Definition ret {A} (a : A) : M A := fun g => ([], g, Next a).

Definition bind {A B} (m : M A) (k : A -> M B) : M B :=
  fun g =>
    match m g with
    | (t1, g1, Next a) =>
        match k a g1 with
        | (t2, g2, r) => (t1 ++ t2, g2, r)
        end
    | (t1, g1, Return b) => (t1, g1, Return b)
    | (t1, g1, Undefined u) => (t1, g1, Undefined u)
    | (t1, g1, OutOfFuel) => (t1, g1, OutOfFuel)
    end.

Notation "x <- m ;; k" := (bind m (fun x => k))
  (at level 20, m at level 99, k at level 200, only parsing).
Notation "' pat <- m ;; k" := (bind m (fun x => match x with pat => k end))
  (at level 20, pat pattern, m at level 99, k at level 200, only parsing).
Notation "m ;;; k" := (bind m (fun _ => k))
  (at level 100, k at level 200, only parsing, right associativity).

Definition creturn {A} (b : bool) : M A := fun g => ([], g, Return b).
Definition undefined {A} (u : ub) : M A := fun g => ([], g, Undefined u).
Definition out_of_fuel {A} : M A := fun g => ([], g, OutOfFuel).
Definition emit (e : event) : M unit := fun g => ([e], g, Next tt).
Definition syslog (m : logmsg) : M unit := emit (EvSyslog m).
Definition get : M globals := fun g => ([], g, Next g).
Definition put (g : globals) : M unit := fun _ => ([], g, Next tt).

Definition defined {A} (o : option A) (u : ub) : M A :=
  match o with
  | Some a => ret a
  | None => undefined u
  end.

Definition trace_of {A} (x : list event * globals * res A) : list event := fst (fst x).
Definition globals_of {A} (x : list event * globals * res A) : globals := snd (fst x).
Definition result_of {A} (x : list event * globals * res A) : res A := snd x.

(** *** Helpers of the tick *)

Definition set_out_pos (g : globals) (p : fdpos) : globals :=
  {| object_overlays_length := object_overlays_length g;
     object_overlays := object_overlays g;
     stream_width := stream_width g;
     stream_height := stream_height g;
     out_pos := p;
     out_mem := out_mem g |}.

Definition set_out_mem (g : globals) (o : outputs) : globals :=
  {| object_overlays_length := object_overlays_length g;
     object_overlays := object_overlays g;
     stream_width := stream_width g;
     stream_height := stream_height g;
     out_pos := out_pos g;
     out_mem := o |}.

Definition set_overlays_length (g : globals) (n : Z) : globals :=
  {| object_overlays_length := n;
     object_overlays := object_overlays g;
     stream_width := stream_width g;
     stream_height := stream_height g;
     out_pos := out_pos g;
     out_mem := out_mem g |}.

Definition set_overlays (g : globals) (l : list ObjectOverlay) : globals :=
  {| object_overlays_length := object_overlays_length g;
     object_overlays := l;
     stream_width := stream_width g;
     stream_height := stream_height g;
     out_pos := out_pos g;
     out_mem := out_mem g |}.

(** [larodRunJob(conn, req, &error)].  The inference job fills the
    output tensors and moves the positions of their descriptors. *)
Definition larodRunJob (e : tick_env) (j : job) : M bool :=
  g <- get ;;
  match j with
  | PpReq => emit (EvRunJob j (pp_ok e) (out_pos g)) ;;; ret (pp_ok e)
  | PpReqHD => emit (EvRunJob j (pp_hd_ok e) (out_pos g)) ;;; ret (pp_hd_ok e)
  | InfReq =>
      emit (EvRunJob j (inf_ok e) (out_pos g)) ;;;
      put (set_out_pos (set_out_mem g (inf_mem e)) (inf_pos e)) ;;;
      ret (inf_ok e)
  end.

(** [if (lseek(fd, 0, SEEK_SET) == -1) { syslog(..); return FALSE; }] *)
Definition rewind (e : tick_env) (t : tensor) : M unit :=
  emit (EvLseek t (lseek_ok e t)) ;;;
  if lseek_ok e t then
    g <- get ;;
    put (set_out_pos g (set_pos (out_pos g) t 0))
  else
    syslog LogRewindFailed ;;; creturn false.

(** [((float* )addr)[i]] on the current contents of the tensors. *)
Definition load_f32 (t : tensor) (i : Z) : M spec_float :=
  g <- get ;;
  defined (read_f32 (out_mem g) t i) (UbTensorRead t i).

(** [labels[(int)classes[i]]] *)
Definition label_of_class (c : config) (i : Z) : M string :=
  cls <- load_f32 Classes i ;;
  idx <- defined (to_int cls) (UbFloatToInt cls) ;;
  defined (if 0 <=? idx then labels c !! Z.to_nat idx else None) (UbLabelIndex idx).

(** The four expressions that both [detect_objects] and [get_coordinates]
    convert to [unsigned int]. *)
Definition crop_x_float (c : config) (left : spec_float) : spec_float :=
  let croppedWidthHD := heightFrameHD c in
  F32.add (F32.mul left (F32.of_Z croppedWidthHD))
          (F32.of_Z (wrap_uint (widthFrameHD c - heightFrameHD c) / 2)).

Definition crop_y_float (c : config) (top : spec_float) : spec_float :=
  F32.mul top (F32.of_Z (heightFrameHD c)).

Definition crop_w_float (c : config) (left right : spec_float) : spec_float :=
  let croppedWidthHD := heightFrameHD c in
  F32.mul (F32.sub right left) (F32.of_Z croppedWidthHD).

Definition crop_h_float (c : config) (top bottom : spec_float) : spec_float :=
  F32.mul (F32.sub bottom top) (F32.of_Z (heightFrameHD c)).

Definition as_uint (f : spec_float) : M Z := defined (to_uint f) (UbFloatToInt f).

Definition get_coordinates (c : config) (frame_width frame_height : Z)
           (top left bottom right : spec_float) : M (Z * Z * Z * Z) :=
  crop_x <- as_uint (crop_x_float c left) ;;
  crop_y <- as_uint (crop_y_float c top) ;;
  crop_w <- as_uint (crop_w_float c left right) ;;
  crop_h <- as_uint (crop_h_float c top bottom) ;;
  let out_top := uint_to_int crop_y in
  let out_left := uint_to_int crop_x in
  let out_bottom := uint_to_int (wrap_uint (crop_y + crop_h)) in
  let out_right := uint_to_int (wrap_uint (crop_x + crop_w)) in
  syslog (LogCoordinates frame_width frame_height
            top out_top left out_left bottom out_bottom right out_right) ;;;
  ret (out_top, out_left, out_bottom, out_right).

(** [scores[i] >= threshold / 100.0], evaluated in [double]. *)
Definition above_threshold (c : config) (score : spec_float) : bool :=
  SFleb (F64.div (F64.of_Z (threshold c)) (F64.of_Z 100)) (F64.of_float score).

(** The body of the detection loop of [detect_objects]. *)
Definition crop_and_encode (c : config) (i : Z) : M unit :=
  top <- load_f32 Locations (4 * i) ;;
  left <- load_f32 Locations (4 * i + 1) ;;
  bottom <- load_f32 Locations (4 * i + 2) ;;
  right <- load_f32 Locations (4 * i + 3) ;;
  crop_x <- as_uint (crop_x_float c left) ;;
  crop_y <- as_uint (crop_y_float c top) ;;
  crop_w <- as_uint (crop_w_float c left right) ;;
  crop_h <- as_uint (crop_h_float c top bottom) ;;
  score <- load_f32 Scores i ;;
  if above_threshold c score then
    label <- label_of_class c i ;;
    syslog (LogObject i label score top left bottom right) ;;;
    emit (EvCrop i (widthFrameHD c) (heightFrameHD c) CHANNELS
                 crop_x crop_y crop_w crop_h) ;;;
    emit (EvJpegConf i crop_w crop_h CHANNELS (quality c)) ;;;
    emit (EvJpegToFile i)
  else ret tt.

(** [for (int i = 0; i < numberOfDetections[0]; i++) body].  The body
    has no defined behaviour once [i] passes the end of the tensors, so
    a budget of one body more than the tensors hold entries is never
    exhausted. *)
Fixpoint detection_loop (c : config) (fuel : nat) (i : Z) : M unit :=
  count <- load_f32 NumberOfDetections 0 ;;
  if SFltb (F32.of_Z i) count then
    match fuel with
    | O => out_of_fuel
    | S fuel' => crop_and_encode c i ;;; detection_loop c fuel' (i + 1)
    end
  else ret tt.

Definition DETECTION_FUEL : nat := 21.

(** The body of the overlay loop. *)
Definition update_overlay (c : config) (i : Z) : M unit :=
  g <- get ;;
  overlay <- defined (if 0 <=? i then object_overlays g !! Z.to_nat i else None)
                     (UbOverlayIndex i) ;;
  top <- load_f32 Locations (4 * i) ;;
  left <- load_f32 Locations (4 * i + 1) ;;
  bottom <- load_f32 Locations (4 * i + 2) ;;
  right <- load_f32 Locations (4 * i + 3) ;;
  ' (out_top, out_left, out_bottom, out_right) <-
    get_coordinates c (stream_width g) (stream_height g) top left bottom right ;;
  label <- label_of_class c i ;;
  (* strcpy into char class[50] *)
  (if Z.of_nat (String.length label) <? CLASS_BUFFER_SIZE
   then ret tt else undefined (UbStrcpy label)) ;;;
  score <- load_f32 Scores i ;;
  put (set_overlays g
         (<[Z.to_nat i :=
              {| ov_top := out_top; ov_bottom := out_bottom;
                 ov_left := out_left; ov_right := out_right;
                 ov_class := label; ov_score := score;
                 bounding_box_id := bounding_box_id overlay;
                 text_id := text_id overlay |}]> (object_overlays g))).

(** [for (size_t i = 0; i < object_overlays_length; i++) body], with [n]
    bodies left to run. *)
Fixpoint overlay_loop (c : config) (n : nat) (i : Z) : M unit :=
  match n with
  | O => ret tt
  | S n' => update_overlay c i ;;; overlay_loop c n' (i + 1)
  end.

(** The block under ENABLE_OVERLAY / ENABLE_CV25_OVERLAY. *)
Definition update_overlays (c : config) : M unit :=
  syslog (LogHDSize (desiredHDImgHeight c) (desiredHDImgWidth c)
                    (heightFrameHD c) (widthFrameHD c)) ;;;
  count <- load_f32 NumberOfDetections 0 ;;
  let len := if SFltb count (F32.of_Z OBJECT_OVERLAYS_MAX_LENGTH)
             then count else F32.of_Z OBJECT_OVERLAYS_MAX_LENGTH in
  n <- defined (to_size_t len) (UbFloatToInt len) ;;
  g <- get ;;
  put (set_overlays_length g n) ;;;
  overlay_loop c (Z.to_nat n) 0.

(** The overlay block is compiled in or left out. *)
Definition overlay_block (c : config) : M unit :=
  if overlay_build c then update_overlays c else ret tt.

(** *** One tick *)

(** The detection count [numberOfDetections[0]] held by the tensors [o]. *)
Definition reported_count (o : outputs) : spec_float :=
  F32.of_bits (default 0 (larodOutput4 o !! 0%nat)).

(** The part of [detect_objects] that follows the inference job: the
    detection loop, the overlay block and the release of the frames. *)
Definition post_process (c : config) (buf buf_hq : Z) : M unit :=
  count <- load_f32 NumberOfDetections 0 ;;
  n <- defined (to_int count) (UbFloatToInt count) ;;
  if n =? 0 then syslog LogNoObject ;;; creturn true else
  detection_loop c DETECTION_FUEL 0 ;;;
  overlay_block c ;;;
  emit (EvReturnFrame SdImageProvider buf) ;;;
  emit (EvReturnFrame HdImageProvider buf_hq) ;;;
  creturn true.

(** [detect_objects]; the elapsed-time measurements and their log lines
    are left out. *)
Definition detect_objects (c : config) (e : tick_env) : M unit :=
  syslog LogSeparator ;;;
  emit (EvGetLastFrame SdImageProvider (sd_frame e)) ;;;
  match sd_frame e with
  | None => syslog LogBufEmpty ;;; creturn false
  | Some buf =>
  emit (EvGetLastFrame HdImageProvider (hd_frame e)) ;;;
  match hd_frame e with
  | None => syslog LogBufEmptyHD ;;; creturn false
  | Some buf_hq =>
  emit (EvMemcpy SdImageProvider buf (yuyvBufferSize c)) ;;;
  pp <- larodRunJob e PpReq ;;
  if negb pp then syslog LogPreprocessFailed ;;; creturn false else
  emit (EvMemcpy HdImageProvider buf_hq
          (wrap_uint (widthFrameHD c * heightFrameHD c * CHANNELS) / 2)) ;;;
  pphd <- larodRunJob e PpReqHD ;;
  if negb pphd then syslog LogPreprocessFailed ;;; creturn false else
  rewind e Locations ;;;
  rewind e Classes ;;;
  rewind e Scores ;;;
  rewind e NumberOfDetections ;;;
  inf <- larodRunJob e InfReq ;;
  if negb inf then syslog LogInferenceFailed ;;; creturn false else
  post_process c buf buf_hq
  end
  end.

(** [detect_objects_timeout_callback]: one tick from the globals [g]. *)
Definition tick (c : config) (e : tick_env) (g : globals)
  : list event * globals * res unit :=
  detect_objects c e g.

(** The records that the overlay callbacks draw: the first
    [object_overlays_length] entries of [object_overlays]. *)
Definition overlay_output (g : globals) : list ObjectOverlay :=
  take (Z.to_nat (object_overlays_length g)) (object_overlays g).

(** Every collaborator of the tick answers with success. *)
Definition all_ok (e : tick_env) (buf buf_hq : Z) : Prop :=
  sd_frame e = Some buf /\ hd_frame e = Some buf_hq /\
  pp_ok e = true /\ pp_hd_ok e = true /\
  (forall t, lseek_ok e t = true) /\ inf_ok e = true.

(** ** Inputs used in the examples *)

Module Ex.

(** Bit patterns of the [float] values of the examples. *)
Definition f0_0 : Z := 0x00000000.
Definition f0_1 : Z := 0x3DCCCCCD.
Definition f0_25 : Z := 0x3E800000.
Definition f0_3 : Z := 0x3E99999A.
Definition f0_5 : Z := 0x3F000000.
Definition f0_6 : Z := 0x3F19999A.
Definition f0_75 : Z := 0x3F400000.
Definition f0_9 : Z := 0x3F666666.
Definition f1_0 : Z := 0x3F800000.
Definition f1_125 : Z := 0x3F900000.
Definition f2_0 : Z := 0x40000000.
Definition f3_0 : Z := 0x40400000.
Definition f7_0 : Z := 0x40E00000.
Definition f21_0 : Z := 0x41A80000.

Definition blank : ObjectOverlay :=
  {| ov_top := 0; ov_bottom := 0; ov_left := 0; ov_right := 0;
     ov_class := EmptyString; ov_score := S754_zero false;
     bounding_box_id := 0; text_id := 0 |}.

Definition tensors (locations classes scores : list Z) (count : Z) : outputs :=
  {| larodOutput1 := locations; larodOutput2 := classes;
     larodOutput3 := scores; larodOutput4 := [count] |}.

(** The globals before a tick: five blank overlays, a stream of the
    given size, descriptors left at the end of their files. *)
Definition start (sw sh : Z) : globals :=
  {| object_overlays_length := 0;
     object_overlays := replicate 5 blank;
     stream_width := sw; stream_height := sh;
     out_pos := {| pos1 := 320; pos2 := 80; pos3 := 80; pos4 := 4 |};
     out_mem := tensors [] [] [] f0_0 |}.

(** A tick in which every collaborator succeeds and the inference job
    leaves [o] in the tensors. *)
Definition good (o : outputs) : tick_env :=
  {| sd_frame := Some 1; hd_frame := Some 2;
     pp_ok := true; pp_hd_ok := true;
     lseek_ok := fun _ => true; inf_ok := true;
     inf_mem := o;
     inf_pos := {| pos1 := 320; pos2 := 80; pos3 := 80; pos4 := 4 |} |}.

(** A tick in which the third rewind fails. *)
Definition rewind_fails (o : outputs) : tick_env :=
  {| sd_frame := Some 1; hd_frame := Some 2;
     pp_ok := true; pp_hd_ok := true;
     lseek_ok := fun t => match t with Scores => false | _ => true end;
     inf_ok := true;
     inf_mem := o;
     inf_pos := {| pos1 := 320; pos2 := 80; pos3 := 80; pos4 := 4 |} |}.

(** HD frames of 1280x720, four labels. *)
Definition cfg (thr : Z) (overlay : bool) : config :=
  {| widthFrameHD := 1280; heightFrameHD := 720;
     desiredHDImgWidth := 1280; desiredHDImgHeight := 720;
     yuyvBufferSize := 135000;
     threshold := thr; quality := 80;
     labels := ["bed"; "chair"; "sofa"; "person"]%string;
     overlay_build := overlay |}.

(** One detection: box (0.25, 0.25, 0.75, 0.75), class 3, score 0.9. *)
Definition one_centered : outputs :=
  tensors [f0_25; f0_25; f0_75; f0_75] [f3_0] [f0_9] f1_0.

(** Two detections: box (0.1, 0.1, 0.6, 0.6), class 3, score 0.9 and
    box (0.25, 0.25, 0.75, 0.75), class 3, score 0.3. *)
Definition strong_and_weak : outputs :=
  tensors [f0_1; f0_1; f0_6; f0_6; f0_25; f0_25; f0_75; f0_75]
          [f3_0; f3_0] [f0_9; f0_3] f2_0.

(** One detection whose box reaches below the frame:
    (top 0.5, left 0.25, bottom 1.125, right 0.75). *)
Definition one_overhanging : outputs :=
  tensors [f0_5; f0_25; f1_125; f0_75] [f3_0] [f0_9] f1_0.

(** One detection of class 7, which the four labels do not cover. *)
Definition one_unlabelled (score : Z) : outputs :=
  tensors [f0_25; f0_25; f0_75; f0_75] [f7_0] [score] f1_0.

(** No detection. *)
Definition none : outputs := tensors [] [] [] f0_0.

(** A reported count of 21 over empty tensors. *)
Definition twenty_one : outputs := tensors [] [] [] f21_0.

Definition label_file_of (s : string) : Labels.label_file :=
  {| Labels.stat_ok := true; Labels.file_bytes := list_ascii_of_string s;
     Labels.open_ok := true; Labels.data_malloc_ok := true;
     Labels.read_ok := true; Labels.array_malloc_ok := true |}.

(** A line of 62 bytes and its newline. *)
Definition long_line : string :=
  "abcdefghijklmnopqrstuvwxyzabcdefghijklmnopqrstuvwxyzabcdefghij
".

(** A line of exactly 60 bytes. *)
Definition line_of_60 : string :=
  "abcdefghijklmnopqrstuvwxyzabcdefghijklmnopqrstuvwxyzabcdefgh".

End Ex.

(** ** What a tick has to produce, detection by detection *)

(** The box [(top, left, bottom, right)] of detection [i]. *)
Definition box_at (o : outputs) (i : Z)
  : option (spec_float * spec_float * spec_float * spec_float) :=
  match read_f32 o Locations (4 * i), read_f32 o Locations (4 * i + 1),
        read_f32 o Locations (4 * i + 2), read_f32 o Locations (4 * i + 3) with
  | Some t, Some l, Some b, Some r => Some (t, l, b, r)
  | _, _, _, _ => None
  end.

(** The rectangle [(crop_x, crop_y, crop_w, crop_h)] of detection [i]. *)
Definition rect_at (c : config) (o : outputs) (i : Z) : option (Z * Z * Z * Z) :=
  match box_at o i with
  | Some (t, l, b, r) =>
      match to_uint (crop_x_float c l), to_uint (crop_y_float c t),
            to_uint (crop_w_float c l r), to_uint (crop_h_float c t b) with
      | Some x, Some y, Some w, Some h => Some (x, y, w, h)
      | _, _, _, _ => None
      end
  | None => None
  end.

(** Detection [i] passes the score threshold. *)
Definition kept_at (c : config) (o : outputs) (i : Z) : bool :=
  match read_f32 o Scores i with
  | Some score => above_threshold c score
  | None => false
  end.

(** The label of detection [i], when its class index lies in the table. *)
Definition label_at (c : config) (o : outputs) (i : Z) : option string :=
  match read_f32 o Classes i with
  | Some cls =>
      match to_int cls with
      | Some idx => if 0 <=? idx then labels c !! Z.to_nat idx else None
      | None => None
      end
  | None => None
  end.

(** The events of the detection loop from index [lo] on. *)
Definition detection_event (c : config) (o : outputs) (lo : Z) (ev : event) : Prop :=
  match ev with
  | EvCrop i iw ih ch x y w h =>
      lo <= i /\ kept_at c o i = true /\
      iw = widthFrameHD c /\ ih = heightFrameHD c /\ ch = CHANNELS /\
      rect_at c o i = Some (x, y, w, h)
  | EvJpegConf i w h ch q =>
      lo <= i /\ kept_at c o i = true /\ ch = CHANNELS /\ q = quality c /\
      exists x y, rect_at c o i = Some (x, y, w, h)
  | EvJpegToFile i => lo <= i /\ kept_at c o i = true
  | EvSyslog (LogObject i label score t l b r) =>
      lo <= i /\ kept_at c o i = true /\ label_at c o i = Some label /\
      read_f32 o Scores i = Some score /\
      box_at o i = Some (t, l, b, r)
  | _ => False
  end.

(** The rectangle [(x, y, w, h)] lies inside a frame of [fw] by [fh]. *)
Definition inside_frame (fw fh : Z) (r : Z * Z * Z * Z) : Prop :=
  let '(x, y, w, h) := r in x + w <= fw /\ y + h <= fh.

(** Clamping of a rectangle to a frame of [fw] by [fh], as the
    specification words it: clip to the actual bounds of the buffer. *)
Definition spec_clamp (fw fh : Z) (r : Z * Z * Z * Z) : Z * Z * Z * Z :=
  let '(x, y, w, h) := r in
  let x' := Z.min x fw in
  let y' := Z.min y fh in
  (x', y', Z.min w (fw - x'), Z.min h (fh - y')).

Definition is_crop_event (ev : event) : bool :=
  match ev with
  | EvCrop _ _ _ _ _ _ _ _ | EvJpegConf _ _ _ _ _ | EvJpegToFile _ => true
  | _ => false
  end.

Definition is_return_frame (ev : event) : bool :=
  match ev with
  | EvReturnFrame _ _ => true
  | _ => false
  end.

(** The overlay record of detection [i], written over the record [old]. *)
Definition overlay_at (c : config) (o : outputs) (i : Z) (old : ObjectOverlay)
  : option ObjectOverlay :=
  match rect_at c o i, label_at c o i, read_f32 o Scores i with
  | Some (x, y, w, h), Some label, Some score =>
      if Z.of_nat (String.length label) <? CLASS_BUFFER_SIZE then
        Some {| ov_top := uint_to_int y;
                ov_bottom := uint_to_int (wrap_uint (y + h));
                ov_left := uint_to_int x;
                ov_right := uint_to_int (wrap_uint (x + w));
                ov_class := label; ov_score := score;
                bounding_box_id := bounding_box_id old;
                text_id := text_id old |}
      else None
  | _, _, _ => None
  end.

(** Two states of the globals that differ at most in the overlay records. *)
Definition same_but_overlays (g g' : globals) : Prop :=
  out_mem g' = out_mem g /\ out_pos g' = out_pos g /\
  stream_width g' = stream_width g /\ stream_height g' = stream_height g /\
  object_overlays_length g' = object_overlays_length g /\
  length (object_overlays g') = length (object_overlays g).

(** The ways in which [post_process] can run from the globals [g]: the
    count cannot be converted, the count is zero, the detection loop or
    the overlay block runs into undefined behaviour, or everything runs
    and the frames are returned. *)
Inductive post_run (c : config) (buf buf_hq : Z) (g : globals)
  : list event -> globals -> res unit -> Prop :=
| PostBadCount :
    to_int (reported_count (out_mem g)) = None ->
    post_run c buf buf_hq g [] g
             (Undefined (UbFloatToInt (reported_count (out_mem g))))
| PostNoObject :
    to_int (reported_count (out_mem g)) = Some 0 ->
    post_run c buf buf_hq g [EvSyslog LogNoObject] g (Return true)
| PostLoopStuck n t1 u :
    to_int (reported_count (out_mem g)) = Some n -> n <> 0 ->
    detection_loop c DETECTION_FUEL 0 g = (t1, g, Undefined u) ->
    post_run c buf buf_hq g t1 g (Undefined u)
| PostOverlayStuck n t1 t2 g2 u :
    to_int (reported_count (out_mem g)) = Some n -> n <> 0 ->
    detection_loop c DETECTION_FUEL 0 g = (t1, g, Next tt) ->
    overlay_block c g = (t2, g2, Undefined u) ->
    post_run c buf buf_hq g (t1 ++ t2) g2 (Undefined u)
| PostDone n t1 t2 g2 :
    to_int (reported_count (out_mem g)) = Some n -> n <> 0 ->
    detection_loop c DETECTION_FUEL 0 g = (t1, g, Next tt) ->
    overlay_block c g = (t2, g2, Next tt) ->
    post_run c buf buf_hq g
             (t1 ++ t2 ++ [EvReturnFrame SdImageProvider buf;
                           EvReturnFrame HdImageProvider buf_hq])
             g2 (Return true).

Definition zero_pos : fdpos := {| pos1 := 0; pos2 := 0; pos3 := 0; pos4 := 0 |}.

(** The globals when the inference job has run after the four rewinds. *)
Definition after_inference (e : tick_env) (g : globals) : globals :=
  set_out_pos (set_out_mem (set_out_pos g zero_pos) (inf_mem e)) (inf_pos e).

(** The events of a tick up to the inference job, when nothing fails. *)
Definition ok_prefix (c : config) (g : globals) (buf buf_hq : Z) : list event :=
  [EvSyslog LogSeparator;
   EvGetLastFrame SdImageProvider (Some buf);
   EvGetLastFrame HdImageProvider (Some buf_hq);
   EvMemcpy SdImageProvider buf (yuyvBufferSize c);
   EvRunJob PpReq true (out_pos g);
   EvMemcpy HdImageProvider buf_hq
     (wrap_uint (widthFrameHD c * heightFrameHD c * CHANNELS) / 2);
   EvRunJob PpReqHD true (out_pos g);
   EvLseek Locations true; EvLseek Classes true;
   EvLseek Scores true; EvLseek NumberOfDetections true;
   EvRunJob InfReq true zero_pos].

(** The events that a tick can emit before it fails. *)
Definition is_early_event (ev : event) : bool :=
  match ev with
  | EvSyslog LogSeparator | EvSyslog LogBufEmpty | EvSyslog LogBufEmptyHD
  | EvSyslog LogPreprocessFailed | EvSyslog LogRewindFailed
  | EvSyslog LogInferenceFailed => true
  | EvGetLastFrame _ _ | EvMemcpy _ _ _ | EvLseek _ _ => true
  | EvRunJob PpReq _ _ | EvRunJob PpReqHD _ _ => true
  | EvRunJob InfReq ok _ => negb ok
  | _ => false
  end.

(** The log lines of the overlay block. *)
Definition is_overlay_log (ev : event) : bool :=
  match ev with
  | EvSyslog (LogHDSize _ _ _ _) => true
  | EvSyslog (LogCoordinates _ _ _ _ _ _ _ _ _ _) => true
  | _ => false
  end.

(** What the detection loop emits: the log line of a kept detection,
    its crop and its JPEG file. *)
Definition is_detection_output (ev : event) : bool :=
  match ev with
  | EvSyslog (LogObject _ _ _ _ _ _ _) => true
  | EvCrop _ _ _ _ _ _ _ _ | EvJpegConf _ _ _ _ _ | EvJpegToFile _ => true
  | _ => false
  end.


(** The events of the part of a tick that follows the inference job. *)
Definition is_post_event (ev : event) : bool :=
  match ev with
  | EvSyslog LogNoObject | EvReturnFrame _ _ => true
  | _ => is_detection_output ev || is_overlay_log ev
  end.

(** What a run of [post_process] emits. *)
Definition post_event_ok (c : config) (o : outputs) (ev : event) : Prop :=
  is_post_event ev = true /\
  (is_detection_output ev = true -> detection_event c o 0 ev).

(** The number of times the overlay loop has run: each of its bodies
    logs one line of coordinates (in [get_coordinates]). *)
Definition is_coordinates_log (ev : event) : bool :=
  match ev with
  | EvSyslog (LogCoordinates _ _ _ _ _ _ _ _ _ _) => true
  | _ => false
  end.

Definition overlay_iterations (t : list event) : nat :=
  length (List.filter is_coordinates_log t).

(** The four rewinds of a tick, all successful. *)
Definition rewinds : list event :=
  [EvLseek Locations true; EvLseek Classes true;
   EvLseek Scores true; EvLseek NumberOfDetections true].

(** ** What the passes of [parseLabels] compute *)

Module LabelSpec.
Import Labels.

(** The byte that the second pass leaves in the place of [c]. *)
Definition nul_for_newline (c : ascii) : ascii :=
  if Ascii.eqb c NEWLINE then NUL else c.

(** The number of newline bytes of [l]. *)
Fixpoint newlines (l : list ascii) : Z :=
  match l with
  | [] => 0
  | c :: rest => (if Ascii.eqb c NEWLINE then 1 else 0) + newlines rest
  end.

(** The offsets that follow a newline of [l], the last byte of the file
    apart; [i] is the offset of the first byte of [l]. *)
Fixpoint starts_from (i : Z) (l : list ascii) : list Z :=
  match l with
  | [] => []
  | c :: rest =>
      if Ascii.eqb c NEWLINE then
        match rest with
        | [] => []
        | _ :: _ => (i + 1) :: starts_from (i + 1) rest
        end
      else starts_from (i + 1) rest
  end.

Definition line_starts (bytes : list ascii) : list Z := 0 :: starts_from 0 bytes.

(** The body of the second pass of [parseLabels]. *)
Definition split_body (labelsFileSize : Z) (i : Z) (s : list ascii * list Z * Z)
  : option (list ascii * list Z * Z) :=
  let '(data, arr, labelIdx) := s in
  match load data i with
  | Some c =>
      if Ascii.eqb c NEWLINE then
        if i <? labelsFileSize - 1 then
          match store_ptr arr labelIdx (i + 1), store data i NUL with
          | Some arr', Some data' => Some (data', arr', labelIdx + 1)
          | _, _ => None
          end
        else
          match store data i NUL with
          | Some data' => Some (data', arr, labelIdx)
          | None => None
          end
      else Some (data, arr, labelIdx)
  | None => None
  end.

(** The body of the third pass. *)
Definition cap_body (labelArray : list Z) (i : Z) (data : list ascii)
  : option (list ascii) :=
  match (if 0 <=? i then labelArray !! Z.to_nat i else None) with
  | Some p =>
      let stringLen :=
        Z.of_nat (strnlen (drop (Z.to_nat p) data) (Z.to_nat LINE_MAX_LEN)) in
      if LINE_MAX_LEN <=? stringLen
      then store data (p + LINE_MAX_LEN + 1) NUL
      else Some data
  | None => None
  end.

(** A label file written line by line: every line of [lines] with its
    newline, then the bytes [last] that follow the last newline. *)
Definition joined (lines : list (list ascii)) (last : list ascii) : list ascii :=
  concat (map (fun l => l ++ [NEWLINE]) lines) ++ last.

(** The lines of such a file: bytes after the last newline count as a
    line when there are any. *)
Definition all_lines (lines : list (list ascii)) (last : list ascii)
  : list (list ascii) :=
  lines ++ match last with [] => [] | _ :: _ => [last] end.

(** A line that [parseLabels] keeps as it is: shorter than
    [LINE_MAX_LEN], with no NUL and no newline in it. *)
Definition plain_line (l : list ascii) : Prop :=
  Z.of_nat (length l) < LINE_MAX_LEN /\
  Forall (fun c => c <> NUL /\ c <> NEWLINE) l.

(** The buffer during the third pass: it keeps its length and its final
    NUL, and a byte that is not NUL is still the byte that the second
    pass left. *)
Definition capped (bytes d : list ascii) : Prop :=
  length d = S (length bytes) /\
  d !! length bytes = Some NUL /\
  forall q c, d !! q = Some c -> c <> NUL ->
              (map nul_for_newline bytes ++ [NUL]) !! q = Some c.

End LabelSpec.

(** Label files of the examples. *)
Module LabelEx.

Definition nl : string := String Labels.NEWLINE EmptyString.

(** Three labels, the last one without a newline. *)
Definition three_labels : string :=
  ("bed" ++ nl ++ "chair" ++ nl ++ "person")%string.

(** Two labels with a newline after each. *)
Definition two_lines : string := ("bed" ++ nl ++ "chair" ++ nl)%string.

End LabelEx.

(** ** Temporary files for the buffers *)

Module TmpFile.

(** What the operating system answers during one call of
    [createAndMapTmpFile]: the descriptor of [mkstemp] (negative when it
    fails) and the name that it leaves in the pattern, the outcomes of
    [ftruncate] and [unlink], and the address of [mmap] ([None] for
    MAP_FAILED). *)
Record tmp_env := {
  mkstemp_fd : Z;
  mkstemp_name : string;
  ftruncate_ok : bool;
  unlink_ok : bool;
  mmap_addr : option Z
}.

Inductive tmp_log :=
| LogSetup (fileName : string) (fileSize : Z)
| LogOpenFailed (fileName : string)
| LogTruncateFailed (fileName : string)
| LogUnlinkFailed (fileName : string)
| LogMmapFailed (fileName : string).

Inductive tmp_event :=
| TmpSyslog (m : tmp_log)
| TmpMkstemp (pattern : string) (fd : Z)
| TmpFtruncate (fd : Z) (fileSize : Z) (ok : bool)
| TmpUnlink (fileName : string) (ok : bool)
| TmpMmap (fileSize : Z) (fd : Z) (data : option Z)
| TmpClose (fd : Z).

(** The statements after the label [error]. *)
Definition error_exit (fd : Z) : list tmp_event :=
  if 0 <=? fd then [TmpClose fd] else [].

(** [createAndMapTmpFile(fileName, fileSize, &mappedAddr, &convFd)]: the
    calls it makes, and the values that it stores in [*mappedAddr] and
    [*convFd] when it returns true; [None] stands for false, which leaves
    both untouched. *)
Definition createAndMapTmpFile (e : tmp_env) (fileName : string) (fileSize : Z)
  : list tmp_event * option (Z * Z) :=
  let fd := mkstemp_fd e in
  let name := mkstemp_name e in
  let t1 := [TmpSyslog (LogSetup fileName fileSize); TmpMkstemp fileName fd] in
  if fd <? 0 then
    (t1 ++ [TmpSyslog (LogOpenFailed name)] ++ error_exit fd, None)
  else
  let t2 := t1 ++ [TmpFtruncate fd fileSize (ftruncate_ok e)] in
  if negb (ftruncate_ok e) then
    (t2 ++ [TmpSyslog (LogTruncateFailed name)] ++ error_exit fd, None)
  else
  let t3 := t2 ++ [TmpUnlink name (unlink_ok e)] in
  if negb (unlink_ok e) then
    (t3 ++ [TmpSyslog (LogUnlinkFailed name)] ++ error_exit fd, None)
  else
  let t4 := t3 ++ [TmpMmap fileSize fd (mmap_addr e)] in
  match mmap_addr e with
  | None => (t4 ++ [TmpSyslog (LogMmapFailed name)] ++ error_exit fd, None)
  | Some data => (t4, Some (data, fd))
  end.

Definition is_close (ev : tmp_event) : bool :=
  match ev with
  | TmpClose _ => true
  | _ => false
  end.

Definition is_unlink (ev : tmp_event) : bool :=
  match ev with
  | TmpUnlink _ _ => true
  | _ => false
  end.

End TmpFile.

(** ** The connection to larod *)

Module Larod.

(** What larod answers during one call of [setupLarod]: the connection
    ([None] when [larodConnect] fails), the names of the devices that
    [larodListDevices] and [larodGetDeviceName] give (no device when the
    listing fails, [None] for a name that cannot be read), the device of
    [larodGetDevice] and the model of [larodLoadModel] ([None] for NULL).
    A call that fails sets [error]. *)
Record larod_env := {
  connect : option Z;
  devices : option (list (option string));
  get_device : option Z;
  load_model : option Z
}.

Inductive larod_log :=
| LogConnectFailed
| LogAvailableChips
| LogChip (name : option string)
| LogLoadFailed.

Inductive larod_event :=
| LarodSyslog (m : larod_log)
| LarodConnect (conn : option Z)
| LarodListDevices (conn : Z) (numDevices : Z)
| LarodGetDeviceName (i : Z) (name : option string)
| LarodGetDevice (conn : Z) (chipString : string) (dev : option Z)
| LarodLoadModel (conn : Z) (larodModelFd : Z) (dev : option Z) (model : option Z)
| LarodDisconnect (conn : Z)
| LarodClearError.

(** The statements after the label [end]; [error] says whether a call
    has set the error. *)
Definition end_exit (error : bool) : list larod_event :=
  if error then [LarodClearError] else [].

(** The devices that the listing gives. *)
Definition listed (e : larod_env) : list (option string) :=
  match devices e with
  | Some names => names
  | None => []
  end.

(** The loop that logs the name of every device, from index [i] on. *)
Fixpoint log_devices (i : Z) (names : list (option string)) : list larod_event :=
  match names with
  | [] => []
  | name :: rest =>
      LarodGetDeviceName i name :: LarodSyslog (LogChip name)
        :: log_devices (i + 1) rest
  end.

Definition is_none {A} (o : option A) : bool :=
  match o with
  | Some _ => false
  | None => true
  end.

(** [setupLarod(chipString, larodModelFd, &conn, &model)]: the calls it
    makes, and the connection and the model that it stores when it
    returns true; [None] stands for false. *)
Definition setupLarod (e : larod_env) (chipString : string) (larodModelFd : Z)
  : list larod_event * option (Z * Z) :=
  match connect e with
  | None =>
      ([LarodConnect None; LarodSyslog LogConnectFailed] ++ end_exit true, None)
  | Some conn =>
      let error :=
        is_none (devices e) || existsb is_none (listed e) || is_none (get_device e)
        || is_none (load_model e) in
      let t :=
        [LarodConnect (Some conn); LarodSyslog LogAvailableChips;
         LarodListDevices conn (Z.of_nat (length (listed e)))]
        ++ log_devices 0 (listed e)
        ++ [LarodGetDevice conn chipString (get_device e);
            LarodLoadModel conn larodModelFd (get_device e) (load_model e)] in
      match load_model e with
      | None =>
          (t ++ [LarodSyslog LogLoadFailed; LarodDisconnect conn] ++ end_exit error,
           None)
      | Some loadedModel => (t ++ end_exit error, Some (conn, loadedModel))
      end
  end.

Definition is_disconnect (ev : larod_event) : bool :=
  match ev with
  | LarodDisconnect _ => true
  | _ => false
  end.

End Larod.

(** ** The bounding boxes on the video (ENABLE_CV25_OVERLAY) *)

Module Bbox.

(** Division of two [float] values. *)
Definition float_div : spec_float -> spec_float -> spec_float :=
  SFdiv F32.prec F32.emax.

(** The [double] constant 0.2. *)
Definition OVERLAY_SCORE_THRESHOLD : spec_float :=
  S754_finite false 0x1999999999999A (-55).

(** The colours that [main] stores in the four globals. *)
Inductive bbox_color_t :=
| BOUNDING_BOX_COLOR_RED
| BOUNDING_BOX_COLOR_GREEN
| BOUNDING_BOX_COLOR_BLUE
| BOUNDING_BOX_COLOR_BLACK.

(** What the bbox library answers during one call of
    [draw_cv25_overlay]: the new view ([None] for NULL) and the outcomes
    of [bbox_video_output] and of [bbox_commit]. *)
Record bbox_env := {
  view_new : option Z;
  video_output_ok : bool;
  commit_ok : bool
}.

Inductive bbox_log :=
| LogDrawCallback
| LogFailedCreating
| LogFailedVideoOutput
| LogFailedDraw.

Inductive bbox_event :=
| BboxSyslog (m : bbox_log)
| BboxDestroy (view : option Z)
| BboxViewNew (view : option Z)
| BboxVideoOutput (view : option Z) (ok : bool)
| BboxThicknessMedium (view : option Z)
| BboxStyleOutline (view : option Z)
| BboxStyleCorners (view : option Z)
| BboxColor (view : option Z) (color : bbox_color_t)
| BboxRectangle (view : option Z) (x1 y1 x2 y2 : spec_float)
| BboxCommit (view : option Z) (ok : bool).

(** The screen coordinates of a record, normalised by the stream size:
    [(box_left, box_top, box_right, box_bottom)]. *)
Definition normalized (g : globals) (object : ObjectOverlay)
  : spec_float * spec_float * spec_float * spec_float :=
  (float_div (F32.of_Z (ov_left object)) (F32.of_Z (stream_width g)),
   float_div (F32.of_Z (ov_top object)) (F32.of_Z (stream_height g)),
   float_div (F32.of_Z (ov_right object)) (F32.of_Z (stream_width g)),
   float_div (F32.of_Z (ov_bottom object)) (F32.of_Z (stream_height g))).

(** The colour chosen from the label by the chain of [strcmp]. *)
Definition color_of (class : string) : bbox_color_t :=
  if String.eqb class "bed" then BOUNDING_BOX_COLOR_GREEN
  else if String.eqb class "chair" then BOUNDING_BOX_COLOR_BLUE
  else if String.eqb class "person" then BOUNDING_BOX_COLOR_RED
  else BOUNDING_BOX_COLOR_BLACK.

(** The body of the loop of [draw_cv25_overlay]. *)
Definition draw_object (g : globals) (view : option Z) (object : ObjectOverlay)
  : list bbox_event :=
  let '(box_left, box_top, box_right, box_bottom) := normalized g object in
  [if SFleb OVERLAY_SCORE_THRESHOLD (F64.of_float (ov_score object))
   then BboxStyleOutline view else BboxStyleCorners view;
   BboxColor view (color_of (ov_class object));
   BboxRectangle view box_left box_top box_right box_bottom].

(** [for (size_t i = 0; i < object_overlays_length; i++) body], with [n]
    bodies left to run; [None] when [object_overlays[i]] lies outside
    the array. *)
Fixpoint draw_objects (g : globals) (view : option Z) (n : nat) (i : Z)
  : option (list bbox_event) :=
  match n with
  | O => Some []
  | S n' =>
      match (if 0 <=? i then object_overlays g !! Z.to_nat i else None) with
      | Some object =>
          match draw_objects g view n' (i + 1) with
          | Some t => Some (draw_object g view object ++ t)
          | None => None
          end
      | None => None
      end
  end.

(** [draw_cv25_overlay]: the calls it makes and the view that it leaves
    in the global [overlay]; [None] when it has no defined behaviour. *)
Definition draw_cv25_overlay (b : bbox_env) (overlay : option Z) (g : globals)
  : option (list bbox_event * option Z) :=
  let view := view_new b in
  match draw_objects g view (Z.to_nat (object_overlays_length g)) 0 with
  | Some boxes =>
      Some ([BboxDestroy overlay; BboxViewNew view]
            ++ match view with Some _ => [] | None => [BboxSyslog LogFailedCreating] end
            ++ [BboxVideoOutput view (video_output_ok b)]
            ++ (if video_output_ok b then [] else [BboxSyslog LogFailedVideoOutput])
            ++ [BboxThicknessMedium view]
            ++ boxes
            ++ [BboxCommit view (commit_ok b)]
            ++ (if commit_ok b then [] else [BboxSyslog LogFailedDraw]),
            view)
  | None => None
  end.

(** [draw_cv25_overlay_timeout_callback]: it always asks to be called
    again. *)
Definition draw_cv25_overlay_timeout_callback
           (b : bbox_env) (overlay : option Z) (g : globals)
  : option (list bbox_event * option Z * bool) :=
  match draw_cv25_overlay b overlay g with
  | Some (t, view) => Some (BboxSyslog LogDrawCallback :: t, view, true)
  | None => None
  end.

(** The rectangles that a run hands to [bbox_rectangle], in order. *)
Fixpoint rectangles (t : list bbox_event)
  : list (spec_float * spec_float * spec_float * spec_float) :=
  match t with
  | [] => []
  | BboxRectangle _ x1 y1 x2 y2 :: rest => (x1, y1, x2, y2) :: rectangles rest
  | _ :: rest => rectangles rest
  end.

End Bbox.

(** ** Helper views of a trace *)

(** The indices of the files /tmp/detection_<i>.jpg that a run writes,
    in the order of the writes. *)
Fixpoint jpeg_files (t : list event) : list Z :=
  match t with
  | [] => []
  | EvJpegToFile i :: rest => i :: jpeg_files rest
  | _ :: rest => jpeg_files rest
  end.

(** ** What a tick leaves of the globals *)

(** The stream size and the room for overlay records are the same in
    both states, and the number of records in use stays within 5. *)
Definition same_frame (g g' : globals) : Prop :=
  stream_width g' = stream_width g /\ stream_height g' = stream_height g /\
  length (object_overlays g') = length (object_overlays g) /\
  (object_overlays_length g <= 5 -> object_overlays_length g' <= 5).

(** Detection [i] lies below the reported count: the detection loop
    runs its body for it. *)
Definition below_count (o : outputs) (i : Z) : bool :=
  SFltb (F32.of_Z i) (reported_count o).

(** What a finished body of the detection loop has taken from the
    tensors at index [i]: the box and its rectangle, the score and, for
    a detection that passes the threshold test, the label of its class,
    which the log line and the crop carry. *)
Definition detection_used (c : config) (o : outputs) (i : Z) (t : list event) : Prop :=
  exists top left bottom right score x y w h,
    box_at o i = Some (top, left, bottom, right) /\
    rect_at c o i = Some (x, y, w, h) /\
    read_f32 o Scores i = Some score /\
    (above_threshold c score = true ->
     exists label,
       label_at c o i = Some label /\
       In (EvSyslog (LogObject i label score top left bottom right)) t /\
       In (EvCrop i (widthFrameHD c) (heightFrameHD c) CHANNELS x y w h) t).

(** *** The globals that [main] sets *)

(** The numbers among the arguments that [parseArgs] hands to [main]. *)
Record args_t := {
  arg_width : Z;
  arg_height : Z;
  arg_raw_width : Z;
  arg_raw_height : Z;
  arg_threshold : Z;
  arg_quality : Z
}.

(** The globals that [detect_objects] reads, as [main] leaves them.
    The desired HD size and the threshold are constants of [main]: the
    values of the arguments are dropped ([desiredHDImgWidth = 1280],
    [desiredHDImgHeight = 720], [threshold = 0]).  [frameHD] is the size
    that [chooseStreamResolution] answers for the desired HD size,
    [pitch] the first pitch of the preprocessing input, and [table] the
    labels that [parseLabels] gave. *)
Definition main_config (args : args_t) (frameHD : Z * Z) (pitch : Z)
           (table : list string) (overlay : bool) : config :=
  {| widthFrameHD := fst frameHD; heightFrameHD := snd frameHD;
     desiredHDImgWidth := 1280; desiredHDImgHeight := 720;
     yuyvBufferSize := pitch;
     threshold := 0; quality := arg_quality args;
     labels := table; overlay_build := overlay |}.

(** The values of [stream_width] and [stream_height]: they are assigned
    in [render_overlay_cb] only, which an ENABLE_CV25_OVERLAY build does
    not hold. *)
Definition STREAM_WIDTH : Z := 1280.
Definition STREAM_HEIGHT : Z := 720.

(** Runs of the program as [main] starts it. *)
Module Prog.

(** A start with the given threshold argument and a quality of 80. *)
Definition args (thr : Z) : args_t :=
  {| arg_width := 300; arg_height := 300;
     arg_raw_width := 1920; arg_raw_height := 1080;
     arg_threshold := thr; arg_quality := 80 |}.

(** The globals after [main], for an HD frame of the given size and the
    four labels of the examples. *)
Definition cfg (thr : Z) (frameHD : Z * Z) (overlay : bool) : config :=
  main_config (args thr) frameHD 135000
              ["bed"; "chair"; "sofa"; "person"]%string overlay.

(** The globals before the first tick. *)
Definition start : globals := Ex.start STREAM_WIDTH STREAM_HEIGHT.

Definition f_minus_0_5 : Z := 0xBF000000.


(** One detection of class 7, which the four labels do not cover, with
    a score of -0.5. *)
Definition negative_unlabelled : outputs := Ex.one_unlabelled f_minus_0_5.

(** The answers of the bbox library when every call succeeds. *)
Definition bbox_good : Bbox.bbox_env :=
  {| Bbox.view_new := Some 7; Bbox.video_output_ok := true; Bbox.commit_ok := true |}.

End Prog.

(** * Properties *)

(** ** Floating-point comparisons and conversions *)

Lemma compare_cont_Eq_antisym (p q : positive) :
  Pos.compare_cont Eq q p = CompOpp (Pos.compare_cont Eq p q).
Proof. rewrite (Pos.compare_cont_antisym p q Eq). reflexivity. Qed.

Lemma SFcompare_antisym (a b : spec_float) (r : comparison) :
  SFcompare a b = Some r -> SFcompare b a = Some (CompOpp r).
Proof.
  destruct a as [sa|sa| |sa ma ea], b as [sb|sb| |sb mb eb];
    try (cbn; intros H; inversion H; subst; clear H;
         repeat match goal with s : bool |- _ => destruct s end;
         reflexivity).
  unfold SFcompare. intros H; inversion H; subst; clear H. f_equal.
  rewrite (Z.compare_antisym ea eb), (compare_cont_Eq_antisym ma mb).
  destruct sa, sb, (ea ?= eb), (Pos.compare_cont Eq ma mb); reflexivity.
Qed.

Lemma SFleb_not_ltb (a b : spec_float) :
  SFleb a b = true -> SFltb b a = false.
Proof.
  unfold SFleb, SFltb.
  destruct (SFcompare a b) as [r|] eqn:E; [|discriminate].
  rewrite (SFcompare_antisym _ _ _ E).
  destruct r; simpl; congruence.
Qed.


(** A decoded [float] has a mantissa of at most 24 bits, and of exactly
    24 bits unless it is subnormal. *)
Lemma of_bits_finite (w : Z) (s : bool) (m : positive) (e : Z) :
  F32.of_bits w = S754_finite s m e ->
  Zpos m < 2 ^ 24 /\ -149 <= e <= 104 /\ (e = -149 \/ 2 ^ 23 <= Zpos m).
Proof.
  unfold F32.of_bits.
  assert (Hmf : Z.land w 0x7FFFFF = w mod 2 ^ 23)
    by (apply (Z.land_ones w 23); lia).
  assert (Hef : Z.land (Z.shiftr w 23) 0xFF = Z.shiftr w 23 mod 2 ^ 8)
    by (apply (Z.land_ones (Z.shiftr w 23) 8); lia).
  rewrite Hmf, Hef. clear Hmf Hef.
  pose proof (Z.mod_pos_bound w (2 ^ 23) ltac:(lia)) as Hm.
  pose proof (Z.mod_pos_bound (Z.shiftr w 23) (2 ^ 8) ltac:(lia)) as He.
  destruct (Z.eqb_spec (Z.shiftr w 23 mod 2 ^ 8) 0) as [E0|E0].
  - destruct (w mod 2 ^ 23) eqn:Em; intros H; inversion H; subst. lia.
  - destruct (Z.eqb_spec (Z.shiftr w 23 mod 2 ^ 8) 255) as [E1|E1].
    + destruct (w mod 2 ^ 23 =? 0); discriminate.
    + intros H; inversion H; subst. rewrite Z2Pos.id by lia. lia.
Qed.

Lemma SFltb_trans (a b c : spec_float) :
  SFltb a b = true -> SFltb b c = true -> SFltb a c = true.
Proof.
  unfold SFltb.
  destruct a as [sa|sa| |sa ma ea], b as [sb|sb| |sb mb eb],
           c as [sc|sc| |sc mc ec]; cbn;
    repeat match goal with s : bool |- _ => destruct s end; cbn;
    try discriminate; try reflexivity;
    change (Pos.compare_cont Eq) with Pos.compare;
    destruct (Z.compare_spec ea eb), (Z.compare_spec eb ec),
             (Z.compare_spec ea ec); cbn;
    try discriminate; try reflexivity; try lia; subst;
    destruct (Pos.compare_spec ma mb), (Pos.compare_spec mb mc),
             (Pos.compare_spec ma mc); cbn;
    try discriminate; try reflexivity; lia.
Qed.

Lemma of_Z_step (n : nat) :
  (n < 20)%nat ->
  SFltb (F32.of_Z (Z.of_nat n)) (F32.of_Z (Z.of_nat (S n))) = true.
Proof.
  intros H.
  do 20 (destruct n as [|n]; [vm_compute; reflexivity|]). lia.
Qed.

(** On the indices of the tensors the conversion to [float] is increasing. *)
Lemma of_Z_increasing (a b : Z) :
  0 <= a < b -> b <= 20 -> SFltb (F32.of_Z a) (F32.of_Z b) = true.
Proof.
  intros Ha Hb.
  rewrite <- (Z2Nat.id a), <- (Z2Nat.id b) by lia.
  assert (Hlt : (Z.to_nat a < Z.to_nat b)%nat) by lia.
  assert (Hb' : (Z.to_nat b <= 20)%nat) by lia.
  generalize dependent (Z.to_nat b). generalize (Z.to_nat a). clear.
  intros n m Hlt. induction Hlt as [|m Hle IH]; intros Hm.
  - apply of_Z_step. lia.
  - apply SFltb_trans with (b := F32.of_Z (Z.of_nat m)).
    + apply IH. lia.
    + apply of_Z_step. lia.
Qed.

Lemma SFltb_of_Z_below (count : spec_float) (i j : Z) :
  0 <= i <= j -> j <= 20 ->
  SFltb (F32.of_Z j) count = true -> SFltb (F32.of_Z i) count = true.
Proof.
  intros Hi Hj H.
  destruct (Z.eq_dec i j) as [->|Hne]; [exact H|].
  apply SFltb_trans with (b := F32.of_Z j); [|exact H].
  apply of_Z_increasing; lia.
Qed.

(** Every index up to 20 is below a count that exceeds 20. *)
Lemma SFltb_of_Z_20 (count : spec_float) (i : Z) :
  0 <= i <= 20 ->
  SFltb (F32.of_Z 20) count = true -> SFltb (F32.of_Z i) count = true.
Proof.
  intros Hi. apply SFltb_of_Z_below; lia.
Qed.

(** The overlay length [count < 5 ? count : 5], converted to [size_t],
    is at most 5. *)
Lemma overlay_length_bound (w n : Z) :
  to_size_t (if SFltb (F32.of_bits w) (F32.of_Z OBJECT_OVERLAYS_MAX_LENGTH)
             then F32.of_bits w else F32.of_Z OBJECT_OVERLAYS_MAX_LENGTH) = Some n ->
  0 <= n <= 5.
Proof.
  unfold to_size_t, in_range.
  change (F32.of_Z OBJECT_OVERLAYS_MAX_LENGTH) with (S754_finite false 10485760 (-21)).
  destruct (SFltb (F32.of_bits w) (S754_finite false 10485760 (-21))) eqn:Hlt.
  2:{ intros H; vm_compute in H; inversion H; lia. }
  destruct (F32.of_bits w) as [s|s| |s m e] eqn:Hw; cbn [trunc].
  - intros H; vm_compute in H; inversion H; lia.
  - discriminate.
  - discriminate.
  - destruct (of_bits_finite _ _ _ _ Hw) as (Hm & He & _).
    destruct ((0 <=? cond_Zopp s (Z.shiftl (Z.pos m) e))
              && (cond_Zopp s (Z.shiftl (Z.pos m) e) <? 2 ^ 64)) eqn:Hr;
      [|discriminate].
    intros H; inversion H; subst n; clear H.
    apply andb_true_iff in Hr as [Hlo _]. apply Z.leb_le in Hlo.
    split; [exact Hlo|].
    destruct s; cbn [cond_Zopp] in *.
    + pose proof (Z.shiftl_nonneg (Z.pos m) e) as Hn. lia.
    + unfold SFltb, SFcompare in Hlt.
      change (Pos.compare_cont Eq) with Pos.compare in Hlt.
      assert (He' : e <= -21) by (destruct (Z.compare_spec e (-21)); try discriminate; lia).
      replace (Z.shiftl (Z.pos m) e) with (Z.pos m / 2 ^ (- e))
        by (rewrite <- Z.shiftr_div_pow2, <- Z.shiftl_opp_r, Z.opp_involutive by lia;
            reflexivity).
      destruct (Z.eq_dec e (-21)) as [->|Hne].
      * rewrite Z.compare_refl in Hlt.
        destruct (Pos.compare_spec m 10485760) as [|Hp|]; try discriminate.
        apply Pos2Z.pos_lt_pos in Hp.
        change (- -21) with 21. change (2 ^ 21) with 2097152.
        clear - Hp.
        assert (Z.pos m / 2097152 < 5)
          by (apply Z.div_lt_upper_bound; [reflexivity | exact Hp]).
        apply Z.lt_le_incl. assumption.
      * assert (2 ^ 22 <= 2 ^ (- e)) by (apply Z.pow_le_mono_r; lia).
        assert (Z.pos m / 2 ^ (- e) <= Z.pos m / 2 ^ 22)
          by (apply Z.div_le_compat_l; lia).
        assert (Z.pos m / 2 ^ 22 < 4) by (apply Z.div_lt_upper_bound; lia).
        lia.
Qed.

(** ** Running the monad *)

Ltac unfold_m :=
  cbv beta iota delta
    [bind ret creturn undefined out_of_fuel emit syslog get put defined
     load_f32 as_uint label_of_class larodRunJob rewind] in *.

(** Case analysis on the next test that decides how a run continues. *)
Ltac run_step :=
  unfold_m;
  match goal with
  | |- context [match ?x with Some _ => _ | None => _ end] => destruct x eqn:?
  | |- context [if ?b then _ else _] => destruct b eqn:?
  end.

Ltac run_m := repeat run_step; unfold_m.

Lemma read_f32_None (o : outputs) (t : tensor) (i : Z) :
  read_f32 o t i = None -> ~ (0 <= i /\ FLOATSIZE * i + FLOATSIZE <= tensor_size t).
Proof.
  unfold read_f32.
  destruct ((0 <=? i) && (FLOATSIZE * i + FLOATSIZE <=? tensor_size t)) eqn:E;
    [discriminate|].
  intros _ [H1 H2]. apply andb_false_iff in E as [E|E]; lia.
Qed.

Lemma read_f32_Some (o : outputs) (t : tensor) (i : Z) (f : spec_float) :
  read_f32 o t i = Some f -> 0 <= i /\ FLOATSIZE * i + FLOATSIZE <= tensor_size t.
Proof.
  unfold read_f32.
  destruct ((0 <=? i) && (FLOATSIZE * i + FLOATSIZE <=? tensor_size t)) eqn:E;
    [|discriminate].
  intros _. apply andb_true_iff in E as [E1 E2]. lia.
Qed.

Lemma read_count (o : outputs) :
  read_f32 o NumberOfDetections 0 = Some (reported_count o).
Proof. reflexivity. Qed.

(** ** The detection loop *)

Ltac bounds :=
  repeat match goal with
  | H : read_f32 _ _ _ = None |- _ => apply read_f32_None in H
  | H : read_f32 _ _ _ = Some _ |- _ => apply read_f32_Some in H
  end;
  cbv [tensor_size TENSOR1SIZE TENSOR2SIZE TENSOR3SIZE TENSOR4SIZE FLOATSIZE] in *;
  lia.

Lemma crop_and_encode_run (c : config) (i : Z) (g : globals) :
  match crop_and_encode c i g with
  | (t, g', r) =>
      g' = g /\ Forall (detection_event c (out_mem g) i) t /\
      (forall b, r <> Return b) /\ r <> OutOfFuel /\
      (0 <= i < 20 -> forall t' j, r <> Undefined (UbTensorRead t' j)) /\
      (20 <= i -> r = Undefined (UbTensorRead Locations (4 * i)))
  end.
Proof.
  unfold crop_and_encode. run_m.
  all: cbn [app].
  all: split; [reflexivity|].
  all: split;
    [ repeat constructor;
      cbv [detection_event kept_at rect_at box_at label_at];
      repeat match goal with H : _ = Some _ |- _ => rewrite H end;
      repeat split; try lia; try assumption; eauto
    | ].
  all: split; [discriminate|]. 
  all: split; [discriminate|]. 
  all: split.
  all: try (intros ? ? ?; discriminate).
  all: try (intros Hi; exfalso; bounds).
  all: try (intros Hi t' j E; bounds).
  all: try reflexivity.
Qed.

Lemma detection_event_mono c o lo lo' ev :
  lo' <= lo -> detection_event c o lo ev -> detection_event c o lo' ev.
Proof.
  intros Hle. destruct ev as [| | | |m| | | |]; cbn; try tauto.
  - destruct m; try tauto. intuition lia.
  - intuition lia.
  - intuition lia.
  - intuition lia.
Qed.

Lemma detection_loop_run (c : config) (fuel : nat) :
  forall (i : Z) (g : globals),
  match detection_loop c fuel i g with
  | (t, g', r) =>
      g' = g /\ Forall (detection_event c (out_mem g) i) t /\
      (forall b, r <> Return b) /\
      (0 <= i <= 20 -> 21 <= Z.of_nat fuel + i -> r <> OutOfFuel) /\
      (0 <= i <= 20 -> SFleb (reported_count (out_mem g)) (F32.of_Z 20) = true ->
       forall t' j, r <> Undefined (UbTensorRead t' j)) /\
      (0 <= i <= 20 -> 21 <= Z.of_nat fuel + i ->
       SFltb (F32.of_Z 20) (reported_count (out_mem g)) = true ->
       exists u, r = Undefined u) /\
      (0 <= i <= 20 ->
       forall t' j, r = Undefined (UbTensorRead t' j) ->
       t' = Locations /\ j = 80 /\
       SFltb (F32.of_Z 20) (reported_count (out_mem g)) = true)
  end.
Proof.
  induction fuel as [|fuel IH]; intros i g.
  - cbn [detection_loop]. unfold_m. rewrite read_count.
    destruct (SFltb (F32.of_Z i) (reported_count (out_mem g))) eqn:Hlt; cbn [app].
    + repeat split; try constructor; try discriminate; try lia.
    + repeat split; try constructor; try discriminate.
      intros Hi _ H20. rewrite (SFltb_of_Z_20 _ _ Hi H20) in Hlt. discriminate.
  - cbn [detection_loop]. unfold bind at 1. unfold load_f32 at 1. unfold_m.
    rewrite read_count.
    destruct (SFltb (F32.of_Z i) (reported_count (out_mem g))) eqn:Hlt; cbn [app].
    2:{ repeat split; try constructor; try discriminate.
        intros Hi _ H20. rewrite (SFltb_of_Z_20 _ _ Hi H20) in Hlt. discriminate. }
    pose proof (crop_and_encode_run c i g) as Hbody.
    destruct (crop_and_encode c i g) as [[t1 g1] r1].
    destruct Hbody as (-> & Hev & Hret & Hfuel & Hin & Hout).
    assert (Hlt20 : 0 <= i <= 20 ->
                    SFleb (reported_count (out_mem g)) (F32.of_Z 20) = true -> i < 20).
    { intros Hi Hle. destruct (Z.eq_dec i 20) as [->|]; [|lia].
      apply SFleb_not_ltb in Hle. congruence. }
    destruct r1 as [[]|b|u|].
    + assert (Hi20 : ~ 20 <= i) by (intros H; specialize (Hout H); discriminate).
      specialize (IH (i + 1) g).
      destruct (detection_loop c fuel (i + 1) g) as [[t2 g2] r2].
      destruct IH as (-> & Hev2 & Hret2 & Hfuel2 & Hin2 & Hout2 & Honly2).
      split; [reflexivity|]. split.
      { apply Forall_app. split; [exact Hev|].
        eapply Forall_impl; [exact Hev2|].
        intros ev. apply detection_event_mono. lia. }
      split; [exact Hret2|].
      split; [intros; apply Hfuel2; lia|].
      split; [intros Hi Hle; apply Hin2; [lia|exact Hle]|].
      split; [intros; apply Hout2; [lia|lia|assumption]|].
      intros Hi. apply Honly2. lia.
    + exfalso. exact (Hret b eq_refl).
    + split; [reflexivity|]. split; [exact Hev|]. split; [discriminate|].
      split; [discriminate|].
      split; [intros Hi Hle; apply Hin; specialize (Hlt20 Hi Hle); lia|].
      split; [intros; eexists; reflexivity|].
      intros Hi t' j Hu.
      destruct (Z.eq_dec i 20) as [->|Hne].
      * rewrite (Hout ltac:(lia)) in Hu. inversion Hu; subst. auto.
      * exfalso. exact (Hin ltac:(lia) t' j Hu).
    + exfalso. exact (Hfuel eq_refl).
Qed.

(** ** The overlay block *)

Lemma update_overlay_run (c : config) (i : Z) (g : globals) :
  match update_overlay c i g with
  | (t, g', r) =>
      Forall (fun ev => is_overlay_log ev = true) t /\
      (forall b, r <> Return b) /\ r <> OutOfFuel /\
      (0 <= i < 20 -> forall t' j, r <> Undefined (UbTensorRead t' j)) /\
      match r with
      | Next _ =>
          0 <= i /\
          exists old rec,
            object_overlays g !! Z.to_nat i = Some old /\
            overlay_at c (out_mem g) i old = Some rec /\
            g' = set_overlays g (<[Z.to_nat i := rec]> (object_overlays g))
      | _ => g' = g
      end
  end.
Proof.
  unfold update_overlay, get_coordinates. run_m.
  all: cbn [app].
  all: split; [repeat constructor|].
  all: split; [discriminate|].
  all: split; [discriminate|].
  all: split;
    [ try (intros ? ? ?; discriminate); try (intros Hi t' j E; bounds) | ].
  all: try reflexivity.
  destruct (Z.leb_spec 0 i); [|discriminate].
  split; [assumption|].
  eexists _, _. split; [eassumption|]. split; [|reflexivity].
  cbv [overlay_at rect_at box_at label_at].
  repeat match goal with H : _ = Some _ |- _ => rewrite H end.
  rewrite Heqb. reflexivity.
Qed.

Lemma overlay_loop_run (c : config) (n : nat) :
  forall (i : Z) (g : globals), 0 <= i ->
  match overlay_loop c n i g with
  | (t, g', r) =>
      same_but_overlays g g' /\
      Forall (fun ev => is_overlay_log ev = true) t /\
      (forall b, r <> Return b) /\ r <> OutOfFuel /\
      (i + Z.of_nat n <= 20 -> forall t' j, r <> Undefined (UbTensorRead t' j)) /\
      (forall k, (k < Z.to_nat i)%nat ->
                 object_overlays g' !! k = object_overlays g !! k) /\
      (r = Next tt ->
       forall k, i <= k < i + Z.of_nat n ->
       exists old rec,
         object_overlays g !! Z.to_nat k = Some old /\
         overlay_at c (out_mem g) k old = Some rec /\
         object_overlays g' !! Z.to_nat k = Some rec)
  end.
Proof.
  induction n as [|n IH]; intros i g Hi.
  - cbn [overlay_loop]. unfold_m.
    repeat split; try constructor; try discriminate. intros; lia.
  - cbn [overlay_loop]. unfold bind at 1.
    pose proof (update_overlay_run c i g) as Hbody.
    destruct (update_overlay c i g) as [[t1 g1] r1].
    destruct Hbody as (Hev & Hret & Hfuel & Hin & Hg).
    destruct r1 as [[]|b|u|].
    + destruct Hg as (_ & old & rec & Hold & Hrec & ->).
      specialize (IH (i + 1) (set_overlays g (<[Z.to_nat i:=rec]> (object_overlays g)))
                     ltac:(lia)).
      destruct (overlay_loop c n (i + 1) _) as [[t2 g2] r2].
      destruct IH as (Hsame & Hev2 & Hret2 & Hfuel2 & Hin2 & Hkeep & Hrecs).
      cbn [set_overlays object_overlays out_mem] in Hkeep, Hrecs.
      assert (Hlen : (Z.to_nat i < length (object_overlays g))%nat)
        by (eapply lookup_lt_Some; exact Hold).
      split.
      { destruct Hsame as (H1 & H2 & H3 & H4 & H5 & H6).
        cbn [set_overlays object_overlays out_mem out_pos stream_width
             stream_height object_overlays_length] in *.
        rewrite length_insert in H6. repeat split; assumption. }
      split; [apply Forall_app; split; assumption|].
      split; [exact Hret2|]. split; [exact Hfuel2|].
      split; [intros; apply Hin2; lia|].
      split.
      { intros k Hk. rewrite Hkeep by lia.
        apply list_lookup_insert_ne. lia. }
      intros Hr k Hk.
      destruct (Z.eq_dec k i) as [->|Hne].
      * exists old, rec. split; [exact Hold|]. split; [exact Hrec|].
        rewrite Hkeep by lia. apply list_lookup_insert_eq. exact Hlen.
      * destruct (Hrecs Hr k ltac:(lia)) as (old' & rec' & Ho & Hr' & Hg2).
        exists old', rec'. split; [|split; assumption].
        rewrite list_lookup_insert_ne in Ho by lia. exact Ho.
    + exfalso. exact (Hret b eq_refl).
    + subst g1.
      repeat split; try assumption; try discriminate.
      intros; apply Hin; lia.
    + exfalso. exact (Hfuel eq_refl).
Qed.

Lemma update_overlays_run (c : config) (g : globals) :
  match update_overlays c g with
  | (t, g', r) =>
      out_mem g' = out_mem g /\ out_pos g' = out_pos g /\
      stream_width g' = stream_width g /\ stream_height g' = stream_height g /\
      length (object_overlays g') = length (object_overlays g) /\
      (object_overlays_length g <= 5 -> object_overlays_length g' <= 5) /\
      Forall (fun ev => is_overlay_log ev = true) t /\
      (forall b, r <> Return b) /\ r <> OutOfFuel /\
      (forall t' j, r <> Undefined (UbTensorRead t' j)) /\
      (r = Next tt ->
       let count := reported_count (out_mem g) in
       to_size_t (if SFltb count (F32.of_Z OBJECT_OVERLAYS_MAX_LENGTH)
                  then count else F32.of_Z OBJECT_OVERLAYS_MAX_LENGTH)
         = Some (object_overlays_length g') /\
       forall k, 0 <= k < object_overlays_length g' ->
       exists old rec,
         object_overlays g !! Z.to_nat k = Some old /\
         overlay_at c (out_mem g) k old = Some rec /\
         object_overlays g' !! Z.to_nat k = Some rec)
  end.
Proof.
  unfold update_overlays. unfold bind at 1. unfold syslog, emit.
  unfold bind at 1. unfold load_f32 at 1. unfold_m. rewrite read_count.
  set (count := reported_count (out_mem g)).
  set (len := if SFltb count (F32.of_Z OBJECT_OVERLAYS_MAX_LENGTH)
              then count else F32.of_Z OBJECT_OVERLAYS_MAX_LENGTH).
  destruct (to_size_t len) as [n|] eqn:Hn.
  2:{ cbn [app]. repeat split; try constructor; try discriminate; try constructor. 
      tauto. }
  pose proof (overlay_length_bound _ _ Hn) as Hb.
  pose proof (overlay_loop_run c (Z.to_nat n) 0 (set_overlays_length g n) ltac:(lia))
    as Hloop.
  destruct (overlay_loop c (Z.to_nat n) 0 (set_overlays_length g n)) as [[t2 g2] r2].
  destruct Hloop as (Hsame & Hev & Hret & Hfuel & Hin & _ & Hrecs).
  destruct Hsame as (H1 & H2 & H3 & H4 & H5 & H6).
  cbn [set_overlays_length object_overlays out_mem out_pos stream_width
       stream_height object_overlays_length app] in *.
  repeat split; try assumption; try lia.
  - repeat constructor. assumption.
  - apply Hin. lia.
  - rewrite H5. reflexivity.
  - intros k Hk. apply Hrecs; [assumption|]. lia.
Qed.

Lemma overlay_block_run (c : config) (g : globals) :
  match overlay_block c g with
  | (t, g', r) =>
      out_mem g' = out_mem g /\ out_pos g' = out_pos g /\
      stream_width g' = stream_width g /\ stream_height g' = stream_height g /\
      length (object_overlays g') = length (object_overlays g) /\
      (object_overlays_length g <= 5 -> object_overlays_length g' <= 5) /\
      Forall (fun ev => is_overlay_log ev = true) t /\
      (forall b, r <> Return b) /\ r <> OutOfFuel /\
      (forall t' j, r <> Undefined (UbTensorRead t' j)) /\
      (overlay_build c = false -> g' = g) /\
      (overlay_build c = true -> r = Next tt ->
       let count := reported_count (out_mem g) in
       to_size_t (if SFltb count (F32.of_Z OBJECT_OVERLAYS_MAX_LENGTH)
                  then count else F32.of_Z OBJECT_OVERLAYS_MAX_LENGTH)
         = Some (object_overlays_length g') /\
       forall k, 0 <= k < object_overlays_length g' ->
       exists old rec,
         object_overlays g !! Z.to_nat k = Some old /\
         overlay_at c (out_mem g) k old = Some rec /\
         object_overlays g' !! Z.to_nat k = Some rec)
  end.
Proof.
  unfold overlay_block. destruct (overlay_build c) eqn:Hb.
  - pose proof (update_overlays_run c g) as H.
    destruct (update_overlays c g) as [[t g'] r].
    destruct H as (H1 & H2 & H3 & H4 & H5 & H6 & H7 & H8 & H9 & H10 & H11).
    repeat split; try assumption; try discriminate; intros; apply H11; assumption.
  - unfold_m. repeat split; try constructor; try discriminate; tauto.
Qed.

Lemma post_process_shape (c : config) (buf buf_hq : Z) (g : globals) :
  match post_process c buf buf_hq g with
  | (t, g', r) => post_run c buf buf_hq g t g' r
  end.
Proof.
  unfold post_process. unfold bind at 1. unfold load_f32 at 1. unfold_m.
  rewrite read_count.
  destruct (to_int (reported_count (out_mem g))) as [n|] eqn:Hn; cbn [app].
  2:{ apply PostBadCount. exact Hn. }
  destruct (Z.eqb_spec n 0) as [->|Hne]; cbn [app].
  { apply PostNoObject. exact Hn. }
  pose proof (detection_loop_run c DETECTION_FUEL 0 g) as Hloop.
  destruct (detection_loop c DETECTION_FUEL 0 g) as [[t1 g1] r1] eqn:Eloop.
  destruct Hloop as (-> & _ & Hret & Hfuel & _).
  destruct r1 as [[]|b|u|].
  - pose proof (overlay_block_run c g) as Hov.
    destruct (overlay_block c g) as [[t2 g2] r2] eqn:Eov.
    destruct Hov as (_ & _ & _ & _ & _ & _ & _ & Hret2 & Hfuel2 & _).
    destruct r2 as [[]|b|u|]; cbn [app].
    + eapply PostDone; eassumption.
    + exfalso. exact (Hret2 b eq_refl).
    + eapply PostOverlayStuck; eassumption.
    + exfalso. exact (Hfuel2 eq_refl).
  - exfalso. exact (Hret b eq_refl).
  - eapply PostLoopStuck; eassumption.
  - exfalso. apply Hfuel; [lia | cbv; discriminate | reflexivity].
Qed.

(** ** The tick up to the inference job *)

Lemma tick_ok (c : config) (e : tick_env) (g : globals) (buf buf_hq : Z) :
  all_ok e buf buf_hq ->
  tick c e g =
  match post_process c buf buf_hq (after_inference e g) with
  | (t, g', r) => (ok_prefix c g buf buf_hq ++ t, g', r)
  end.
Proof.
  intros (Hsd & Hhd & Hpp & Hpphd & Hseek & Hinf).
  unfold tick, detect_objects. rewrite Hsd, Hhd.
  unfold_m. rewrite Hpp, Hpphd, !Hseek, Hinf.
  cbn [negb app set_pos set_out_pos set_out_mem out_pos out_mem pos1 pos2 pos3 pos4
       object_overlays_length object_overlays stream_width stream_height].
  match goal with
  | |- context [post_process c buf buf_hq ?G] =>
      change G with (after_inference e g)
  end.
  destruct (post_process c buf buf_hq (after_inference e g)) as [[t g'] r].
  reflexivity.
Qed.

(** Computes the tick in [E : run = tick c e g] with the answers of the
    collaborators that the context records. *)
Ltac early_exit E :=
  unfold tick, detect_objects in E;
  repeat (unfold_m;
          match goal with
          | H : _ = _ |- _ =>
              tryif constr_eq H E then fail else rewrite H in E
          end);
  cbn in E.

Ltac failed_run E :=
  right; early_exit E; subst; cbn; repeat split; repeat constructor.

Lemma tick_failed (c : config) (e : tick_env) (g : globals) :
  (exists buf buf_hq, all_ok e buf buf_hq) \/
  (result_of (tick c e g) = Return false /\
   Forall (fun ev => is_early_event ev = true) (trace_of (tick c e g)) /\
   object_overlays (globals_of (tick c e g)) = object_overlays g /\
   object_overlays_length (globals_of (tick c e g)) = object_overlays_length g).
Proof.
  remember (tick c e g) as run eqn:E.
  destruct (sd_frame e) as [buf|] eqn:Hsd; [|failed_run E].
  destruct (hd_frame e) as [buf_hq|] eqn:Hhd; [|failed_run E].
  destruct (pp_ok e) eqn:Hpp; [|failed_run E].
  destruct (pp_hd_ok e) eqn:Hpphd; [|failed_run E].
  destruct (lseek_ok e Locations) eqn:H1; [|failed_run E].
  destruct (lseek_ok e Classes) eqn:H2; [|failed_run E].
  destruct (lseek_ok e Scores) eqn:H3; [|failed_run E].
  destruct (lseek_ok e NumberOfDetections) eqn:H4; [|failed_run E].
  destruct (inf_ok e) eqn:Hinf; [|failed_run E].
  left. exists buf, buf_hq. repeat split; try assumption.
  intros []; assumption.
Qed.

(** ** The tick after the inference job *)

Lemma detection_event_output (c : config) (o : outputs) (lo : Z) (ev : event) :
  detection_event c o lo ev -> is_detection_output ev = true.
Proof.
  destruct ev as [| | | |m| | | |]; cbn; try tauto. destruct m; tauto.
Qed.

Lemma overlay_log_post (ev : event) :
  is_overlay_log ev = true ->
  is_post_event ev = true /\ is_detection_output ev = false.
Proof.
  destruct ev as [| | | |m| | | |]; cbn; try discriminate.
  destruct m; cbn; try discriminate; auto.
Qed.

Lemma detection_output_post (ev : event) :
  is_detection_output ev = true -> is_post_event ev = true.
Proof.
  destruct ev as [| | | |m| | | |]; cbn; try discriminate; auto.
  destruct m; cbn; try discriminate; auto.
Qed.

Lemma post_event_not_early (ev : event) :
  is_post_event ev = true -> is_early_event ev = false.
Proof.
  destruct ev as [| | | |m| | | |]; cbn; try discriminate; auto.
  destruct m; cbn; try discriminate; auto.
Qed.

Lemma detection_events_ok (c : config) (o : outputs) (t : list event) :
  Forall (detection_event c o 0) t -> Forall (post_event_ok c o) t.
Proof.
  intros Hall. eapply Forall_impl; [exact Hall|].
  intros ev H. split; [|intros _; exact H].
  apply detection_output_post. eapply detection_event_output; exact H.
Qed.

Lemma overlay_events_ok (c : config) (o : outputs) (t : list event) :
  Forall (fun ev => is_overlay_log ev = true) t -> Forall (post_event_ok c o) t.
Proof.
  intros Hall. eapply Forall_impl; [exact Hall|].
  intros ev H.
  destruct (overlay_log_post ev H) as [H1 H2].
  split; [exact H1|]. rewrite H2. discriminate.
Qed.

Lemma post_run_events (c : config) (buf buf_hq : Z) (g g' : globals)
      (t : list event) (r : res unit) :
  post_run c buf buf_hq g t g' r -> Forall (post_event_ok c (out_mem g)) t.
Proof.
  intros H. destruct H as [Hc|Hc|n t1 u Hc Hn E1|n t1 t2 g2 u Hc Hn E1 E2
                           |n t1 t2 g2 Hc Hn E1 E2].
  - constructor.
  - repeat constructor. discriminate.
  - pose proof (detection_loop_run c DETECTION_FUEL 0 g) as Hl. rewrite E1 in Hl.
    apply detection_events_ok. apply Hl.
  - pose proof (detection_loop_run c DETECTION_FUEL 0 g) as Hl. rewrite E1 in Hl.
    pose proof (overlay_block_run c g) as Ho. rewrite E2 in Ho.
    apply Forall_app. split.
    + apply detection_events_ok. apply Hl.
    + apply overlay_events_ok. apply Ho.
  - pose proof (detection_loop_run c DETECTION_FUEL 0 g) as Hl. rewrite E1 in Hl.
    pose proof (overlay_block_run c g) as Ho. rewrite E2 in Ho.
    apply Forall_app. split; [|apply Forall_app; split].
    + apply detection_events_ok. apply Hl.
    + apply overlay_events_ok. apply Ho.
    + repeat constructor; discriminate.
Qed.

(** The overlay length stays within the overlay array, and the tensors
    are left as the inference job filled them. *)
Lemma post_run_globals (c : config) (buf buf_hq : Z) (g g' : globals)
      (t : list event) (r : res unit) :
  post_run c buf buf_hq g t g' r ->
  out_mem g' = out_mem g /\
  (object_overlays_length g <= 5 -> object_overlays_length g' <= 5).
Proof.
  intros H. destruct H as [Hc|Hc|n t1 u Hc Hn E1|n t1 t2 g2 u Hc Hn E1 E2
                           |n t1 t2 g2 Hc Hn E1 E2];
    try (split; [reflexivity|tauto]);
    pose proof (overlay_block_run c g) as Ho; rewrite E2 in Ho;
    split; apply Ho.
Qed.

(** Every event of a tick that belongs to a detection comes from the
    detection loop run over the tensors that the inference job left. *)
Lemma tick_detection_outputs (c : config) (e : tick_env) (g : globals) (ev : event) :
  In ev (trace_of (tick c e g)) ->
  is_detection_output ev = true ->
  detection_event c (inf_mem e) 0 ev.
Proof.
  intros Hin Hout.
  destruct (tick_failed c e g) as [(buf & buf_hq & Hok)|(_ & Hearly & _)].
  - rewrite (tick_ok c e g buf buf_hq Hok) in Hin.
    pose proof (post_process_shape c buf buf_hq (after_inference e g)) as Hs.
    destruct (post_process c buf buf_hq (after_inference e g)) as [[t g'] r].
    apply post_run_events in Hs.
    cbn [trace_of fst] in Hin. apply in_app_or in Hin as [Hin|Hin].
    + exfalso. cbn in Hin.
      repeat (destruct Hin as [<-|Hin]; [discriminate|]). exact Hin.
    + rewrite List.Forall_forall in Hs. apply (Hs ev Hin). exact Hout.
  - rewrite List.Forall_forall in Hearly. specialize (Hearly ev Hin).
    apply detection_output_post, post_event_not_early in Hout. congruence.
Qed.

(** ** Kept detections are cropped *)

Lemma crop_and_encode_kept (c : config) (i : Z) (g : globals) :
  match crop_and_encode c i g with
  | (t, g', r) =>
      r = Next tt -> kept_at c (out_mem g) i = true ->
      exists x y w h,
        rect_at c (out_mem g) i = Some (x, y, w, h) /\
        In (EvCrop i (widthFrameHD c) (heightFrameHD c) CHANNELS x y w h) t
  end.
Proof.
  unfold crop_and_encode. run_m.
  all: cbn [app]; intros Hr Hk; try discriminate.
  all: cbv [kept_at rect_at box_at] in *.
  all: repeat match goal with H : _ = Some _ |- _ => rewrite H in * end.
  all: try congruence.
  eexists _, _, _, _. split; [reflexivity|]. cbn. tauto.
Qed.

Lemma detection_loop_complete (c : config) (fuel : nat) :
  forall (i : Z) (g : globals),
  match detection_loop c fuel i g with
  | (t, g', r) =>
      r = Next tt ->
      forall j, 0 <= i <= j -> j <= 20 ->
      SFltb (F32.of_Z j) (reported_count (out_mem g)) = true ->
      kept_at c (out_mem g) j = true ->
      exists x y w h,
        rect_at c (out_mem g) j = Some (x, y, w, h) /\
        In (EvCrop j (widthFrameHD c) (heightFrameHD c) CHANNELS x y w h) t
  end.
Proof.
  induction fuel as [|fuel IH]; intros i g.
  - cbn [detection_loop]. unfold_m. rewrite read_count.
    destruct (SFltb (F32.of_Z i) (reported_count (out_mem g))) eqn:Hlt; cbn [app].
    + discriminate.
    + intros _ j Hi Hj Hc _.
      rewrite (SFltb_of_Z_below _ i j Hi Hj Hc) in Hlt. discriminate.
  - cbn [detection_loop]. unfold bind at 1. unfold load_f32 at 1. unfold_m.
    rewrite read_count.
    destruct (SFltb (F32.of_Z i) (reported_count (out_mem g))) eqn:Hlt; cbn [app].
    2:{ intros _ j Hi Hj Hc _.
        rewrite (SFltb_of_Z_below _ i j Hi Hj Hc) in Hlt. discriminate. }
    pose proof (crop_and_encode_run c i g) as Hbody.
    pose proof (crop_and_encode_kept c i g) as Hkept.
    destruct (crop_and_encode c i g) as [[t1 g1] r1].
    destruct Hbody as (-> & _).
    destruct r1 as [[]|b|u|]; try discriminate.
    specialize (IH (i + 1) g).
    destruct (detection_loop c fuel (i + 1) g) as [[t2 g2] r2].
    intros Hr j Hi Hj Hc Hk.
    destruct (Z.eq_dec j i) as [->|Hne].
    + destruct (Hkept eq_refl Hk) as (x & y & w & h & H1 & H2).
      exists x, y, w, h. split; [exact H1|]. apply in_or_app. left. exact H2.
    + destruct (IH Hr j ltac:(lia) Hj Hc Hk) as (x & y & w & h & H1 & H2).
      exists x, y, w, h. split; [exact H1|]. apply in_or_app. right. exact H2.
Qed.

(** In a tick that runs to its end, every kept detection below the count
    is cropped with its rectangle. *)
Lemma kept_detection_is_cropped (c : config) (e : tick_env) (g : globals) (j : Z) :
  result_of (tick c e g) = Return true ->
  to_int (reported_count (inf_mem e)) <> Some 0 ->
  0 <= j <= 20 ->
  SFltb (F32.of_Z j) (reported_count (inf_mem e)) = true ->
  kept_at c (inf_mem e) j = true ->
  exists x y w h,
    rect_at c (inf_mem e) j = Some (x, y, w, h) /\
    In (EvCrop j (widthFrameHD c) (heightFrameHD c) CHANNELS x y w h)
       (trace_of (tick c e g)).
Proof.
  intros Hres Hc Hj Hlt Hk.
  destruct (tick_failed c e g) as [(buf & buf_hq & Hok)|(H & _)]; [|congruence].
  rewrite (tick_ok c e g buf buf_hq Hok) in Hres |- *.
  pose proof (post_process_shape c buf buf_hq (after_inference e g)) as Hs.
  destruct (post_process c buf buf_hq (after_inference e g)) as [[t g'] r].
  cbn [result_of trace_of fst snd] in *. subst r.
  inversion Hs as [| Hz | | |n t1 t2 g2 Hn Hne E1 E2]; subst.
  - exfalso. apply Hc. exact Hz.
  - pose proof (detection_loop_complete c DETECTION_FUEL 0 (after_inference e g)) as Hl.
    rewrite E1 in Hl.
    destruct (Hl eq_refl j ltac:(lia) ltac:(lia) Hlt Hk) as (x & y & w & h & H1 & H2).
    exists x, y, w, h. split; [exact H1|].
    apply in_or_app. right. apply in_or_app. left. exact H2.
Qed.

(** ** The crop rectangle *)

Lemma crop_event_rect (c : config) (e : tick_env) (g : globals)
      (i iw ih ch x y w h : Z) :
  In (EvCrop i iw ih ch x y w h) (trace_of (tick c e g)) ->
  0 <= i /\ kept_at c (inf_mem e) i = true /\
  iw = widthFrameHD c /\ ih = heightFrameHD c /\ ch = CHANNELS /\
  rect_at c (inf_mem e) i = Some (x, y, w, h).
Proof.
  intros Hin. exact (tick_detection_outputs c e g _ Hin eq_refl).
Qed.

Lemma to_uint_range (f : spec_float) (z : Z) :
  to_uint f = Some z -> 0 <= z < 2 ^ 32.
Proof.
  unfold to_uint, in_range. destruct (trunc f) as [v|]; [|discriminate].
  destruct ((0 <=? v) && (v <? 2 ^ 32)) eqn:E; [|discriminate].
  intros H; inversion H; subst. apply andb_true_iff in E as [E1 E2]. lia.
Qed.

Lemma rect_at_inv (c : config) (o : outputs) (i x y w h : Z) :
  rect_at c o i = Some (x, y, w, h) ->
  exists top left bottom right,
    box_at o i = Some (top, left, bottom, right) /\
    to_uint (crop_x_float c left) = Some x /\
    to_uint (crop_y_float c top) = Some y /\
    to_uint (crop_w_float c left right) = Some w /\
    to_uint (crop_h_float c top bottom) = Some h.
Proof.
  unfold rect_at. destruct (box_at o i) as [[[[t l] b] r]|]; [|discriminate].
  destruct (to_uint (crop_x_float c l)) as [x'|] eqn:Hx; [|discriminate].
  destruct (to_uint (crop_y_float c t)) as [y'|] eqn:Hy; [|discriminate].
  destruct (to_uint (crop_w_float c l r)) as [w'|] eqn:Hw; [|discriminate].
  destruct (to_uint (crop_h_float c t b)) as [h'|] eqn:Hh; [|discriminate].
  intros H; inversion H; subst. exists t, l, b, r. repeat split; assumption.
Qed.

(** C1. Every crop that a tick makes is the crop of a kept detection
    [i], and its rectangle is computed from the box
    [(top, left, bottom, right)] of that detection and the HD frame size
    (with [hdWidth >= hdHeight]) as
    [cropX = left*hdHeight + (hdWidth-hdHeight)/2], [cropY = top*hdHeight],
    [cropWidth = (right-left)*hdHeight], [cropHeight = (bottom-top)*hdHeight],
    in [float] arithmetic converted to [unsigned int]; and in a tick that
    runs to its end every kept detection below the count has its crop.
    For the box (0.25, 0.25, 0.75, 0.75) and an HD frame of 1280x720 the
    rectangle is (460, 180, 360, 360). *)
Theorem crop_rectangle_formula :
  (forall (c : config) (e : tick_env) (g : globals) (i iw ih ch x y w h : Z),
     0 <= heightFrameHD c <= widthFrameHD c ->
     widthFrameHD c < 2 ^ 32 ->
     In (EvCrop i iw ih ch x y w h) (trace_of (tick c e g)) ->
     kept_at c (inf_mem e) i = true /\
     exists top left bottom right,
       box_at (inf_mem e) i = Some (top, left, bottom, right) /\
       to_uint (F32.add (F32.mul left (F32.of_Z (heightFrameHD c)))
                        (F32.of_Z ((widthFrameHD c - heightFrameHD c) / 2)))
         = Some x /\
       to_uint (F32.mul top (F32.of_Z (heightFrameHD c))) = Some y /\
       to_uint (F32.mul (F32.sub right left) (F32.of_Z (heightFrameHD c)))
         = Some w /\
       to_uint (F32.mul (F32.sub bottom top) (F32.of_Z (heightFrameHD c)))
         = Some h) /\
  (forall (c : config) (e : tick_env) (g : globals) (i : Z),
     result_of (tick c e g) = Return true ->
     to_int (reported_count (inf_mem e)) <> Some 0 ->
     0 <= i <= 20 ->
     SFltb (F32.of_Z i) (reported_count (inf_mem e)) = true ->
     kept_at c (inf_mem e) i = true ->
     exists x y w h,
       In (EvCrop i (widthFrameHD c) (heightFrameHD c) CHANNELS x y w h)
          (trace_of (tick c e g))) /\
  box_at Ex.one_centered 0
    = Some (F32.of_bits Ex.f0_25, F32.of_bits Ex.f0_25,
            F32.of_bits Ex.f0_75, F32.of_bits Ex.f0_75) /\
  In (EvCrop 0 1280 720 3 460 180 360 360)
     (trace_of (tick (Ex.cfg 50 true) (Ex.good Ex.one_centered) (Ex.start 1280 720))).
Proof.
  split; [|split; [|split; [reflexivity | vm_compute; tauto]]].
  - intros c e g i iw ih ch x y w h Hhw Hw Hin.
    apply crop_event_rect in Hin as (_ & Hkept & _ & _ & _ & Hrect).
    split; [exact Hkept|].
    apply rect_at_inv in Hrect
      as (top & left & bottom & right & Hbox & Hx & Hy & Hw' & Hh).
    exists top, left, bottom, right. repeat split; try assumption.
    unfold crop_x_float, wrap_uint in Hx.
    rewrite Z.mod_small in Hx by lia. exact Hx.
  - intros c e g i Hres Hc Hi Hlt Hk.
    destruct (kept_detection_is_cropped c e g i Hres Hc Hi Hlt Hk)
      as (x & y & w & h & _ & Hin).
    exists x, y, w, h. exact Hin.
Qed.

(** The crop of the centred box in a tick over HD frames of 1280x720. *)
Lemma crop_rectangle_formula_witness :
  (kept_at (Ex.cfg 50 true) Ex.one_centered 0 = true /\
   exists top left bottom right,
     box_at Ex.one_centered 0 = Some (top, left, bottom, right) /\
     to_uint (F32.add (F32.mul left (F32.of_Z 720)) (F32.of_Z ((1280 - 720) / 2)))
       = Some 460 /\
     to_uint (F32.mul top (F32.of_Z 720)) = Some 180 /\
     to_uint (F32.mul (F32.sub right left) (F32.of_Z 720)) = Some 360 /\
     to_uint (F32.mul (F32.sub bottom top) (F32.of_Z 720)) = Some 360) /\
  exists x y w h,
    In (EvCrop 0 1280 720 3 x y w h)
       (trace_of (tick (Ex.cfg 50 true) (Ex.good Ex.one_centered) (Ex.start 1280 720))).
Proof.
  destruct crop_rectangle_formula as (Hrect & Hkept & _). split.
  - apply (Hrect (Ex.cfg 50 true) (Ex.good Ex.one_centered) (Ex.start 1280 720)
                 0 1280 720 3 460 180 360 360).
    + simpl. lia.
    + simpl. lia.
    + vm_compute. tauto.
  - apply (Hkept (Ex.cfg 50 true) (Ex.good Ex.one_centered) (Ex.start 1280 720) 0).
    + vm_compute. reflexivity.
    + vm_compute. discriminate.
    + lia.
    + vm_compute. reflexivity.
    + vm_compute. reflexivity.
Defined.

(** C7 (as amended). The rectangle handed to [crop_interleaved] is the
    rectangle computed from the box, unchanged, together with the size
    of the HD frame: nothing clamps it.  In a tick that runs to its end
    every detection below the count that passes the threshold test is
    cropped with the rectangle computed from its box, whether or not
    the rectangle lies inside the frame. *)
Theorem crop_rectangle_unclamped (c : config) (e : tick_env) (g : globals) :
  (forall i iw ih ch x y w h,
     In (EvCrop i iw ih ch x y w h) (trace_of (tick c e g)) ->
     iw = widthFrameHD c /\ ih = heightFrameHD c /\
     rect_at c (inf_mem e) i = Some (x, y, w, h)) /\
  (result_of (tick c e g) = Return true ->
   to_int (reported_count (inf_mem e)) <> Some 0 ->
   forall i x y w h,
     0 <= i < 20 -> below_count (inf_mem e) i = true ->
     kept_at c (inf_mem e) i = true ->
     rect_at c (inf_mem e) i = Some (x, y, w, h) ->
     In (EvCrop i (widthFrameHD c) (heightFrameHD c) CHANNELS x y w h)
        (trace_of (tick c e g))).
Proof.
  split.
  - intros i iw ih ch x y w h Hin.
    apply crop_event_rect in Hin as (_ & _ & -> & -> & _ & Hrect).
    repeat split. exact Hrect.
  - intros Hres Hcount i x y w h Hi Hbelow Hkept Hrect.
    destruct (kept_detection_is_cropped c e g i Hres Hcount ltac:(lia) Hbelow Hkept)
      as (x' & y' & w' & h' & Hrect' & Hin).
    rewrite Hrect in Hrect'. inversion Hrect'; subst. exact Hin.
Qed.

(** The box that reaches below the frame of 1280x720 is cropped with the
    rectangle computed from it. *)
Lemma crop_rectangle_unclamped_witness :
  result_of (tick (Prog.cfg 50 (1280, 720) true) (Ex.good Ex.one_overhanging) Prog.start)
    = Return true /\
  rect_at (Prog.cfg 50 (1280, 720) true) Ex.one_overhanging 0
    = Some (460, 360, 360, 450) /\
  In (EvCrop 0 1280 720 CHANNELS 460 360 360 450)
     (trace_of (tick (Prog.cfg 50 (1280, 720) true) (Ex.good Ex.one_overhanging)
                     Prog.start)).
Proof.
  assert (Hres : result_of (tick (Prog.cfg 50 (1280, 720) true)
                                 (Ex.good Ex.one_overhanging) Prog.start)
                 = Return true) by (vm_compute; reflexivity).
  assert (Hrect : rect_at (Prog.cfg 50 (1280, 720) true) Ex.one_overhanging 0
                  = Some (460, 360, 360, 450)) by (vm_compute; reflexivity).
  split; [exact Hres|]. split; [exact Hrect|].
  destruct (crop_rectangle_unclamped
              (Prog.cfg 50 (1280, 720) true) (Ex.good Ex.one_overhanging) Prog.start)
    as [_ Hall].
  apply (Hall Hres); [vm_compute; discriminate | lia | | | exact Hrect];
    vm_compute; reflexivity.
Defined.

(** C7 fails as stated: a box that reaches below the frame is cropped
    with a rectangle that leaves the HD frame of 1280x720, where clamping
    would have shortened it. *)
Lemma crop_rectangle_overhang :
  box_at Ex.one_overhanging 0
    = Some (F32.of_bits Ex.f0_5, F32.of_bits Ex.f0_25,
            F32.of_bits Ex.f1_125, F32.of_bits Ex.f0_75) /\
  In (EvCrop 0 1280 720 3 460 360 360 450)
     (trace_of (tick (Prog.cfg 50 (1280, 720) true) (Ex.good Ex.one_overhanging)
                     Prog.start)) /\
  ~ inside_frame 1280 720 (460, 360, 360, 450) /\
  spec_clamp 1280 720 (460, 360, 360, 450) = (460, 360, 360, 360).
Proof.
  split; [reflexivity|]. split; [vm_compute; tauto|].
  split; [|reflexivity]. unfold inside_frame. lia.
Qed.

(** ** The overlay records *)

Lemma overlay_at_inv (c : config) (o : outputs) (i : Z) (old rec : ObjectOverlay) :
  overlay_at c o i old = Some rec ->
  exists x y w h label score,
    rect_at c o i = Some (x, y, w, h) /\
    label_at c o i = Some label /\
    read_f32 o Scores i = Some score /\
    Z.of_nat (String.length label) < CLASS_BUFFER_SIZE /\
    ov_top rec = uint_to_int y /\ ov_left rec = uint_to_int x /\
    ov_bottom rec = uint_to_int (wrap_uint (y + h)) /\
    ov_right rec = uint_to_int (wrap_uint (x + w)) /\
    ov_class rec = label /\ ov_score rec = score.
Proof.
  unfold overlay_at.
  destruct (rect_at c o i) as [[[[x y] w] h]|]; [|discriminate].
  destruct (label_at c o i) as [label|]; [|discriminate].
  destruct (read_f32 o Scores i) as [score|]; [|discriminate].
  destruct (Z.ltb_spec (Z.of_nat (String.length label)) CLASS_BUFFER_SIZE)
    as [Hlen|]; [|discriminate].
  intros Heq; inversion Heq; subst; cbn.
  exists x, y, w, h, label, score. repeat split; try reflexivity; assumption.
Qed.

Lemma label_at_inv (c : config) (o : outputs) (i : Z) (label : string) :
  label_at c o i = Some label ->
  exists cls idx,
    read_f32 o Classes i = Some cls /\ to_int cls = Some idx /\
    0 <= idx < Z.of_nat (length (labels c)) /\
    labels c !! Z.to_nat idx = Some label.
Proof.
  unfold label_at.
  destruct (read_f32 o Classes i) as [cls|]; [|discriminate].
  destruct (to_int cls) as [idx|] eqn:Hcls; [|discriminate].
  destruct (Z.leb_spec 0 idx) as [Hidx|]; [|discriminate].
  intros Hl. exists cls, idx.
  split; [reflexivity|]. split; [exact Hcls|]. split; [|exact Hl].
  apply lookup_lt_Some in Hl. lia.
Qed.

(** A tick that runs to its end with the overlay compiled in leaves one
    record for each of the first [object_overlays_length] detections. *)
Lemma tick_overlay_records (c : config) (e : tick_env) (g : globals) (buf buf_hq : Z) :
  all_ok e buf buf_hq ->
  overlay_build c = true ->
  to_int (reported_count (inf_mem e)) <> Some 0 ->
  result_of (tick c e g) = Return true ->
  let g' := globals_of (tick c e g) in
  let count := reported_count (inf_mem e) in
  to_size_t (if SFltb count (F32.of_Z OBJECT_OVERLAYS_MAX_LENGTH)
             then count else F32.of_Z OBJECT_OVERLAYS_MAX_LENGTH)
    = Some (object_overlays_length g') /\
  forall k, 0 <= k < object_overlays_length g' ->
  exists old rec,
    object_overlays g !! Z.to_nat k = Some old /\
    overlay_at c (inf_mem e) k old = Some rec /\
    overlay_output g' !! Z.to_nat k = Some rec.
Proof.
  intros Hok Hb Hcount. rewrite (tick_ok c e g buf buf_hq Hok).
  pose proof (post_process_shape c buf buf_hq (after_inference e g)) as Hs.
  destruct (post_process c buf buf_hq (after_inference e g)) as [[t g'] r].
  cbn [result_of globals_of fst snd]. intros ->.
  inversion Hs as [| Hc | | |n t1 t2 g2 Hc Hn E1 E2]; subst.
  - exfalso. apply Hcount. exact Hc.
  - pose proof (overlay_block_run c (after_inference e g)) as Ho. rewrite E2 in Ho.
    destruct Ho as (_ & _ & _ & _ & _ & _ & _ & _ & _ & _ & _ & Hrecs).
    destruct (Hrecs Hb eq_refl) as [Hlen Hall].
    split; [exact Hlen|].
    intros k Hk. destruct (Hall k Hk) as (old & rec & H1 & H2 & H3).
    exists old, rec. split; [exact H1|]. split; [exact H2|].
    unfold overlay_output. rewrite lookup_take_lt by lia. exact H3.
Qed.

(** ** The score threshold *)





(** ** The class index *)

Lemma tick_ok_result (c : config) (e : tick_env) (g : globals) (buf buf_hq : Z) :
  all_ok e buf buf_hq ->
  result_of (tick c e g) = Return true \/
  exists u, result_of (tick c e g) = Undefined u.
Proof.
  intros Hok. rewrite (tick_ok c e g buf buf_hq Hok).
  pose proof (post_process_shape c buf buf_hq (after_inference e g)) as Hs.
  destruct (post_process c buf buf_hq (after_inference e g)) as [[t g'] r].
  cbn [result_of snd]. destruct Hs; eauto.
Qed.

(** C6 (as amended). The class value of a detection is converted to
    [int] and used directly as the index into the label table, without
    any check against the size of the table: the label that a tick logs
    for a kept detection, or stores in an overlay record, is the entry of
    the table at that index, and once the inference job has succeeded the
    tick never reports failure.  Nothing is said about an index outside
    the table, for which the look-up has no defined behaviour. *)
Theorem class_index_unchecked (c : config) (e : tick_env) (g : globals)
        (buf buf_hq : Z) :
  all_ok e buf buf_hq ->
  let t := trace_of (tick c e g) in
  let g' := globals_of (tick c e g) in
  result_of (tick c e g) <> Return false /\
  (forall i label score top left bottom right,
     In (EvSyslog (LogObject i label score top left bottom right)) t ->
     exists cls idx,
       read_f32 (inf_mem e) Classes i = Some cls /\ to_int cls = Some idx /\
       0 <= idx < Z.of_nat (length (labels c)) /\
       labels c !! Z.to_nat idx = Some label) /\
  (overlay_build c = true ->
   to_int (reported_count (inf_mem e)) <> Some 0 ->
   result_of (tick c e g) = Return true ->
   forall k, 0 <= k < object_overlays_length g' ->
   exists rec cls idx,
     overlay_output g' !! Z.to_nat k = Some rec /\
     read_f32 (inf_mem e) Classes k = Some cls /\ to_int cls = Some idx /\
     0 <= idx < Z.of_nat (length (labels c)) /\
     labels c !! Z.to_nat idx = Some (ov_class rec)).
Proof.
  intros Hok t g'. split; [|split].
  - destruct (tick_ok_result c e g buf buf_hq Hok) as [H|[u H]]; rewrite H; discriminate.
  - intros i label score top left bottom right Hin.
    pose proof (tick_detection_outputs c e g _ Hin eq_refl) as (_ & _ & Hl & _).
    apply label_at_inv. exact Hl.
  - intros Hov Hcount Hres k Hk.
    destruct (tick_overlay_records c e g buf buf_hq Hok Hov Hcount Hres) as [_ Hall].
    destruct (Hall k Hk) as (old & rec & _ & Hrec & Hlook).
    apply overlay_at_inv in Hrec
      as (x & y & w & h & label & sc & _ & Hl & _ & _ & _ & _ & _ & _ & Hcl & _).
    apply label_at_inv in Hl as (cls & idx & H1 & H2 & H3 & H4).
    exists rec, cls, idx. rewrite Hcl. auto.
Qed.

(** The tick over the centred detection of class 3 logs the fourth label
    and stores it in the overlay record. *)
Lemma class_index_unchecked_witness :
  all_ok (Ex.good Ex.one_centered) 1 2 /\
  (exists cls idx,
     read_f32 Ex.one_centered Classes 0 = Some cls /\ to_int cls = Some idx /\
     0 <= idx < 4 /\
     labels (Ex.cfg 50 true) !! Z.to_nat idx = Some "person"%string) /\
  exists rec cls idx,
    overlay_output
      (globals_of (tick (Ex.cfg 50 true) (Ex.good Ex.one_centered) (Ex.start 1280 720)))
      !! Z.to_nat 0 = Some rec /\
    read_f32 Ex.one_centered Classes 0 = Some cls /\ to_int cls = Some idx /\
    0 <= idx < 4 /\
    labels (Ex.cfg 50 true) !! Z.to_nat idx = Some (ov_class rec).
Proof.
  assert (Hok : all_ok (Ex.good Ex.one_centered) 1 2)
    by (repeat split; reflexivity).
  split; [exact Hok|].
  pose proof (class_index_unchecked
                (Ex.cfg 50 true) (Ex.good Ex.one_centered) (Ex.start 1280 720)
                1 2 Hok) as H.
  cbv zeta in H. destruct H as (_ & Hlog & Hov). split.
  - apply (Hlog 0 "person"%string (F32.of_bits Ex.f0_9)
             (F32.of_bits Ex.f0_25) (F32.of_bits Ex.f0_25)
             (F32.of_bits Ex.f0_75) (F32.of_bits Ex.f0_75)).
    vm_compute. tauto.
  - apply (Hov eq_refl).
    + vm_compute. discriminate.
    + vm_compute. reflexivity.
    + vm_compute. split; [discriminate|reflexivity].
Defined.

(** C6 fails as stated.  With four labels, a kept detection of class 7
    makes the tick look the label up at index 7, which has no defined
    behaviour, and no failure is reported; with the overlay left out and
    a score below the threshold, the same detection is skipped and the
    tick reports success. *)
Lemma class_index_counterexample :
  length (labels (Ex.cfg 50 true)) = 4%nat /\
  to_int (F32.of_bits Ex.f7_0) = Some 7 /\
  read_f32 (Ex.one_unlabelled Ex.f0_9) Classes 0 = Some (F32.of_bits Ex.f7_0) /\
  result_of (tick (Ex.cfg 50 true) (Ex.good (Ex.one_unlabelled Ex.f0_9))
                  (Ex.start 1280 720))
    = Undefined (UbLabelIndex 7) /\
  read_f32 (Ex.one_unlabelled Ex.f0_3) Classes 0 = Some (F32.of_bits Ex.f7_0) /\
  result_of (tick (Ex.cfg 50 false) (Ex.good (Ex.one_unlabelled Ex.f0_3))
                  (Ex.start 1280 720))
    = Return true.
Proof. repeat split; vm_compute; reflexivity. Qed.

(** ** Rewinding the output descriptors *)

(** A tick that fails before the inference job: [Hstop] concludes from
    the computed run, [Hnone] from a trace without inference job. *)
Ltac stops_early E Hstop Hnone :=
  early_exit E; eapply Hstop; [exact E|]; apply Hnone;
  repeat constructor; discriminate.

(** C3. In every tick, the inference job runs only with the read
    positions of all four output descriptors at offset 0: whenever the
    trace of the tick holds a run of the inference job, the four rewinds,
    all successful, stand immediately before it, and both preprocess jobs
    have completed successfully before them.  If any of the four rewinds
    fails, the tick reports failure and the inference job is not run. *)
Theorem rewind_before_inference (c : config) (e : tick_env) (g : globals) :
  let t := trace_of (tick c e g) in
  (forall ok pos,
     In (EvRunJob InfReq ok pos) t ->
     pos = zero_pos /\
     exists t1 t2 p1 p2,
       t = t1 ++ rewinds ++ EvRunJob InfReq ok pos :: t2 /\
       In (EvRunJob PpReq true p1) t1 /\
       In (EvRunJob PpReqHD true p2) t1) /\
  (forall x, lseek_ok e x = false ->
     result_of (tick c e g) = Return false /\
     forall ok pos, ~ In (EvRunJob InfReq ok pos) t).
Proof.
  cbv zeta. remember (tick c e g) as run eqn:E.
  assert (Hstop : forall t g',
            run = (t, g', Return (A:=unit) false) ->
            (forall ok pos, ~ In (EvRunJob InfReq ok pos) t) ->
            (forall (ok : bool) (pos : fdpos),
               In (EvRunJob InfReq ok pos) (trace_of run) ->
               pos = zero_pos /\
               exists t1 t2 p1 p2,
                 trace_of run = t1 ++ rewinds ++ EvRunJob InfReq ok pos :: t2 /\
                 In (EvRunJob PpReq true p1) t1 /\
                 In (EvRunJob PpReqHD true p2) t1) /\
            (forall x : tensor,
               lseek_ok e x = false ->
               result_of run = Return false /\
               forall ok pos, ~ In (EvRunJob InfReq ok pos) (trace_of run))).
  { intros t g' -> Hno. cbn [trace_of result_of fst snd]. split.
    - intros ok pos Hin. destruct (Hno ok pos Hin).
    - intros x _. split; [reflexivity|exact Hno]. }
  assert (Hnone : forall (t : list event),
            Forall (fun ev => forall ok pos, ev <> EvRunJob InfReq ok pos) t ->
            forall ok pos, ~ In (EvRunJob InfReq ok pos) t).
  { intros t Hall ok pos Hin. rewrite List.Forall_forall in Hall.
    exact (Hall _ Hin ok pos eq_refl). }
  destruct (sd_frame e) as [buf|] eqn:Hsd; [|stops_early E Hstop Hnone].
  destruct (hd_frame e) as [buf_hq|] eqn:Hhd; [|stops_early E Hstop Hnone].
  destruct (pp_ok e) eqn:Hpp; [|stops_early E Hstop Hnone].
  destruct (pp_hd_ok e) eqn:Hpphd; [|stops_early E Hstop Hnone].
  destruct (lseek_ok e Locations) eqn:H1; [|stops_early E Hstop Hnone].
  destruct (lseek_ok e Classes) eqn:H2; [|stops_early E Hstop Hnone].
  destruct (lseek_ok e Scores) eqn:H3; [|stops_early E Hstop Hnone].
  destruct (lseek_ok e NumberOfDetections) eqn:H4; [|stops_early E Hstop Hnone].
  assert (Hseek : forall x, lseek_ok e x = true) by (intros []; assumption).
  destruct (inf_ok e) eqn:Hinf.
  2:{ clear Hstop Hnone. early_exit E. subst run.
      cbn [trace_of result_of fst snd]. split.
      - intros ok pos Hin.
        repeat (destruct Hin as [Hin|Hin]; [try discriminate|]); [|destruct Hin].
        inversion Hin; subst. split; [reflexivity|].
        eexists (firstn 7 (ok_prefix c g buf buf_hq)), [EvSyslog LogInferenceFailed],
                (out_pos g), (out_pos g).
        split; [reflexivity|]. cbn. tauto.
      - intros x Hx. rewrite Hseek in Hx. discriminate. }
  clear Hstop Hnone.
  assert (Hok : all_ok e buf buf_hq) by (repeat split; assumption).
  subst run. rewrite (tick_ok c e g buf buf_hq Hok).
  pose proof (post_process_shape c buf buf_hq (after_inference e g)) as Hs.
  destruct (post_process c buf buf_hq (after_inference e g)) as [[t g'] r].
  apply post_run_events in Hs. cbn [trace_of result_of fst snd]. split.
  - intros ok pos Hin. apply in_app_or in Hin as [Hin|Hin].
    + cbn in Hin.
      repeat (destruct Hin as [Hin|Hin]; [try discriminate|]); [|destruct Hin].
      inversion Hin; subst. split; [reflexivity|].
      eexists (firstn 7 (ok_prefix c g buf buf_hq)), t, (out_pos g), (out_pos g).
      split; [reflexivity|]. cbn. tauto.
    + rewrite List.Forall_forall in Hs. destruct (Hs _ Hin) as [Hpost _].
      discriminate.
  - intros x Hx. rewrite Hseek in Hx. discriminate.
Qed.

(** In a tick without failure the inference job runs after the rewinds;
    a tick whose third rewind fails reports failure. *)
Lemma rewind_before_inference_witness :
  (lseek_ok (Ex.rewind_fails Ex.one_centered) Scores = false /\
   result_of (tick (Ex.cfg 50 true) (Ex.rewind_fails Ex.one_centered) (Ex.start 1280 720))
     = Return false) /\
  In (EvRunJob InfReq true zero_pos)
     (trace_of (tick (Ex.cfg 50 true) (Ex.good Ex.one_centered) (Ex.start 1280 720))) /\
  zero_pos = zero_pos /\
  exists t1 t2 p1 p2,
    trace_of (tick (Ex.cfg 50 true) (Ex.good Ex.one_centered) (Ex.start 1280 720))
      = t1 ++ rewinds ++ EvRunJob InfReq true zero_pos :: t2 /\
    In (EvRunJob PpReq true p1) t1 /\
    In (EvRunJob PpReqHD true p2) t1.
Proof.
  assert (Hin : In (EvRunJob InfReq true zero_pos)
                   (trace_of (tick (Ex.cfg 50 true) (Ex.good Ex.one_centered)
                                   (Ex.start 1280 720))))
    by (vm_compute; tauto).
  split.
  { split; [reflexivity|].
    pose proof (rewind_before_inference
                  (Ex.cfg 50 true) (Ex.rewind_fails Ex.one_centered)
                  (Ex.start 1280 720)) as H.
    cbv zeta in H. destruct H as [_ H]. apply (H Scores). reflexivity. }
  split; [exact Hin|].
  pose proof (rewind_before_inference
                (Ex.cfg 50 true) (Ex.good Ex.one_centered) (Ex.start 1280 720)) as H.
  cbv zeta in H. destruct H as [H _]. exact (H true zero_pos Hin).
Defined.

(** ** The detection count *)

(** A count above 20 does not convert to 0. *)
Lemma count_above_20_nonzero (w : Z) :
  SFltb (F32.of_Z 20) (F32.of_bits w) = true ->
  to_int (F32.of_bits w) <> Some 0.
Proof.
  change (F32.of_Z 20) with (S754_finite false 10485760 (-19)).
  destruct (F32.of_bits w) as [s|s| |s m e] eqn:Hw; try discriminate.
  destruct (of_bits_finite _ _ _ _ Hw) as (Hm & He & Hn).
  unfold SFltb, SFcompare. destruct s; [discriminate|].
  intros Hlt.
  assert (He' : -19 <= e) by (destruct (Z.compare_spec (-19) e); try discriminate; lia).
  clear Hlt. destruct Hn as [->|Hn]; [lia|].
  unfold to_int, in_range, trunc, cond_Zopp.
  assert (Hpos : 0 < Z.shiftl (Z.pos m) e).
  { destruct (Z.le_gt_cases 0 e) as [Hge|Hneg].
    - rewrite Z.shiftl_mul_pow2 by assumption.
      apply Z.mul_pos_pos; [reflexivity|]. apply Z.pow_pos_nonneg; lia.
    - replace (Z.shiftl (Z.pos m) e) with (Z.pos m / 2 ^ (- e))
        by (rewrite <- Z.shiftr_div_pow2, <- Z.shiftl_opp_r, Z.opp_involutive by lia;
            reflexivity).
      assert (H19 : 2 ^ (- e) <= 2 ^ 19) by (apply Z.pow_le_mono_r; lia).
      assert (Hp : 0 < 2 ^ (- e)) by (apply Z.pow_pos_nonneg; lia).
      apply Z.lt_le_trans with (m := 1); [reflexivity|].
      apply Z.div_le_lower_bound; [exact Hp|].
      rewrite Z.mul_1_r. apply Z.le_trans with (m := 2 ^ 19); [exact H19|].
      apply Z.le_trans with (m := 2 ^ 23); [|exact Hn].
      apply Z.pow_le_mono_r; lia. }
  destruct ((- 2 ^ 31 <=? Z.shiftl (Z.pos m) e) && (Z.shiftl (Z.pos m) e <? 2 ^ 31));
    [|discriminate].
  intros H; inversion H as [H0]. rewrite H0 in Hpos. discriminate.
Qed.

Lemma out_mem_after_inference (e : tick_env) (g : globals) :
  out_mem (after_inference e g) = inf_mem e.
Proof. reflexivity. Qed.

(** A tick whose count converts to 0 stops at the "no object" log line. *)
Lemma tick_zero_count (c : config) (e : tick_env) (g : globals) (buf buf_hq : Z) :
  all_ok e buf buf_hq ->
  to_int (reported_count (inf_mem e)) = Some 0 ->
  tick c e g =
  (ok_prefix c g buf buf_hq ++ [EvSyslog LogNoObject], after_inference e g, Return true).
Proof.
  intros Hok Hc. rewrite (tick_ok c e g buf buf_hq Hok).
  unfold post_process. unfold bind at 1. unfold load_f32 at 1. unfold_m.
  rewrite read_count, out_mem_after_inference, Hc. reflexivity.
Qed.

(** A tick that finds detections and runs to its end returns both frames
    to their providers as its last two calls. *)
Lemma frames_returned_after_detections (c : config) (e : tick_env) (g : globals)
      (buf buf_hq : Z) :
  all_ok e buf buf_hq ->
  to_int (reported_count (inf_mem e)) <> Some 0 ->
  result_of (tick c e g) = Return true ->
  exists t, trace_of (tick c e g)
            = t ++ [EvReturnFrame SdImageProvider buf;
                    EvReturnFrame HdImageProvider buf_hq].
Proof.
  intros Hok Hc. rewrite (tick_ok c e g buf buf_hq Hok).
  pose proof (post_process_shape c buf buf_hq (after_inference e g)) as Hs.
  destruct (post_process c buf buf_hq (after_inference e g)) as [[t g'] r].
  cbn [result_of trace_of fst snd]. intros ->.
  inversion Hs as [| Hz | | |n t1 t2 g2 Hn Hne E1 E2]; subst.
  - exfalso. apply Hc. exact Hz.
  - exists (ok_prefix c g buf buf_hq ++ t1 ++ t2).
    rewrite <- !app_assoc. reflexivity.
Qed.

(** The tick never exhausts the budget of its detection loop. *)
Lemma tick_never_out_of_fuel (c : config) (e : tick_env) (g : globals) :
  result_of (tick c e g) <> OutOfFuel.
Proof.
  destruct (tick_failed c e g) as [(buf & buf_hq & Hok)|(H & _)].
  - destruct (tick_ok_result c e g buf buf_hq Hok) as [H|[u H]];
      rewrite H; discriminate.
  - rewrite H. discriminate.
Qed.

(** C8 fails on the code.  A tick finds the centred box, and the next
    tick reads a count of 0.0.  The second tick reports success after
    the "no object" log line and makes no crop, but what it leaves is
    not empty: it returns before the overlay block, which a tick with
    detections runs, so the record of the first tick is still in use
    and [draw_cv25_overlay] draws its box again. *)
Theorem zero_count_leaves_old_records :
  let c := Prog.cfg 50 (1280, 720) true in
  let g1 := globals_of (tick c (Ex.good Ex.one_centered) Prog.start) in
  let run := tick c (Ex.good Ex.none) g1 in
  to_int (reported_count (inf_mem (Ex.good Ex.none))) = Some 0 /\
  result_of run = Return true /\
  Forall (fun ev => is_crop_event ev = false) (trace_of run) /\
  overlay_output (globals_of run)
  = [ {| ov_top := 180; ov_bottom := 540; ov_left := 460; ov_right := 820;
         ov_class := "person"; ov_score := F32.of_bits Ex.f0_9;
         bounding_box_id := 0; text_id := 0 |} ] /\
  exists t,
    Bbox.draw_cv25_overlay Prog.bbox_good None (globals_of run) = Some (t, Some 7) /\
    Bbox.rectangles t
    = [ (F32.of_bits 0x3EB80000, F32.of_bits Ex.f0_25,
         F32.of_bits 0x3F240000, F32.of_bits Ex.f0_75) ].
Proof.
  cbv zeta.
  split; [reflexivity|]. split; [vm_compute; reflexivity|].
  split; [vm_compute; repeat constructor|].
  split; [vm_compute; reflexivity|].
  eexists. split; vm_compute; reflexivity.
Qed.

(** C5 fails on the code: in a tick over a count of 0.0 both frames are
    acquired and the tick reports success, but no frame is returned to
    its provider. *)
Theorem zero_count_keeps_frames :
  result_of (tick (Ex.cfg 50 true) (Ex.good Ex.none) (Ex.start 1280 720)) = Return true /\
  In (EvGetLastFrame SdImageProvider (Some 1))
     (trace_of (tick (Ex.cfg 50 true) (Ex.good Ex.none) (Ex.start 1280 720))) /\
  In (EvGetLastFrame HdImageProvider (Some 2))
     (trace_of (tick (Ex.cfg 50 true) (Ex.good Ex.none) (Ex.start 1280 720))) /\
  Forall (fun ev => is_return_frame ev = false)
         (trace_of (tick (Ex.cfg 50 true) (Ex.good Ex.none) (Ex.start 1280 720))).
Proof.
  split; [reflexivity|].
  split; [vm_compute; tauto|].
  split; [vm_compute; tauto|].
  vm_compute. repeat constructor.
Qed.

(** C4 fails on the code.  The stream is 1280x720 and the HD frames
    that [chooseStreamResolution] chose are 1920x1080.  The overlay
    record of the centred box holds the crop rectangle, in pixels of the
    HD frame: its bottom, 810, lies below the 720 rows of the stream,
    where the same map over the stream size gives (460, 180, 820, 540).
    A tick leaves the stream size as it was, and [draw_cv25_overlay],
    which divides the record by the stream size, hands [bbox_rectangle]
    a bottom of 1.125. *)
Theorem overlay_rectangle_in_hd_space :
  let c := Prog.cfg 50 (1920, 1080) true in
  let g' := globals_of (tick c (Ex.good Ex.one_centered) Prog.start) in
  stream_width g' = 1280 /\ stream_height g' = 720 /\
  rect_at c Ex.one_centered 0 = Some (690, 270, 540, 540) /\
  rect_at (Prog.cfg 50 (1280, 720) true) Ex.one_centered 0 = Some (460, 180, 360, 360) /\
  overlay_output g'
  = [ {| ov_top := 270; ov_bottom := 810; ov_left := 690; ov_right := 1230;
         ov_class := "person"; ov_score := F32.of_bits Ex.f0_9;
         bounding_box_id := 0; text_id := 0 |} ] /\
  map (Bbox.normalized g') (overlay_output g')
  = [ (F32.of_bits 0x3F0A0000, F32.of_bits 0x3EC00000,
       F32.of_bits 0x3F760000, F32.of_bits Ex.f1_125) ].
Proof.
  cbv zeta.
  split; [reflexivity|]. split; [reflexivity|].
  split; [vm_compute; reflexivity|]. split; [vm_compute; reflexivity|].
  split; vm_compute; reflexivity.
Qed.

(** ** The labels of a parsed file *)

Module LabelFacts.
Import Labels.

Lemma cstring_insert_NUL (l : list ascii) :
  forall p q : nat,
  (String.length (cstring (drop p (<[q := NUL]> l)))
   <= String.length (cstring (drop p l)))%nat.
Proof.
  induction l as [|a l IH]; intros p q; [destruct p; simpl; lia|].
  destruct p as [|p], q as [|q]; simpl.
  - lia.
  - specialize (IH 0%nat q). rewrite !drop_0 in IH.
    destruct (Ascii.eqb a NUL); simpl; lia.
  - lia.
  - apply IH.
Qed.

Lemma cstring_lookup_NUL (l : list ascii) :
  forall q : nat, l !! q = Some NUL -> (String.length (cstring l) <= q)%nat.
Proof.
  induction l as [|a l IH]; intros q Hq; [discriminate|].
  destruct q as [|q]; cbn in Hq |- *.
  - inversion Hq; subst. cbn. lia.
  - destruct (Ascii.eqb a NUL); cbn [String.length]; [lia|].
    specialize (IH q Hq). lia.
Qed.

Lemma cstring_strnlen (k : nat) :
  forall l : list ascii,
  (strnlen l k < k)%nat -> String.length (cstring l) = strnlen l k.
Proof.
  induction k as [|k IH]; intros l Hk; [lia|].
  destruct l as [|a l]; [reflexivity|].
  cbn [strnlen cstring] in *. destruct (Ascii.eqb a NUL); [reflexivity|].
  cbn [String.length]. rewrite IH by lia. reflexivity.
Qed.

(** An invariant of a [for] loop that holds at the start and is kept by
    every body holds at the end. *)
Lemma for_loop_inv {S : Type} (P : Z -> S -> Prop) (body : Z -> S -> option S) (n : nat) :
  forall (i : Z) (s s' : S),
  (forall j x y, i <= j -> P j x -> body j x = Some y -> P (j + 1) y) ->
  P i s -> for_loop n i body s = Some s' -> P (i + Z.of_nat n) s'.
Proof.
  induction n as [|n IH]; intros i s s' Hstep Hs Hrun.
  - cbn in Hrun. inversion Hrun; subst. replace (i + Z.of_nat 0) with i by lia. exact Hs.
  - cbn [for_loop] in Hrun. destruct (body i s) as [s1|] eqn:Hb; [|discriminate].
    replace (i + Z.of_nat (Datatypes.S n)) with (i + 1 + Z.of_nat n) by lia.
    apply (IH (i + 1) s1 s').
    + intros j x y Hj. apply Hstep. lia.
    + apply (Hstep i s s1); [lia|exact Hs|exact Hb].
    + exact Hrun.
Qed.

Lemma store_inv (data data' : list ascii) (i : Z) (c : ascii) :
  store data i c = Some data' ->
  0 <= i < Z.of_nat (length data) /\ data' = <[Z.to_nat i := c]> data.
Proof.
  unfold store.
  destruct ((0 <=? i) && (i <? Z.of_nat (length data))) eqn:E; [|discriminate].
  intros H; inversion H; subst. apply andb_true_iff in E as [E1 E2].
  split; [lia|reflexivity].
Qed.

(** After the third pass every label that starts at a registered,
    non-negative offset has at most [LINE_MAX_LEN + 1] bytes. *)
Lemma cap_lines_bound (data data' : list ascii) (arr : list Z) (numLines : Z) :
  cap_lines data arr numLines = Some data' ->
  forall k p, 0 <= k < numLines -> arr !! Z.to_nat k = Some p -> 0 <= p ->
  (String.length (label_at data' p) <= 61)%nat.
Proof.
  unfold cap_lines. intros Hrun.
  set (P := fun (j : Z) (d : list ascii) =>
              forall k p, 0 <= k < j -> arr !! Z.to_nat k = Some p -> 0 <= p ->
              (String.length (label_at d p) <= 61)%nat).
  assert (Hinit : P 0 data) by (intros k p Hk; lia).
  intros k p Hk.
  refine (for_loop_inv P _ _ 0 data data' _ Hinit Hrun k p _).
  2:{ lia. }
  clear.
  intros j x y Hj HP Hbody k p Hk Hp Hp0.
  destruct (Z.leb_spec 0 j) as [_|]; [|lia].
  destruct (arr !! Z.to_nat j) as [pj|] eqn:Hpj; [|discriminate].
  assert (Hle : forall q, (String.length (label_at y q)
                           <= String.length (label_at x q))%nat).
  { intros q. unfold label_at.
    destruct (LINE_MAX_LEN <=? _); [|inversion Hbody; subst; lia].
    apply store_inv in Hbody as [_ ->]. apply cstring_insert_NUL. }
  destruct (Z.eq_dec k j) as [->|Hne].
  - rewrite Hp in Hpj. inversion Hpj; subst pj. unfold label_at in *.
    destruct (Z.leb_spec LINE_MAX_LEN
                (Z.of_nat (strnlen (drop (Z.to_nat p) x) (Z.to_nat LINE_MAX_LEN))))
      as [Hlong|Hshort].
    + apply store_inv in Hbody as [Hin ->].
      apply cstring_lookup_NUL. rewrite lookup_drop.
      replace (Z.to_nat p + 61)%nat with (Z.to_nat (p + LINE_MAX_LEN + 1))
        by (unfold LINE_MAX_LEN; lia).
      apply list_lookup_insert_eq. lia.
    + inversion Hbody; subst y.
      rewrite (cstring_strnlen (Z.to_nat LINE_MAX_LEN)); unfold LINE_MAX_LEN in *; lia.
  - specialize (HP k p ltac:(lia) Hp Hp0). specialize (Hle p). lia.
Qed.

Lemma store_ptr_inv (arr arr' : list Z) (i p : Z) :
  store_ptr arr i p = Some arr' -> arr' = <[Z.to_nat i := p]> arr.
Proof.
  unfold store_ptr.
  destruct ((0 <=? i) && (i <? Z.of_nat (length arr))); [|discriminate].
  intros H; inversion H; reflexivity.
Qed.

(** The second pass keeps the size of the label array and registers
    non-negative offsets only. *)
Lemma split_lines_array (data data' : list ascii) (arr arr' : list Z)
      (size idx : Z) :
  split_lines data arr size = Some (data', arr', idx) ->
  Forall (fun p => 0 <= p) arr ->
  length arr' = length arr /\ Forall (fun p => 0 <= p) arr'.
Proof.
  unfold split_lines. intros Hrun Hpos.
  set (P := fun (j : Z) (s : list ascii * list Z * Z) =>
              length (snd (fst s)) = length arr /\
              Forall (fun p => 0 <= p) (snd (fst s))).
  assert (Hinit : P 0 (data, arr, 1)) by (split; [reflexivity|exact Hpos]).
  refine (for_loop_inv P _ _ 0 (data, arr, 1) (data', arr', idx) _ Hinit Hrun).
  clear. intros j [[d a] ix] [[d' a'] ix'] Hj [Hlen Hall] Hbody.
  unfold P in *. cbn [fst snd] in *.
  destruct (load d j) as [ch|]; [|discriminate].
  destruct (Ascii.eqb ch NEWLINE); [|inversion Hbody; subst; auto].
  destruct (j <? size - 1).
  - destruct (store_ptr a ix (j + 1)) as [a1|] eqn:Ha; [|discriminate].
    destruct (store d j NUL) as [d1|]; [|discriminate].
    inversion Hbody; subst. apply store_ptr_inv in Ha as ->.
    rewrite length_insert. split; [exact Hlen|].
    apply Forall_insert; [exact Hall|lia].
  - destruct (store d j NUL) as [d1|]; [|discriminate].
    inversion Hbody; subst. auto.
Qed.

(** X13. What the code does guarantee: every label of a parsed file
    has at most [LINE_MAX_LEN + 1] = 61 bytes, whatever the file holds. *)
Lemma labels_at_most_61 (f : label_file) :
  Forall (fun s => (String.length s <= 61)%nat) (label_table (parseLabels f)).
Proof.
  unfold parseLabels.
  destruct (negb (stat_ok f)); [constructor|].
  destruct (10 * 1024 * 1024 <? _); [constructor|].
  destruct (negb (open_ok f)); [constructor|].
  destruct (negb (data_malloc_ok f)); [constructor|].
  destruct (negb (read_ok f) && _); [constructor|].
  destruct (_ =? 0); [constructor|].
  destruct (count_lines _ _) as [n|]; [|constructor].
  destruct (negb (array_malloc_ok f)); [constructor|].
  destruct (split_lines _ _ _) as [[[d1 arr] ix]|] eqn:Hsplit; [|constructor].
  destruct (store d1 _ NUL) as [d2|]; [|constructor].
  destruct (cap_lines d2 arr (n + 1)) as [d3|] eqn:Hcap; [|constructor].
  cbn [label_table].
  apply split_lines_array in Hsplit as [Hlen Hpos].
  2:{ apply Forall_insert; [apply Forall_replicate|]; lia. }
  rewrite length_insert, length_replicate in Hlen.
  apply Forall_map. apply Forall_lookup. intros k p Hk. cbv beta.
  assert (Hk' : (k < length arr)%nat) by (eapply lookup_lt_Some; exact Hk).
  apply (cap_lines_bound d2 d3 arr (n + 1) Hcap (Z.of_nat k) p).
  - lia.
  - rewrite Nat2Z.id. exact Hk.
  - rewrite Forall_lookup in Hpos. exact (Hpos k p Hk).
Qed.

End LabelFacts.

(** A line of exactly 60 bytes keeps its 60 bytes, but the capping NUL
    lands on the first byte of the label that follows. *)
Lemma label_cap_empties_next_label :
  String.length Ex.line_of_60 = 60%nat /\
  Labels.label_table
    (Labels.parseLabels
       (Ex.label_file_of (Ex.line_of_60 ++ String Labels.NEWLINE "chair")))
  = [Ex.line_of_60; EmptyString].
Proof. split; vm_compute; reflexivity. Qed.

(** When the file ends with a line of exactly 60 bytes and no newline,
    the capping NUL is written one byte past the end of the buffer. *)
Lemma label_cap_writes_past_buffer :
  Labels.parseLabels (Ex.label_file_of Ex.line_of_60) = Labels.ParseUndefined.
Proof. vm_compute. reflexivity. Qed.

(** C9 fails on the code: a line of 62 bytes becomes a label of 61 bytes. *)
Theorem label_longer_than_limit :
  String.length Ex.long_line = 63%nat /\
  Labels.label_table (Labels.parseLabels (Ex.label_file_of Ex.long_line))
  = ["abcdefghijklmnopqrstuvwxyzabcdefghijklmnopqrstuvwxyzabcdefghi"%string] /\
  map String.length
      (Labels.label_table (Labels.parseLabels (Ex.label_file_of Ex.long_line)))
  = [61%nat].
Proof. repeat split; vm_compute; reflexivity. Qed.

(** ** Iterations of the overlay loop *)

Lemma overlay_iterations_app (t1 t2 : list event) :
  overlay_iterations (t1 ++ t2) = (overlay_iterations t1 + overlay_iterations t2)%nat.
Proof. unfold overlay_iterations. rewrite List.filter_app, length_app. reflexivity. Qed.

Lemma overlay_iterations_none (P : event -> Prop) (t : list event) :
  (forall ev, P ev -> is_coordinates_log ev = false) ->
  Forall P t -> overlay_iterations t = 0%nat.
Proof.
  intros HP Hall. unfold overlay_iterations.
  induction Hall as [|ev t Hev _ IH]; [reflexivity|].
  cbn [List.filter]. rewrite (HP ev Hev). exact IH.
Qed.

Lemma update_overlay_iterations (c : config) (i : Z) (g : globals) :
  (overlay_iterations (trace_of (update_overlay c i g)) <= 1)%nat.
Proof.
  unfold update_overlay, get_coordinates. run_m.
  all: cbn; lia.
Qed.

Lemma overlay_loop_iterations (c : config) (n : nat) :
  forall (i : Z) (g : globals),
  (overlay_iterations (trace_of (overlay_loop c n i g)) <= n)%nat.
Proof.
  induction n as [|n IH]; intros i g.
  - cbn. lia.
  - cbn [overlay_loop]. unfold bind at 1.
    pose proof (update_overlay_iterations c i g) as Hbody.
    destruct (update_overlay c i g) as [[t1 g1] r1].
    cbn [trace_of fst] in Hbody.
    destruct r1 as [[]|b|u|]; cbn [trace_of fst]; try lia.
    specialize (IH (i + 1) g1).
    destruct (overlay_loop c n (i + 1) g1) as [[t2 g2] r2].
    cbn [trace_of fst] in IH |- *. rewrite overlay_iterations_app. lia.
Qed.

Lemma overlay_block_iterations (c : config) (g : globals) :
  (overlay_iterations (trace_of (overlay_block c g)) <= 5)%nat.
Proof.
  unfold overlay_block. destruct (overlay_build c); [|cbn; lia].
  unfold update_overlays. unfold bind at 1. unfold syslog, emit.
  unfold bind at 1. unfold load_f32 at 1. unfold_m. rewrite read_count.
  set (count := reported_count (out_mem g)).
  set (len := if SFltb count (F32.of_Z OBJECT_OVERLAYS_MAX_LENGTH)
              then count else F32.of_Z OBJECT_OVERLAYS_MAX_LENGTH).
  destruct (to_size_t len) as [n|] eqn:Hn; [|cbn; lia].
  pose proof (overlay_length_bound _ _ Hn) as Hb.
  pose proof (overlay_loop_iterations c (Z.to_nat n) 0 (set_overlays_length g n)) as Hl.
  destruct (overlay_loop c (Z.to_nat n) 0 (set_overlays_length g n)) as [[t2 g2] r2].
  cbn [trace_of fst app] in Hl |- *.
  change (EvSyslog (LogHDSize (desiredHDImgHeight c) (desiredHDImgWidth c)
                              (heightFrameHD c) (widthFrameHD c)) :: t2)
    with ([EvSyslog (LogHDSize (desiredHDImgHeight c) (desiredHDImgWidth c)
                               (heightFrameHD c) (widthFrameHD c))] ++ t2).
  rewrite overlay_iterations_app. cbn. lia.
Qed.

Lemma detection_event_not_coordinates (c : config) (o : outputs) (lo : Z) (ev : event) :
  detection_event c o lo ev -> is_coordinates_log ev = false.
Proof.
  destruct ev as [| | | |m| | | |]; cbn; try tauto. destruct m; tauto.
Qed.

Lemma early_event_not_coordinates (ev : event) :
  is_early_event ev = true -> is_coordinates_log ev = false.
Proof.
  destruct ev as [| | | |m| | | |]; cbn; try discriminate; try reflexivity.
  destruct m; cbn; try discriminate; reflexivity.
Qed.

(** The overlay loop runs at most five times in a tick. *)
Lemma tick_overlay_iterations (c : config) (e : tick_env) (g : globals) :
  (overlay_iterations (trace_of (tick c e g)) <= 5)%nat.
Proof.
  destruct (tick_failed c e g) as [(buf & buf_hq & Hok)|(_ & Hearly & _)].
  2:{ rewrite (overlay_iterations_none _ _ early_event_not_coordinates Hearly). lia. }
  rewrite (tick_ok c e g buf buf_hq Hok).
  pose proof (post_process_shape c buf buf_hq (after_inference e g)) as Hs.
  destruct (post_process c buf buf_hq (after_inference e g)) as [[t g'] r].
  cbn [trace_of fst]. rewrite overlay_iterations_app.
  change (overlay_iterations (ok_prefix c g buf buf_hq)) with 0%nat.
  assert (Hloop : forall t1 r1,
            detection_loop c DETECTION_FUEL 0 (after_inference e g)
              = (t1, after_inference e g, r1) ->
            overlay_iterations t1 = 0%nat).
  { intros t1 r1 E1.
    pose proof (detection_loop_run c DETECTION_FUEL 0 (after_inference e g)) as Hl.
    rewrite E1 in Hl. destruct Hl as (_ & Hev & _).
    eapply overlay_iterations_none; [|exact Hev].
    intros ev. apply detection_event_not_coordinates. }
  assert (Hblock : forall t2 g2 r2,
            overlay_block c (after_inference e g) = (t2, g2, r2) ->
            (overlay_iterations t2 <= 5)%nat).
  { intros t2 g2 r2 E2.
    pose proof (overlay_block_iterations c (after_inference e g)) as Ho.
    rewrite E2 in Ho. exact Ho. }
  destruct Hs as [Hc|Hc|n t1 u Hc Hn E1|n t1 t2 g2 u Hc Hn E1 E2
                  |n t1 t2 g2 Hc Hn E1 E2];
    rewrite ?overlay_iterations_app, ?(Hloop _ _ E1);
    try specialize (Hblock _ _ _ E2); cbn; lia.
Qed.

(** ** Reads of the output tensors *)

Lemma detection_used_app_l (c : config) (o : outputs) (i : Z) (t1 t2 : list event) :
  detection_used c o i t1 -> detection_used c o i (t1 ++ t2).
Proof.
  intros (top & left & bottom & right & score & x & y & w & h & H1 & H2 & H3 & H4).
  exists top, left, bottom, right, score, x, y, w, h.
  repeat (split; [assumption|]).
  intros Hk. destruct (H4 Hk) as (label & Hl & Hlog & Hcrop).
  exists label. split; [exact Hl|]. split; apply in_or_app; left; assumption.
Qed.

Lemma detection_used_app_r (c : config) (o : outputs) (i : Z) (t1 t2 : list event) :
  detection_used c o i t2 -> detection_used c o i (t1 ++ t2).
Proof.
  intros (top & left & bottom & right & score & x & y & w & h & H1 & H2 & H3 & H4).
  exists top, left, bottom, right, score, x, y, w, h.
  repeat (split; [assumption|]).
  intros Hk. destruct (H4 Hk) as (label & Hl & Hlog & Hcrop).
  exists label. split; [exact Hl|]. split; apply in_or_app; right; assumption.
Qed.

Lemma crop_and_encode_uses (c : config) (i : Z) (g : globals) :
  match crop_and_encode c i g with
  | (t, g', r) => r = Next tt -> detection_used c (out_mem g) i t
  end.
Proof.
  unfold crop_and_encode. run_m.
  all: cbn [app]; intros Hr; try discriminate.
  all: cbv [detection_used rect_at box_at label_at].
  all: repeat match goal with H : _ = Some _ |- _ => rewrite H end.
  all: eexists _, _, _, _, _, _, _, _, _.
  all: split; [reflexivity|]; split; [reflexivity|]; split; [reflexivity|].
  all: intros Hk; try congruence.
  eexists. split; [reflexivity|]. cbn. tauto.
Qed.

Lemma detection_loop_uses (c : config) (fuel : nat) :
  forall (i : Z) (g : globals),
  match detection_loop c fuel i g with
  | (t, g', r) =>
      r = Next tt ->
      forall j, 0 <= i <= j -> j <= 20 ->
      below_count (out_mem g) j = true ->
      detection_used c (out_mem g) j t
  end.
Proof.
  unfold below_count.
  induction fuel as [|fuel IH]; intros i g.
  - cbn [detection_loop]. unfold_m. rewrite read_count.
    destruct (SFltb (F32.of_Z i) (reported_count (out_mem g))) eqn:Hlt; cbn [app].
    + discriminate.
    + intros _ j Hi Hj Hc.
      rewrite (SFltb_of_Z_below _ i j Hi Hj Hc) in Hlt. discriminate.
  - cbn [detection_loop]. unfold bind at 1. unfold load_f32 at 1. unfold_m.
    rewrite read_count.
    destruct (SFltb (F32.of_Z i) (reported_count (out_mem g))) eqn:Hlt; cbn [app].
    2:{ intros _ j Hi Hj Hc.
        rewrite (SFltb_of_Z_below _ i j Hi Hj Hc) in Hlt. discriminate. }
    pose proof (crop_and_encode_run c i g) as Hbody.
    pose proof (crop_and_encode_uses c i g) as Huses.
    destruct (crop_and_encode c i g) as [[t1 g1] r1].
    destruct Hbody as (-> & _).
    destruct r1 as [[]|b|u|]; try discriminate.
    specialize (IH (i + 1) g).
    destruct (detection_loop c fuel (i + 1) g) as [[t2 g2] r2].
    intros Hr j Hi Hj Hc.
    destruct (Z.eq_dec j i) as [->|Hne].
    + apply detection_used_app_l. apply Huses. reflexivity.
    + apply detection_used_app_r. apply (IH Hr j); [lia|exact Hj|exact Hc].
Qed.

Lemma tick_uses (c : config) (e : tick_env) (g : globals) (i : Z) :
  result_of (tick c e g) = Return true ->
  to_int (reported_count (inf_mem e)) <> Some 0 ->
  0 <= i < 20 -> below_count (inf_mem e) i = true ->
  detection_used c (inf_mem e) i (trace_of (tick c e g)).
Proof.
  intros Hres Hc Hi Hlt.
  destruct (tick_failed c e g) as [(buf & buf_hq & Hok)|(H & _)]; [|congruence].
  rewrite (tick_ok c e g buf buf_hq Hok) in Hres |- *.
  pose proof (post_process_shape c buf buf_hq (after_inference e g)) as Hs.
  destruct (post_process c buf buf_hq (after_inference e g)) as [[t g'] r].
  cbn [result_of trace_of fst snd] in *. subst r.
  inversion Hs as [| Hz | | |n t1 t2 g2 Hn Hne E1 E2]; subst.
  - exfalso. apply Hc. exact Hz.
  - pose proof (detection_loop_uses c DETECTION_FUEL 0 (after_inference e g)) as Hl.
    rewrite E1 in Hl.
    apply detection_used_app_r, detection_used_app_l.
    apply (Hl eq_refl i); [lia|lia|exact Hlt].
Qed.

(** C10 (as amended). In a tick that runs to its end the detection loop
    takes the box and the score from the tensors at every index below
    the reported count, and the class at the indices of the detections
    that pass the threshold test: the log line of such a detection
    carries the label of its class and its crop the rectangle of its
    box.  The count is never compared with the capacities of the tensors
    (80, 20 and 20 floats).  If the reported count is at most 20, no
    tick reads a tensor outside its mapping.  A read outside a mapping
    happens only for a count above 20, and it is the read of
    [locations[80]]; with such a count a tick in which nothing failed
    before has no defined behaviour, and over empty tensors and a count
    of 21 it makes that read.  The overlay loop runs at most 5 times in
    a tick, whatever the count, and a tick keeps
    [object_overlays_length] within 5. *)
Theorem tensor_reads_bounded_by_count (c : config) (e : tick_env) (g : globals) :
  let count := reported_count (inf_mem e) in
  (result_of (tick c e g) = Return true ->
   to_int count <> Some 0 ->
   forall i, 0 <= i < 20 -> below_count (inf_mem e) i = true ->
   detection_used c (inf_mem e) i (trace_of (tick c e g))) /\
  (SFleb count (F32.of_Z 20) = true ->
   forall t i, result_of (tick c e g) <> Undefined (UbTensorRead t i)) /\
  (forall buf buf_hq,
     all_ok e buf buf_hq -> SFltb (F32.of_Z 20) count = true ->
     exists u, result_of (tick c e g) = Undefined u) /\
  (forall t i,
     result_of (tick c e g) = Undefined (UbTensorRead t i) ->
     t = Locations /\ i = 80 /\ SFltb (F32.of_Z 20) count = true) /\
  result_of (tick (Prog.cfg 50 (1280, 720) true) (Ex.good Ex.twenty_one) Prog.start)
    = Undefined (UbTensorRead Locations 80) /\
  (overlay_iterations (trace_of (tick c e g)) <= 5)%nat /\
  (object_overlays_length g <= 5 ->
   object_overlays_length (globals_of (tick c e g)) <= 5).
Proof.
  cbv zeta.
  split; [intros Hres Hc i Hi Hb; apply tick_uses; assumption|].
  split; [|split; [|split; [|split; [vm_compute; reflexivity|
                                     split; [apply tick_overlay_iterations|]]]]].
  - intros Hle t i.
    destruct (tick_failed c e g) as [(buf & buf_hq & Hok)|(H & _)];
      [|rewrite H; discriminate].
    rewrite (tick_ok c e g buf buf_hq Hok).
    pose proof (post_process_shape c buf buf_hq (after_inference e g)) as Hs.
    destruct (post_process c buf buf_hq (after_inference e g)) as [[tr g'] r].
    cbn [result_of snd].
    destruct Hs as [Hc|Hc|n t1 u Hc Hn E1|n t1 t2 g2 u Hc Hn E1 E2
                    |n t1 t2 g2 Hc Hn E1 E2]; try discriminate.
    + pose proof (detection_loop_run c DETECTION_FUEL 0 (after_inference e g)) as Hl.
      rewrite E1 in Hl. destruct Hl as (_ & _ & _ & _ & Hin & _ & _).
      apply Hin; [lia|]. rewrite out_mem_after_inference. exact Hle.
    + pose proof (overlay_block_run c (after_inference e g)) as Ho.
      rewrite E2 in Ho. apply Ho.
  - intros buf buf_hq Hok Hlt.
    rewrite (tick_ok c e g buf buf_hq Hok).
    pose proof (post_process_shape c buf buf_hq (after_inference e g)) as Hs.
    destruct (post_process c buf buf_hq (after_inference e g)) as [[tr g'] r].
    cbn [result_of snd].
    assert (Hnz : to_int (reported_count (inf_mem e)) <> Some 0)
      by (apply count_above_20_nonzero; exact Hlt).
    assert (Hloop : forall t1 r1,
              detection_loop c DETECTION_FUEL 0 (after_inference e g)
                = (t1, after_inference e g, r1) ->
              exists u, r1 = Undefined u).
    { intros t1 r1 E1.
      pose proof (detection_loop_run c DETECTION_FUEL 0 (after_inference e g)) as Hl.
      rewrite E1 in Hl. destruct Hl as (_ & _ & _ & _ & _ & Hout & _).
      apply Hout; [lia | cbv; discriminate | exact Hlt]. }
    destruct Hs as [Hc|Hc|n t1 u Hc Hn E1|n t1 t2 g2 u Hc Hn E1 E2
                    |n t1 t2 g2 Hc Hn E1 E2]; eauto.
    + exfalso. apply Hnz. exact Hc.
    + destruct (Hloop _ _ E1) as [u Hu]. discriminate.
  - intros t i.
    destruct (tick_failed c e g) as [(buf & buf_hq & Hok)|(H & _)];
      [|rewrite H; discriminate].
    rewrite (tick_ok c e g buf buf_hq Hok).
    pose proof (post_process_shape c buf buf_hq (after_inference e g)) as Hs.
    destruct (post_process c buf buf_hq (after_inference e g)) as [[tr g'] r].
    cbn [result_of snd].
    destruct Hs as [Hc|Hc|n t1 u Hc Hn E1|n t1 t2 g2 u Hc Hn E1 E2
                    |n t1 t2 g2 Hc Hn E1 E2]; try discriminate.
    + pose proof (detection_loop_run c DETECTION_FUEL 0 (after_inference e g)) as Hl.
      rewrite E1 in Hl. destruct Hl as (_ & _ & _ & _ & _ & _ & Honly).
      rewrite out_mem_after_inference in Honly. apply Honly. lia.
    + pose proof (overlay_block_run c (after_inference e g)) as Ho.
      rewrite E2 in Ho. intros Hu. exfalso.
      destruct Ho as (_ & _ & _ & _ & _ & _ & _ & _ & _ & Hno & _).
      exact (Hno t i Hu).
  - intros Hlen.
    destruct (tick_failed c e g) as [(buf & buf_hq & Hok)|(_ & _ & _ & H)];
      [|rewrite H; exact Hlen].
    rewrite (tick_ok c e g buf buf_hq Hok).
    pose proof (post_process_shape c buf buf_hq (after_inference e g)) as Hs.
    destruct (post_process c buf buf_hq (after_inference e g)) as [[tr g'] r].
    cbn [globals_of fst snd].
    apply post_run_globals in Hs as [_ Hs]. apply Hs. exact Hlen.
Qed.

(** A count of 2: both detections are taken from the tensors and every
    read stays inside them; a count of 21 leaves them; the overlay
    length stays within 5. *)
Lemma tensor_reads_bounded_by_count_witness :
  detection_used (Prog.cfg 50 (1280, 720) true) (inf_mem (Ex.good Ex.strong_and_weak)) 1
    (trace_of (tick (Prog.cfg 50 (1280, 720) true) (Ex.good Ex.strong_and_weak)
                    Prog.start)) /\
  (forall t i,
     result_of (tick (Prog.cfg 50 (1280, 720) true) (Ex.good Ex.strong_and_weak)
                     Prog.start)
       <> Undefined (UbTensorRead t i)) /\
  (all_ok (Ex.good Ex.twenty_one) 1 2 /\
   SFltb (F32.of_Z 20) (reported_count (inf_mem (Ex.good Ex.twenty_one))) = true /\
   exists u,
     result_of (tick (Prog.cfg 50 (1280, 720) true) (Ex.good Ex.twenty_one) Prog.start)
       = Undefined u) /\
  object_overlays_length Prog.start <= 5 /\
  object_overlays_length
    (globals_of (tick (Prog.cfg 50 (1280, 720) true) (Ex.good Ex.strong_and_weak)
                      Prog.start))
    <= 5.
Proof.
  assert (Hle : SFleb (reported_count (inf_mem (Ex.good Ex.strong_and_weak)))
                      (F32.of_Z 20) = true) by (vm_compute; reflexivity).
  assert (Hok : all_ok (Ex.good Ex.twenty_one) 1 2) by (repeat split; reflexivity).
  assert (Hlt : SFltb (F32.of_Z 20) (reported_count (inf_mem (Ex.good Ex.twenty_one)))
                = true) by (vm_compute; reflexivity).
  assert (Hlen : object_overlays_length Prog.start <= 5) by (simpl; lia).
  pose proof (tensor_reads_bounded_by_count
                (Prog.cfg 50 (1280, 720) true) (Ex.good Ex.strong_and_weak)
                Prog.start) as H1.
  pose proof (tensor_reads_bounded_by_count
                (Prog.cfg 50 (1280, 720) true) (Ex.good Ex.twenty_one) Prog.start) as H2.
  cbv zeta in H1, H2.
  destruct H1 as (Hu & Ha & _ & _ & _ & _ & Hc). destruct H2 as (_ & _ & Hb & _).
  split.
  { apply Hu; [vm_compute; reflexivity | vm_compute; discriminate | lia
              | vm_compute; reflexivity]. }
  split; [exact (Ha Hle)|].
  split; [split; [exact Hok|split; [exact Hlt|exact (Hb 1 2 Hok Hlt)]]|].
  split; [exact Hlen|exact (Hc Hlen)].
Defined.

(** C10 fails as stated: the class tensor is not indexed at every index
    below the count.  The one detection of the tick has a score of -0.5,
    which the test against the stored threshold of 0 rejects, and class
    7, outside the four labels, so that [labels[(int)classes[0]]] has no
    defined value.  The tick (without overlay) never evaluates it and
    runs to its end; with a score of 0.9 it stops at that look-up. *)
Lemma rejected_class_not_indexed :
  below_count Prog.negative_unlabelled 0 = true /\
  kept_at (Prog.cfg 50 (1280, 720) false) Prog.negative_unlabelled 0 = false /\
  label_at (Prog.cfg 50 (1280, 720) false) Prog.negative_unlabelled 0 = None /\
  result_of (tick (Prog.cfg 50 (1280, 720) false) (Ex.good Prog.negative_unlabelled)
                  Prog.start)
    = Return true /\
  result_of (tick (Prog.cfg 50 (1280, 720) false) (Ex.good (Ex.one_unlabelled Ex.f0_9))
                  Prog.start)
    = Undefined (UbLabelIndex 7).
Proof.
  split; [vm_compute; reflexivity|]. split; [vm_compute; reflexivity|].
  split; [vm_compute; reflexivity|]. split; vm_compute; reflexivity.
Qed.

(** * Further properties of the code *)

(** ** What a tick leaves of the globals *)

Lemma post_run_frame (c : config) (buf buf_hq : Z) (g g' : globals)
      (t : list event) (r : res unit) :
  post_run c buf buf_hq g t g' r -> same_frame g g'.
Proof.
  intros H. destruct H as [Hc|Hc|n t1 u Hc Hn E1|n t1 t2 g2 u Hc Hn E1 E2
                           |n t1 t2 g2 Hc Hn E1 E2];
    try (repeat split; tauto);
    pose proof (overlay_block_run c g) as Ho; rewrite E2 in Ho;
    destruct Ho as (_ & _ & H3 & H4 & H5 & H6 & _);
    repeat split; assumption.
Qed.

(** A tick in which a collaborator fails. *)
Lemma tick_failed_state (c : config) (e : tick_env) (g : globals) :
  (exists buf buf_hq, all_ok e buf buf_hq) \/
  (result_of (tick c e g) = Return false /\
   object_overlays (globals_of (tick c e g)) = object_overlays g /\
   object_overlays_length (globals_of (tick c e g)) = object_overlays_length g /\
   stream_width (globals_of (tick c e g)) = stream_width g /\
   stream_height (globals_of (tick c e g)) = stream_height g).
Proof.
  remember (tick c e g) as run eqn:E.
  destruct (sd_frame e) as [buf|] eqn:Hsd; [|failed_run E].
  destruct (hd_frame e) as [buf_hq|] eqn:Hhd; [|failed_run E].
  destruct (pp_ok e) eqn:Hpp; [|failed_run E].
  destruct (pp_hd_ok e) eqn:Hpphd; [|failed_run E].
  destruct (lseek_ok e Locations) eqn:H1; [|failed_run E].
  destruct (lseek_ok e Classes) eqn:H2; [|failed_run E].
  destruct (lseek_ok e Scores) eqn:H3; [|failed_run E].
  destruct (lseek_ok e NumberOfDetections) eqn:H4; [|failed_run E].
  destruct (inf_ok e) eqn:Hinf; [|failed_run E].
  left. exists buf, buf_hq. repeat split; try assumption.
  intros []; assumption.
Qed.

Lemma tick_frame (c : config) (e : tick_env) (g : globals) :
  same_frame g (globals_of (tick c e g)).
Proof.
  destruct (tick_failed_state c e g)
    as [(buf & buf_hq & Hok)|(_ & H1 & H2 & H3 & H4)].
  - rewrite (tick_ok c e g buf buf_hq Hok).
    pose proof (post_process_shape c buf buf_hq (after_inference e g)) as Hs.
    destruct (post_process c buf buf_hq (after_inference e g)) as [[t g'] r].
    apply post_run_frame in Hs. exact Hs.
  - unfold same_frame. rewrite H1, H2, H3, H4. repeat split. tauto.
Qed.

(** ** The frames of a tick *)

Lemma detection_event_not_return (c : config) (o : outputs) (lo : Z) (ev : event) :
  detection_event c o lo ev -> is_return_frame ev = false.
Proof. destruct ev; cbn; try reflexivity. tauto. Qed.

Lemma overlay_log_not_return (ev : event) :
  is_overlay_log ev = true -> is_return_frame ev = false.
Proof. destruct ev; cbn; try reflexivity. discriminate. Qed.

Lemma early_event_not_return (ev : event) :
  is_early_event ev = true -> is_return_frame ev = false.
Proof. destruct ev; cbn; try reflexivity. discriminate. Qed.

Lemma ok_prefix_not_return (c : config) (g : globals) (buf buf_hq : Z) :
  Forall (fun ev => is_return_frame ev = false) (ok_prefix c g buf buf_hq).
Proof. repeat constructor. Qed.

Lemma detection_loop_not_return (c : config) (g g1 : globals)
      (t1 : list event) (r : res unit) :
  detection_loop c DETECTION_FUEL 0 g = (t1, g1, r) ->
  Forall (fun ev => is_return_frame ev = false) t1.
Proof.
  intros E. pose proof (detection_loop_run c DETECTION_FUEL 0 g) as Hl.
  rewrite E in Hl. destruct Hl as (_ & Hev & _).
  eapply Forall_impl; [exact Hev|]. intros ev. apply detection_event_not_return.
Qed.

Lemma overlay_block_not_return (c : config) (g g2 : globals)
      (t2 : list event) (r : res unit) :
  overlay_block c g = (t2, g2, r) ->
  Forall (fun ev => is_return_frame ev = false) t2.
Proof.
  intros E. pose proof (overlay_block_run c g) as Ho.
  rewrite E in Ho. destruct Ho as (_ & _ & _ & _ & _ & _ & Hev & _).
  eapply Forall_impl; [exact Hev|]. intros ev. apply overlay_log_not_return.
Qed.

(** What [post_process] emits before it returns the frames, if it does. *)
Lemma post_run_frames (c : config) (buf buf_hq : Z) (g g' : globals)
      (t : list event) (r : res unit) :
  post_run c buf buf_hq g t g' r ->
  Forall (fun ev => is_return_frame ev = false) t \/
  (r = Return true /\ to_int (reported_count (out_mem g)) <> Some 0 /\
   exists t', t = t' ++ [EvReturnFrame SdImageProvider buf;
                         EvReturnFrame HdImageProvider buf_hq] /\
              Forall (fun ev => is_return_frame ev = false) t').
Proof.
  intros H. destruct H as [Hc|Hc|n t1 u Hc Hn E1|n t1 t2 g2 u Hc Hn E1 E2
                           |n t1 t2 g2 Hc Hn E1 E2].
  - left. constructor.
  - left. repeat constructor.
  - left. eapply detection_loop_not_return. exact E1.
  - left. apply Forall_app. split.
    + eapply detection_loop_not_return. exact E1.
    + eapply overlay_block_not_return. exact E2.
  - right. split; [reflexivity|]. split; [congruence|].
    exists (t1 ++ t2). split; [rewrite <- app_assoc; reflexivity|].
    apply Forall_app. split.
    + eapply detection_loop_not_return. exact E1.
    + eapply overlay_block_not_return. exact E2.
Qed.

(** X1. [returnFrame] is called only by a tick in which every
    collaborator succeeded, that found detections and ran to its end:
    then both frames are returned, the SD frame first, as the last two
    calls of the tick.  A tick that stops early keeps the frames that
    it acquired. *)
Theorem frames_returned_only_at_end (c : config) (e : tick_env) (g : globals)
        (p : provider) (b : Z) :
  In (EvReturnFrame p b) (trace_of (tick c e g)) ->
  result_of (tick c e g) = Return true /\
  to_int (reported_count (inf_mem e)) <> Some 0 /\
  exists buf buf_hq t,
    all_ok e buf buf_hq /\
    trace_of (tick c e g)
    = t ++ [EvReturnFrame SdImageProvider buf; EvReturnFrame HdImageProvider buf_hq] /\
    Forall (fun ev => is_return_frame ev = false) t.
Proof.
  intros Hin.
  destruct (tick_failed c e g) as [(buf & buf_hq & Hok)|(_ & Hearly & _)].
  - rewrite (tick_ok c e g buf buf_hq Hok) in Hin |- *.
    pose proof (post_process_shape c buf buf_hq (after_inference e g)) as Hs.
    destruct (post_process c buf buf_hq (after_inference e g)) as [[t g'] r].
    cbn [trace_of result_of fst snd] in Hin |- *.
    apply post_run_frames in Hs.
    destruct Hs as [Hnone|(-> & Hc & t' & -> & Hnone)].
    + exfalso. apply in_app_or in Hin as [Hin|Hin].
      * pose proof (ok_prefix_not_return c g buf buf_hq) as Hp.
        rewrite List.Forall_forall in Hp. specialize (Hp _ Hin). discriminate.
      * rewrite List.Forall_forall in Hnone. specialize (Hnone _ Hin). discriminate.
    + split; [reflexivity|]. split; [exact Hc|].
      exists buf, buf_hq, (ok_prefix c g buf buf_hq ++ t').
      split; [exact Hok|]. split; [rewrite <- app_assoc; reflexivity|].
      apply Forall_app. split; [apply ok_prefix_not_return|exact Hnone].
  - exfalso. rewrite List.Forall_forall in Hearly.
    specialize (Hearly _ Hin). discriminate.
Qed.

(** The tick over the centred box returns its two frames. *)
Lemma frames_returned_only_at_end_witness :
  result_of (tick (Ex.cfg 50 true) (Ex.good Ex.one_centered) (Ex.start 1280 720))
  = Return true /\
  to_int (reported_count (inf_mem (Ex.good Ex.one_centered))) <> Some 0 /\
  exists buf buf_hq t,
    all_ok (Ex.good Ex.one_centered) buf buf_hq /\
    trace_of (tick (Ex.cfg 50 true) (Ex.good Ex.one_centered) (Ex.start 1280 720))
    = t ++ [EvReturnFrame SdImageProvider buf; EvReturnFrame HdImageProvider buf_hq] /\
    Forall (fun ev => is_return_frame ev = false) t.
Proof.
  apply (frames_returned_only_at_end
           (Ex.cfg 50 true) (Ex.good Ex.one_centered) (Ex.start 1280 720)
           SdImageProvider 1).
  vm_compute. tauto.
Defined.

(** ** The files of a tick *)

Lemma jpeg_files_app (t1 t2 : list event) :
  jpeg_files (t1 ++ t2) = jpeg_files t1 ++ jpeg_files t2.
Proof.
  induction t1 as [|ev t1 IH]; [reflexivity|].
  destruct ev; cbn [app jpeg_files]; rewrite IH; reflexivity.
Qed.

Lemma jpeg_files_In (t : list event) (i : Z) :
  In i (jpeg_files t) -> In (EvJpegToFile i) t.
Proof.
  induction t as [|ev t IH]; [tauto|].
  destruct ev; cbn [jpeg_files]; try (intros H; right; exact (IH H)).
  intros [->|H]; [left; reflexivity|right; exact (IH H)].
Qed.

Lemma jpeg_files_none (t : list event) :
  Forall (fun ev => is_detection_output ev = false) t -> jpeg_files t = [].
Proof.
  induction 1 as [|ev t Hev Ht IH]; [reflexivity|].
  destruct ev; cbn [jpeg_files]; try exact IH. discriminate.
Qed.

Lemma crop_and_encode_files (c : config) (i : Z) (g : globals) :
  jpeg_files (trace_of (crop_and_encode c i g)) = [] \/
  jpeg_files (trace_of (crop_and_encode c i g)) = [i].
Proof.
  unfold crop_and_encode. run_m. all: cbn; auto.
Qed.

(** The detection loop writes its files in the order of the detections,
    one file for a detection at most. *)
Lemma detection_loop_files (c : config) (fuel : nat) :
  forall (i : Z) (g : globals),
  StronglySorted Z.lt (jpeg_files (trace_of (detection_loop c fuel i g))) /\
  Forall (fun j => i <= j) (jpeg_files (trace_of (detection_loop c fuel i g))).
Proof.
  induction fuel as [|fuel IH]; intros i g.
  - cbn [detection_loop]. unfold_m. rewrite read_count.
    destruct (SFltb (F32.of_Z i) (reported_count (out_mem g)));
      cbn; split; constructor.
  - cbn [detection_loop]. unfold bind at 1. unfold load_f32 at 1. unfold_m.
    rewrite read_count.
    destruct (SFltb (F32.of_Z i) (reported_count (out_mem g))); cbn [app].
    2:{ cbn. split; constructor. }
    pose proof (crop_and_encode_files c i g) as Hbody.
    pose proof (crop_and_encode_run c i g) as Hrun.
    destruct (crop_and_encode c i g) as [[t1 g1] r1].
    destruct Hrun as (-> & _).
    cbn [trace_of fst] in Hbody.
    assert (H1 : StronglySorted Z.lt (jpeg_files t1) /\
                 Forall (fun j => i <= j) (jpeg_files t1)).
    { destruct Hbody as [->| ->]; split; repeat constructor. lia. }
    destruct r1 as [[]|b|u|]; try (cbn [trace_of fst]; exact H1).
    specialize (IH (i + 1) g).
    destruct (detection_loop c fuel (i + 1) g) as [[t2 g2] r2].
    cbn [trace_of fst] in IH |- *. destruct IH as [Hs Hge].
    rewrite jpeg_files_app.
    destruct Hbody as [->| ->]; cbn [app].
    + split; [exact Hs|]. eapply Forall_impl; [exact Hge|]. cbv beta. intros; lia.
    + split.
      * constructor; [exact Hs|]. eapply Forall_impl; [exact Hge|]. cbv beta. intros; lia.
      * constructor; [lia|]. eapply Forall_impl; [exact Hge|]. cbv beta. intros; lia.
Qed.

Lemma overlay_log_not_output (ev : event) :
  is_overlay_log ev = true -> is_detection_output ev = false.
Proof. intros H. apply (overlay_log_post ev H). Qed.

Lemma early_event_not_output (ev : event) :
  is_early_event ev = true -> is_detection_output ev = false.
Proof.
  destruct ev as [| | | |m| | | |]; cbn; try reflexivity; try discriminate.
  destruct m; cbn; try reflexivity; discriminate.
Qed.

Lemma ok_prefix_files (c : config) (g : globals) (buf buf_hq : Z) :
  jpeg_files (ok_prefix c g buf buf_hq) = [].
Proof. reflexivity. Qed.

Lemma overlay_block_files (c : config) (g g2 : globals) (t2 : list event) (r : res unit) :
  overlay_block c g = (t2, g2, r) -> jpeg_files t2 = [].
Proof.
  intros E. pose proof (overlay_block_run c g) as Ho.
  rewrite E in Ho. destruct Ho as (_ & _ & _ & _ & _ & _ & Hev & _).
  apply jpeg_files_none.
  eapply Forall_impl; [exact Hev|]. intros ev. apply overlay_log_not_output.
Qed.

Lemma post_run_files (c : config) (buf buf_hq : Z) (g g' : globals)
      (t : list event) (r : res unit) :
  post_run c buf buf_hq g t g' r -> StronglySorted Z.lt (jpeg_files t).
Proof.
  intros H. destruct H as [Hc|Hc|n t1 u Hc Hn E1|n t1 t2 g2 u Hc Hn E1 E2
                           |n t1 t2 g2 Hc Hn E1 E2].
  - constructor.
  - constructor.
  - pose proof (detection_loop_files c DETECTION_FUEL 0 g) as [Hs _].
    rewrite E1 in Hs. exact Hs.
  - pose proof (detection_loop_files c DETECTION_FUEL 0 g) as [Hs _].
    rewrite E1 in Hs. rewrite jpeg_files_app, (overlay_block_files _ _ _ _ _ E2).
    rewrite app_nil_r. exact Hs.
  - pose proof (detection_loop_files c DETECTION_FUEL 0 g) as [Hs _].
    rewrite E1 in Hs.
    rewrite !jpeg_files_app, (overlay_block_files _ _ _ _ _ E2).
    cbn. rewrite app_nil_r. exact Hs.
Qed.

Lemma crop_and_encode_file_kept (c : config) (i : Z) (g : globals) :
  result_of (crop_and_encode c i g) = Next tt ->
  kept_at c (out_mem g) i = true ->
  jpeg_files (trace_of (crop_and_encode c i g)) = [i].
Proof.
  unfold crop_and_encode. run_m.
  all: cbn [app result_of trace_of fst snd]; intros Hr Hk; try discriminate.
  all: try reflexivity.
  all: cbv [kept_at] in Hk.
  all: repeat match goal with H : _ = Some _ |- _ => rewrite H in Hk end.
  all: congruence.
Qed.

(** The files of the detection loop belong to detections below the
    count. *)
Lemma detection_loop_files_below (c : config) (fuel : nat) :
  forall (i : Z) (g : globals),
  Forall (fun j => below_count (out_mem g) j = true)
         (jpeg_files (trace_of (detection_loop c fuel i g))).
Proof.
  unfold below_count.
  induction fuel as [|fuel IH]; intros i g.
  - cbn [detection_loop]. unfold_m. rewrite read_count.
    destruct (SFltb (F32.of_Z i) (reported_count (out_mem g))); cbn; constructor.
  - cbn [detection_loop]. unfold bind at 1. unfold load_f32 at 1. unfold_m.
    rewrite read_count.
    destruct (SFltb (F32.of_Z i) (reported_count (out_mem g))) eqn:Hlt; cbn [app].
    2:{ cbn. constructor. }
    pose proof (crop_and_encode_files c i g) as Hbody.
    pose proof (crop_and_encode_run c i g) as Hrun.
    destruct (crop_and_encode c i g) as [[t1 g1] r1].
    destruct Hrun as (-> & _).
    cbn [trace_of fst] in Hbody.
    assert (H1 : Forall (fun j => SFltb (F32.of_Z j) (reported_count (out_mem g)) = true)
                        (jpeg_files t1)).
    { destruct Hbody as [->| ->]; repeat constructor. exact Hlt. }
    destruct r1 as [[]|b|u|]; try (cbn [trace_of fst]; exact H1).
    specialize (IH (i + 1) g).
    destruct (detection_loop c fuel (i + 1) g) as [[t2 g2] r2].
    cbn [trace_of fst] in IH |- *.
    rewrite jpeg_files_app. apply Forall_app. split; assumption.
Qed.

(** A detection loop that runs to its end has written the file of every
    detection below the count that passes the threshold test. *)
Lemma detection_loop_files_complete (c : config) (fuel : nat) :
  forall (i : Z) (g : globals),
  result_of (detection_loop c fuel i g) = Next tt ->
  forall j, 0 <= i <= j -> j <= 20 ->
  below_count (out_mem g) j = true ->
  kept_at c (out_mem g) j = true ->
  In j (jpeg_files (trace_of (detection_loop c fuel i g))).
Proof.
  unfold below_count.
  induction fuel as [|fuel IH]; intros i g.
  - cbn [detection_loop]. unfold_m. rewrite read_count.
    destruct (SFltb (F32.of_Z i) (reported_count (out_mem g))) eqn:Hlt; cbn [app].
    + discriminate.
    + intros _ j Hi Hj Hc _.
      rewrite (SFltb_of_Z_below _ i j Hi Hj Hc) in Hlt. discriminate.
  - cbn [detection_loop]. unfold bind at 1. unfold load_f32 at 1. unfold_m.
    rewrite read_count.
    destruct (SFltb (F32.of_Z i) (reported_count (out_mem g))) eqn:Hlt; cbn [app].
    2:{ intros _ j Hi Hj Hc _.
        rewrite (SFltb_of_Z_below _ i j Hi Hj Hc) in Hlt. discriminate. }
    pose proof (crop_and_encode_run c i g) as Hbody.
    pose proof (crop_and_encode_file_kept c i g) as Hkept.
    destruct (crop_and_encode c i g) as [[t1 g1] r1].
    destruct Hbody as (-> & _). cbn [result_of trace_of fst snd] in Hkept.
    destruct r1 as [[]|b|u|]; try discriminate.
    specialize (IH (i + 1) g).
    destruct (detection_loop c fuel (i + 1) g) as [[t2 g2] r2].
    cbn [result_of trace_of fst snd] in IH |- *.
    intros Hr j Hi Hj Hc Hk. rewrite jpeg_files_app. apply in_or_app.
    destruct (Z.eq_dec j i) as [->|Hne].
    + left. rewrite (Hkept eq_refl Hk). left. reflexivity.
    + right. apply (IH Hr j); [lia|exact Hj|exact Hc|exact Hk].
Qed.

Lemma post_run_files_below (c : config) (buf buf_hq : Z) (g g' : globals)
      (t : list event) (r : res unit) :
  post_run c buf buf_hq g t g' r ->
  Forall (fun j => below_count (out_mem g) j = true) (jpeg_files t).
Proof.
  intros H. destruct H as [Hc|Hc|n t1 u Hc Hn E1|n t1 t2 g2 u Hc Hn E1 E2
                           |n t1 t2 g2 Hc Hn E1 E2].
  - constructor.
  - constructor.
  - pose proof (detection_loop_files_below c DETECTION_FUEL 0 g) as Hs.
    rewrite E1 in Hs. exact Hs.
  - pose proof (detection_loop_files_below c DETECTION_FUEL 0 g) as Hs.
    rewrite E1 in Hs. rewrite jpeg_files_app, (overlay_block_files _ _ _ _ _ E2).
    rewrite app_nil_r. exact Hs.
  - pose proof (detection_loop_files_below c DETECTION_FUEL 0 g) as Hs.
    rewrite E1 in Hs.
    rewrite !jpeg_files_app, (overlay_block_files _ _ _ _ _ E2).
    cbn. rewrite app_nil_r. exact Hs.
Qed.

(** X2. In a tick that returns, the files /tmp/detection_<i>.jpg are
    written in increasing order of [i], so no file is written twice,
    and every file belongs to a detection below the reported count that
    passes the threshold test.  When the tick has found detections and
    returns TRUE, every such detection has its file. *)
Theorem detection_files_written_once (c : config) (e : tick_env) (g : globals)
        (b : bool) :
  result_of (tick c e g) = Return b ->
  let files := jpeg_files (trace_of (tick c e g)) in
  StronglySorted Z.lt files /\
  (forall i, In i files ->
             0 <= i /\ below_count (inf_mem e) i = true /\
             kept_at c (inf_mem e) i = true) /\
  (b = true -> to_int (reported_count (inf_mem e)) <> Some 0 ->
   forall i, 0 <= i < 20 -> below_count (inf_mem e) i = true ->
             kept_at c (inf_mem e) i = true -> In i files).
Proof.
  intros Hres files. subst files.
  destruct (tick_failed c e g) as [(buf & buf_hq & Hok)|(Hf & Hearly & _)].
  - pose proof (tick_detection_outputs c e g) as Hout.
    rewrite (tick_ok c e g buf buf_hq Hok) in Hres, Hout |- *.
    pose proof (post_process_shape c buf buf_hq (after_inference e g)) as Hs.
    destruct (post_process c buf buf_hq (after_inference e g)) as [[t g'] r].
    cbn [result_of trace_of fst snd] in *. subst r.
    rewrite jpeg_files_app, ok_prefix_files. cbn [app].
    split; [eapply post_run_files; exact Hs|]. split.
    + intros i Hin.
      pose proof (post_run_files_below _ _ _ _ _ _ _ Hs) as Hbelow.
      rewrite out_mem_after_inference in Hbelow.
      rewrite List.Forall_forall in Hbelow. specialize (Hbelow i Hin).
      apply jpeg_files_In in Hin.
      assert (Hin' : In (EvJpegToFile i) (ok_prefix c g buf buf_hq ++ t))
        by (apply in_or_app; right; exact Hin).
      destruct (Hout _ Hin' eq_refl) as (Hi & Hk).
      split; [exact Hi|]. split; [exact Hbelow|exact Hk].
    + intros -> Hc i Hi Hlt Hk.
      inversion Hs as [| Hz | | |n t1 t2 g2 Hn Hne E1 E2]; subst.
      * exfalso. apply Hc. rewrite out_mem_after_inference in Hz. exact Hz.
      * pose proof (detection_loop_files_complete c DETECTION_FUEL 0
                      (after_inference e g)) as Hl.
        rewrite E1 in Hl. cbn [result_of trace_of fst snd] in Hl.
        rewrite jpeg_files_app. apply in_or_app. left.
        apply (Hl eq_refl i); [lia|lia| |];
          rewrite out_mem_after_inference; assumption.
  - rewrite jpeg_files_none.
    + split; [constructor|]. split; [intros i []|].
      intros -> . rewrite Hf in Hres. discriminate.
    + eapply Forall_impl; [exact Hearly|]. intros ev. apply early_event_not_output.
Qed.

(** The tick over the strong and the weak detection writes their two
    files, in this order. *)
Lemma detection_files_written_once_witness :
  result_of (tick (Prog.cfg 50 (1280, 720) true) (Ex.good Ex.strong_and_weak) Prog.start)
    = Return true /\
  jpeg_files (trace_of (tick (Prog.cfg 50 (1280, 720) true) (Ex.good Ex.strong_and_weak)
                             Prog.start))
    = [0; 1] /\
  StronglySorted Z.lt
    (jpeg_files (trace_of (tick (Prog.cfg 50 (1280, 720) true)
                                (Ex.good Ex.strong_and_weak) Prog.start))).
Proof.
  assert (Hres : result_of (tick (Prog.cfg 50 (1280, 720) true)
                                 (Ex.good Ex.strong_and_weak) Prog.start)
                 = Return true) by (vm_compute; reflexivity).
  split; [exact Hres|]. split; [vm_compute; reflexivity|].
  destruct (detection_files_written_once
              (Prog.cfg 50 (1280, 720) true) (Ex.good Ex.strong_and_weak) Prog.start
              true Hres) as [Hsorted _].
  exact Hsorted.
Defined.

(** ** Boxes that the threshold rejects *)

Lemma crop_and_encode_rect (c : config) (i : Z) (g : globals) :
  result_of (crop_and_encode c i g) = Next tt ->
  exists x y w h, rect_at c (out_mem g) i = Some (x, y, w, h).
Proof.
  unfold crop_and_encode. run_m.
  all: cbn [app result_of snd]; intros Hr; try discriminate.
  all: cbv [rect_at box_at].
  all: repeat match goal with H : _ = Some _ |- _ => rewrite H end.
  all: eexists _, _, _, _; reflexivity.
Qed.

Lemma detection_loop_rects (c : config) (fuel : nat) :
  forall (i : Z) (g : globals),
  result_of (detection_loop c fuel i g) = Next tt ->
  forall j, 0 <= i <= j -> j <= 20 ->
  SFltb (F32.of_Z j) (reported_count (out_mem g)) = true ->
  exists x y w h, rect_at c (out_mem g) j = Some (x, y, w, h).
Proof.
  induction fuel as [|fuel IH]; intros i g.
  - cbn [detection_loop]. unfold_m. rewrite read_count.
    destruct (SFltb (F32.of_Z i) (reported_count (out_mem g))) eqn:Hlt; cbn [app].
    + discriminate.
    + intros _ j Hi Hj Hc.
      rewrite (SFltb_of_Z_below _ i j Hi Hj Hc) in Hlt. discriminate.
  - cbn [detection_loop]. unfold bind at 1. unfold load_f32 at 1. unfold_m.
    rewrite read_count.
    destruct (SFltb (F32.of_Z i) (reported_count (out_mem g))) eqn:Hlt; cbn [app].
    2:{ intros _ j Hi Hj Hc.
        rewrite (SFltb_of_Z_below _ i j Hi Hj Hc) in Hlt. discriminate. }
    pose proof (crop_and_encode_run c i g) as Hbody.
    pose proof (crop_and_encode_rect c i g) as Hrect.
    destruct (crop_and_encode c i g) as [[t1 g1] r1].
    destruct Hbody as (-> & _). cbn [result_of snd] in Hrect.
    destruct r1 as [[]|b|u|]; try discriminate.
    specialize (IH (i + 1) g).
    destruct (detection_loop c fuel (i + 1) g) as [[t2 g2] r2].
    cbn [result_of snd] in IH |- *.
    intros Hr j Hi Hj Hc.
    destruct (Z.eq_dec j i) as [->|Hne].
    + apply Hrect. reflexivity.
    + apply (IH Hr j); [lia|exact Hj|exact Hc].
Qed.

(** X3. The crop rectangle of a detection is computed, and converted
    to [unsigned int], before its score is compared with the threshold:
    in a tick that runs to its end every detection below the count has a
    rectangle whose four values convert, also a detection that the
    threshold rejects. *)
Theorem rectangle_converted_before_threshold
        (c : config) (e : tick_env) (g : globals) (j : Z) :
  result_of (tick c e g) = Return true ->
  to_int (reported_count (inf_mem e)) <> Some 0 ->
  0 <= j <= 20 ->
  SFltb (F32.of_Z j) (reported_count (inf_mem e)) = true ->
  exists x y w h, rect_at c (inf_mem e) j = Some (x, y, w, h).
Proof.
  intros Hres Hc Hj Hlt.
  destruct (tick_failed c e g) as [(buf & buf_hq & Hok)|(H & _)]; [|congruence].
  rewrite (tick_ok c e g buf buf_hq Hok) in Hres.
  pose proof (post_process_shape c buf buf_hq (after_inference e g)) as Hs.
  destruct (post_process c buf buf_hq (after_inference e g)) as [[t g'] r].
  cbn [result_of snd] in Hres. subst r.
  inversion Hs as [| Hz | | |n t1 t2 g2 Hn Hne E1 E2]; subst.
  - exfalso. apply Hc. exact Hz.
  - pose proof (detection_loop_rects c DETECTION_FUEL 0 (after_inference e g)) as Hl.
    rewrite E1 in Hl.
    apply (Hl eq_refl j); [lia|lia|exact Hlt].
Qed.

(** The weak detection of the two, which a threshold of 50 rejects. *)
Lemma rectangle_converted_before_threshold_witness :
  kept_at (Ex.cfg 50 true) Ex.strong_and_weak 1 = false /\
  exists x y w h,
    rect_at (Ex.cfg 50 true) (inf_mem (Ex.good Ex.strong_and_weak)) 1
    = Some (x, y, w, h).
Proof.
  split; [vm_compute; reflexivity|].
  apply (rectangle_converted_before_threshold
           (Ex.cfg 50 true) (Ex.good Ex.strong_and_weak) (Ex.start 1280 720) 1).
  - vm_compute. reflexivity.
  - vm_compute. discriminate.
  - lia.
  - vm_compute. reflexivity.
Defined.

(** A detection that a threshold of 50 rejects, with a box whose right
    edge lies left of its left edge: the tick has no defined
    behaviour. *)
Lemma rejected_box_still_converted :
  kept_at (Ex.cfg 50 true)
          (Ex.tensors [Ex.f0_25; Ex.f0_75; Ex.f0_75; Ex.f0_25] [Ex.f3_0] [Ex.f0_3] Ex.f1_0)
          0 = false /\
  exists f,
    result_of (tick (Ex.cfg 50 true)
                    (Ex.good (Ex.tensors [Ex.f0_25; Ex.f0_75; Ex.f0_75; Ex.f0_25]
                                         [Ex.f3_0] [Ex.f0_3] Ex.f1_0))
                    (Ex.start 1280 720))
    = Undefined (UbFloatToInt f).
Proof.
  split; [vm_compute; reflexivity|]. eexists. vm_compute. reflexivity.
Qed.

(** ** The overlay records and the crop rectangles *)

(** X4. In a tick that runs to its end with the overlay compiled in,
    record [k] holds the rectangle of detection [k] in pixels of the HD
    frame: its left and top are [crop_x] and [crop_y], its right and
    bottom are [crop_x + crop_w] and [crop_y + crop_h] (32-bit sums read
    as [int]); it holds the label of the class of the detection, which
    has fewer than 50 bytes.  The stream size plays no part. *)
Theorem overlay_record_is_crop_rectangle (c : config) (e : tick_env) (g : globals)
        (buf buf_hq k : Z) :
  all_ok e buf buf_hq ->
  overlay_build c = true ->
  to_int (reported_count (inf_mem e)) <> Some 0 ->
  result_of (tick c e g) = Return true ->
  0 <= k < object_overlays_length (globals_of (tick c e g)) ->
  exists rec x y w h label,
    overlay_output (globals_of (tick c e g)) !! Z.to_nat k = Some rec /\
    rect_at c (inf_mem e) k = Some (x, y, w, h) /\
    ov_left rec = uint_to_int x /\ ov_top rec = uint_to_int y /\
    ov_right rec = uint_to_int (wrap_uint (x + w)) /\
    ov_bottom rec = uint_to_int (wrap_uint (y + h)) /\
    label_at c (inf_mem e) k = Some label /\ ov_class rec = label /\
    Z.of_nat (String.length label) < CLASS_BUFFER_SIZE.
Proof.
  intros Hok Hov Hcount Hres Hk.
  destruct (tick_overlay_records c e g buf buf_hq Hok Hov Hcount Hres) as [_ Hall].
  destruct (Hall k Hk) as (old & rec & _ & Hrec & Hlook).
  apply overlay_at_inv in Hrec
    as (x & y & w & h & label & sc & Hrect & Hlabel & _ & Hlen
        & Htop & Hleft & Hbottom & Hright & Hclass & _).
  exists rec, x, y, w, h, label. repeat split; assumption.
Qed.

(** The record of the centred box of an HD frame of 1280x720. *)
Lemma overlay_record_is_crop_rectangle_witness :
  exists rec x y w h label,
    overlay_output
      (globals_of (tick (Ex.cfg 50 true) (Ex.good Ex.one_centered) (Ex.start 640 360)))
      !! Z.to_nat 0 = Some rec /\
    rect_at (Ex.cfg 50 true) (inf_mem (Ex.good Ex.one_centered)) 0 = Some (x, y, w, h) /\
    ov_left rec = uint_to_int x /\ ov_top rec = uint_to_int y /\
    ov_right rec = uint_to_int (wrap_uint (x + w)) /\
    ov_bottom rec = uint_to_int (wrap_uint (y + h)) /\
    label_at (Ex.cfg 50 true) (inf_mem (Ex.good Ex.one_centered)) 0 = Some label /\
    ov_class rec = label /\
    Z.of_nat (String.length label) < CLASS_BUFFER_SIZE.
Proof.
  apply (overlay_record_is_crop_rectangle
           (Ex.cfg 50 true) (Ex.good Ex.one_centered) (Ex.start 640 360) 1 2 0).
  - repeat split; reflexivity.
  - reflexivity.
  - vm_compute. discriminate.
  - vm_compute. reflexivity.
  - vm_compute. split; [discriminate|reflexivity].
Defined.

(** ** Labels that do not fit the overlay record *)

Lemma crop_and_encode_no_strcpy (c : config) (i : Z) (g : globals) (label : string) :
  result_of (crop_and_encode c i g) <> Undefined (UbStrcpy label).
Proof. unfold crop_and_encode. run_m. all: cbn; discriminate. Qed.

Lemma detection_loop_no_strcpy (c : config) (label : string) (fuel : nat) :
  forall (i : Z) (g : globals),
  result_of (detection_loop c fuel i g) <> Undefined (UbStrcpy label).
Proof.
  induction fuel as [|fuel IH]; intros i g.
  - cbn [detection_loop]. unfold_m. rewrite read_count.
    destruct (SFltb (F32.of_Z i) (reported_count (out_mem g))); cbn; discriminate.
  - cbn [detection_loop]. unfold bind at 1. unfold load_f32 at 1. unfold_m.
    rewrite read_count.
    destruct (SFltb (F32.of_Z i) (reported_count (out_mem g))); cbn [app];
      [|cbn; discriminate].
    pose proof (crop_and_encode_no_strcpy c i g label) as Hbody.
    pose proof (crop_and_encode_run c i g) as Hrun.
    destruct (crop_and_encode c i g) as [[t1 g1] r1].
    destruct Hrun as (-> & _). cbn [result_of snd] in Hbody.
    destruct r1 as [[]|b|u|]; try (cbn; congruence).
    specialize (IH (i + 1) g).
    destruct (detection_loop c fuel (i + 1) g) as [[t2 g2] r2]. exact IH.
Qed.

Lemma update_overlay_strcpy (c : config) (i : Z) (g : globals) (label : string) :
  result_of (update_overlay c i g) = Undefined (UbStrcpy label) ->
  CLASS_BUFFER_SIZE <= Z.of_nat (String.length label) /\
  label_at c (out_mem g) i = Some label.
Proof.
  unfold update_overlay, get_coordinates. run_m.
  all: cbn [app result_of snd]; try discriminate.
  intros H; inversion H; subst.
  split.
  - match goal with
    | Hlt : (_ <? CLASS_BUFFER_SIZE) = false |- _ => apply Z.ltb_ge in Hlt; exact Hlt
    end.
  - cbv [label_at].
    repeat match goal with Hs : _ = Some _ |- _ => rewrite Hs end.
    reflexivity.
Qed.

Lemma overlay_loop_strcpy (c : config) (label : string) (n : nat) :
  forall (i : Z) (g : globals), 0 <= i ->
  result_of (overlay_loop c n i g) = Undefined (UbStrcpy label) ->
  CLASS_BUFFER_SIZE <= Z.of_nat (String.length label) /\
  exists k, i <= k < i + Z.of_nat n /\ label_at c (out_mem g) k = Some label.
Proof.
  induction n as [|n IH]; intros i g Hi.
  - cbn. discriminate.
  - cbn [overlay_loop]. unfold bind at 1.
    pose proof (update_overlay_strcpy c i g label) as Hs.
    pose proof (update_overlay_run c i g) as Hbody.
    destruct (update_overlay c i g) as [[t1 g1] r1].
    destruct Hbody as (_ & Hret & Hfuel & _ & Hg).
    cbn [result_of snd] in Hs.
    destruct r1 as [[]|b|u|]; cbn [result_of snd].
    + destruct Hg as (_ & old & rec & _ & _ & ->).
      specialize (IH (i + 1) (set_overlays g (<[Z.to_nat i:=rec]> (object_overlays g)))
                     ltac:(lia)).
      destruct (overlay_loop c n (i + 1) _) as [[t2 g2] r2].
      cbn [result_of snd set_overlays out_mem] in IH |- *.
      intros H. destruct (IH H) as (Hlen & k & Hk & Hl).
      split; [exact Hlen|]. exists k. split; [lia|exact Hl].
    + discriminate.
    + intros H. destruct (Hs H) as [Hlen Hl].
      split; [exact Hlen|]. exists i. split; [lia|exact Hl].
    + discriminate.
Qed.

Lemma overlay_block_strcpy (c : config) (g : globals) (label : string) :
  result_of (overlay_block c g) = Undefined (UbStrcpy label) ->
  CLASS_BUFFER_SIZE <= Z.of_nat (String.length label) /\
  exists k, 0 <= k < 5 /\ label_at c (out_mem g) k = Some label.
Proof.
  unfold overlay_block. destruct (overlay_build c); [|cbn; discriminate].
  unfold update_overlays. unfold_m. rewrite read_count. cbn [app].
  set (len := if SFltb (reported_count (out_mem g)) (F32.of_Z OBJECT_OVERLAYS_MAX_LENGTH)
              then reported_count (out_mem g) else F32.of_Z OBJECT_OVERLAYS_MAX_LENGTH).
  destruct (to_size_t len) as [n|] eqn:Hn; cbn [app]; [|cbn; discriminate].
  assert (Hn5 : 0 <= n <= 5).
  { unfold reported_count in len. apply (overlay_length_bound _ _ Hn). }
  pose proof (overlay_loop_strcpy c label (Z.to_nat n) 0 (set_overlays_length g n)
                ltac:(lia)) as H.
  destruct (overlay_loop c (Z.to_nat n) 0 (set_overlays_length g n)) as [[t2 g2] r2].
  cbn [result_of snd set_overlays_length out_mem] in H |- *.
  intros Hr. destruct (H Hr) as (Hlen & k & Hk & Hl).
  split; [exact Hlen|]. exists k. split; [lia|exact Hl].
Qed.

(** X5. The overlay loop copies the label of a detection into the 50
    bytes of [class] with [strcpy]: when a tick overruns that field, the
    label at fault has 50 bytes or more and is the label of one of the
    first five detections. *)
Theorem long_label_overruns_class (c : config) (e : tick_env) (g : globals)
        (label : string) :
  result_of (tick c e g) = Undefined (UbStrcpy label) ->
  CLASS_BUFFER_SIZE <= Z.of_nat (String.length label) /\
  In label (labels c) /\
  exists k, 0 <= k < 5 /\ label_at c (inf_mem e) k = Some label.
Proof.
  intros Hr.
  assert (H : CLASS_BUFFER_SIZE <= Z.of_nat (String.length label) /\
              exists k, 0 <= k < 5 /\ label_at c (inf_mem e) k = Some label).
  { destruct (tick_failed c e g) as [(buf & buf_hq & Hok)|(Hf & _)];
      [|rewrite Hf in Hr; discriminate].
    rewrite (tick_ok c e g buf buf_hq Hok) in Hr.
    pose proof (post_process_shape c buf buf_hq (after_inference e g)) as Hs.
    destruct (post_process c buf buf_hq (after_inference e g)) as [[t g'] r].
    cbn [result_of snd] in Hr. subst r.
    inversion Hs as [Hc Ht Hg Hu| | n t1 u Hc Hn E1 | n t1 t2 g2 u Hc Hn E1 E2 | ]; subst.
    - pose proof (detection_loop_no_strcpy c label DETECTION_FUEL 0 (after_inference e g))
        as Hno.
      rewrite E1 in Hno. exfalso. apply Hno. reflexivity.
    - pose proof (overlay_block_strcpy c (after_inference e g) label) as Hb.
      rewrite E2 in Hb. apply Hb. reflexivity. }
  destruct H as (Hlen & k & Hk & Hl).
  split; [exact Hlen|]. split; [|exists k; split; assumption].
  unfold label_at in Hl.
  destruct (read_f32 (inf_mem e) Classes k) as [cls|]; [|discriminate].
  destruct (to_int cls) as [idx|]; [|discriminate].
  destruct (0 <=? idx); [|discriminate].
  apply list_elem_of_lookup_2 in Hl. apply list_elem_of_In. exact Hl.
Qed.

(** A tick over one detection whose label has 60 bytes. *)
Lemma long_label_overruns_class_witness :
  CLASS_BUFFER_SIZE <= Z.of_nat (String.length Ex.line_of_60) /\
  In Ex.line_of_60 [Ex.line_of_60] /\
  exists k, 0 <= k < 5 /\
    label_at {| widthFrameHD := 1280; heightFrameHD := 720;
                desiredHDImgWidth := 1280; desiredHDImgHeight := 720;
                yuyvBufferSize := 135000; threshold := 50; quality := 80;
                labels := [Ex.line_of_60]; overlay_build := true |}
             (inf_mem (Ex.good (Ex.tensors [Ex.f0_25; Ex.f0_25; Ex.f0_75; Ex.f0_75]
                                           [Ex.f0_0] [Ex.f0_9] Ex.f1_0))) k
    = Some Ex.line_of_60.
Proof.
  apply (long_label_overruns_class
           {| widthFrameHD := 1280; heightFrameHD := 720;
              desiredHDImgWidth := 1280; desiredHDImgHeight := 720;
              yuyvBufferSize := 135000; threshold := 50; quality := 80;
              labels := [Ex.line_of_60]; overlay_build := true |}
           (Ex.good (Ex.tensors [Ex.f0_25; Ex.f0_25; Ex.f0_75; Ex.f0_75]
                                [Ex.f0_0] [Ex.f0_9] Ex.f1_0))
           (Ex.start 1280 720) Ex.line_of_60).
  vm_compute. reflexivity.
Defined.

(** ** Ticks over well-formed tensors *)

Lemma shiftl_neg (m e : Z) : e < 0 -> Z.shiftl m e = m / 2 ^ (- e).
Proof.
  intros He. rewrite <- Z.shiftr_div_pow2, <- Z.shiftl_opp_r, Z.opp_involutive by lia.
  reflexivity.
Qed.

(** An index below the integral part of a positive [float] is below the
    [float], for the indices of the overlay loop. *)
Lemma below_trunc (w k z : Z) :
  trunc (F32.of_bits w) = Some z -> 0 <= k < z -> k <= 4 ->
  SFltb (F32.of_Z k) (F32.of_bits w) = true.
Proof.
  intros Ht Hk Hk4.
  destruct (F32.of_bits w) as [s|s| |s m e] eqn:Hw; cbn [trunc] in Ht;
    try discriminate.
  - inversion Ht; lia.
  - destruct (of_bits_finite _ _ _ _ Hw) as (Hm & He & Hn).
    inversion Ht as [Hz]; clear Ht.
    destruct s; cbn [cond_Zopp] in Hz.
    { pose proof (Z.shiftl_nonneg (Z.pos m) e) as Hnn. lia. }
    assert (Hge : k + 1 <= Z.shiftl (Z.pos m) e) by lia.
    assert (Hk0 : 0 <= k) by lia. clear Hz Hk.
    assert (He23 : -24 < e).
    { destruct (Z.le_gt_cases e (-24)) as [Hle|]; [|lia]. exfalso.
      rewrite shiftl_neg in Hge by lia.
      assert (2 ^ 24 <= 2 ^ (- e)) by (apply Z.pow_le_mono_r; lia).
      assert (Z.pos m / 2 ^ (- e) = 0) by (apply Z.div_small; lia).
      lia. }
    destruct Hn as [->|Hn]; [lia|].
    assert (Hcase : k = 0 \/ k = 1 \/ k = 2 \/ k = 3 \/ k = 4) by lia.
    assert (Hpow : forall d, 0 < d -> e = - d -> k + 1 <= Z.pos m / 2 ^ d).
    { intros d Hd ->. rewrite shiftl_neg in Hge by lia.
      rewrite Z.opp_involutive in Hge. exact Hge. }
    unfold SFltb.
    destruct Hcase as [->|[->|[->|[->| ->]]]].
    + reflexivity.
    + change (F32.of_Z 1) with (S754_finite false 8388608 (-23)).
      unfold SFcompare. destruct (Z.compare_spec (-23) e) as [E|E|E]; [|reflexivity|lia].
      subst e. specialize (Hpow 23 ltac:(lia) eq_refl).
      change (2 ^ 23) with 8388608 in Hpow. change (2 ^ 24) with 16777216 in Hm.
      assert (Z.pos m / 8388608 < 2) by (apply Z.div_lt_upper_bound; lia). lia.
    + change (F32.of_Z 2) with (S754_finite false 8388608 (-22)).
      unfold SFcompare. destruct (Z.compare_spec (-22) e) as [E|E|E]; [|reflexivity|].
      * subst e. specialize (Hpow 22 ltac:(lia) eq_refl).
        change (2 ^ 22) with 4194304 in Hpow.
        change (Pos.compare_cont Eq) with Pos.compare.
        destruct (Pos.compare_spec 8388608 m) as [E|E|E]; [|reflexivity|].
        -- subst m. vm_compute in Hpow. exfalso. apply Hpow. reflexivity.
        -- apply Pos2Z.pos_lt_pos in E.
           assert (Z.pos m / 4194304 < 2) by (apply Z.div_lt_upper_bound; lia). lia.
      * assert (e = -23) by lia. subst e. specialize (Hpow 23 ltac:(lia) eq_refl).
        change (2 ^ 23) with 8388608 in Hpow. change (2 ^ 24) with 16777216 in Hm.
        assert (Z.pos m / 8388608 < 2) by (apply Z.div_lt_upper_bound; lia). lia.
    + change (F32.of_Z 3) with (S754_finite false 12582912 (-22)).
      unfold SFcompare. destruct (Z.compare_spec (-22) e) as [E|E|E]; [|reflexivity|].
      * subst e. specialize (Hpow 22 ltac:(lia) eq_refl).
        change (2 ^ 22) with 4194304 in Hpow. change (2 ^ 24) with 16777216 in Hm.
        assert (Z.pos m / 4194304 < 4) by (apply Z.div_lt_upper_bound; lia). lia.
      * assert (e = -23) by lia. subst e. specialize (Hpow 23 ltac:(lia) eq_refl).
        change (2 ^ 23) with 8388608 in Hpow. change (2 ^ 24) with 16777216 in Hm.
        assert (Z.pos m / 8388608 < 2) by (apply Z.div_lt_upper_bound; lia). lia.
    + change (F32.of_Z 4) with (S754_finite false 8388608 (-21)).
      unfold SFcompare. destruct (Z.compare_spec (-21) e) as [E|E|E]; [|reflexivity|].
      * subst e. specialize (Hpow 21 ltac:(lia) eq_refl).
        change (2 ^ 21) with 2097152 in Hpow.
        change (Pos.compare_cont Eq) with Pos.compare.
        destruct (Pos.compare_spec 8388608 m) as [E|E|E]; [|reflexivity|].
        -- subst m. vm_compute in Hpow. exfalso. apply Hpow. reflexivity.
        -- apply Pos2Z.pos_lt_pos in E.
           assert (Z.pos m / 2097152 < 4) by (apply Z.div_lt_upper_bound; lia). lia.
      * assert (He' : e = -22 \/ e = -23) by lia. destruct He' as [-> | ->].
        -- specialize (Hpow 22 ltac:(lia) eq_refl).
           change (2 ^ 22) with 4194304 in Hpow. change (2 ^ 24) with 16777216 in Hm.
           assert (Z.pos m / 4194304 < 4) by (apply Z.div_lt_upper_bound; lia). lia.
        -- specialize (Hpow 23 ltac:(lia) eq_refl).
           change (2 ^ 23) with 8388608 in Hpow. change (2 ^ 24) with 16777216 in Hm.
           assert (Z.pos m / 8388608 < 2) by (apply Z.div_lt_upper_bound; lia). lia.
Qed.

Lemma to_int_trunc (f : spec_float) (n : Z) :
  to_int f = Some n -> trunc f = Some n /\ - 2 ^ 31 <= n < 2 ^ 31.
Proof.
  unfold to_int, in_range. destruct (trunc f) as [z|]; [|discriminate].
  destruct ((- 2 ^ 31 <=? z) && (z <? 2 ^ 31)) eqn:E; [|discriminate].
  intros H; inversion H; subst. apply andb_true_iff in E as [E1 E2].
  split; [reflexivity|lia].
Qed.

(** A count that is not below 5 has an integral part of 5 at least. *)
Lemma trunc_not_below_5 (w n : Z) :
  trunc (F32.of_bits w) = Some n -> 1 <= n ->
  SFltb (F32.of_bits w) (F32.of_Z OBJECT_OVERLAYS_MAX_LENGTH) = false ->
  5 <= n.
Proof.
  intros Ht Hn.
  change (F32.of_Z OBJECT_OVERLAYS_MAX_LENGTH) with (S754_finite false 10485760 (-21)).
  destruct (F32.of_bits w) as [s|s| |s m e] eqn:Hw; cbn [trunc] in Ht;
    try discriminate.
  destruct (of_bits_finite _ _ _ _ Hw) as (Hm & He & Hnorm).
  injection Ht as Hz.
  destruct s; cbn [cond_Zopp] in Hz.
  { pose proof (Z.shiftl_nonneg (Z.pos m) e) as Hnn. lia. }
  { intros Hlt. unfold SFltb, SFcompare in Hlt.
    change (Pos.compare_cont Eq) with Pos.compare in Hlt.
    destruct (Z.compare_spec e (-21)) as [E|E|E]; [|discriminate|].
    + subst e. destruct (Pos.compare_spec m 10485760) as [Em|Em|Em]; try discriminate.
      * subst m. vm_compute in Hz. lia.
      * apply Pos2Z.pos_lt_pos in Em. rewrite shiftl_neg in Hz by lia.
        change (2 ^ (- -21)) with 2097152 in Hz.
        assert (5 <= Z.pos m / 2097152) by (apply Z.div_le_lower_bound; lia). lia.
    + destruct Hnorm as [->|Hnorm]; [lia|].
      destruct (Z.le_gt_cases 0 e) as [Hpos|Hneg].
      * rewrite Z.shiftl_mul_pow2 in Hz by lia.
        assert (0 < 2 ^ e) by (apply Z.pow_pos_nonneg; lia).
        change (2 ^ 23) with 8388608 in Hnorm. nia.
      * rewrite shiftl_neg in Hz by lia.
        assert (H20 : 2 ^ (- e) <= 2 ^ 20) by (apply Z.pow_le_mono_r; lia).
        assert (Hp : 0 < 2 ^ (- e)) by (apply Z.pow_pos_nonneg; lia).
        change (2 ^ 20) with 1048576 in H20. change (2 ^ 23) with 8388608 in Hnorm.
        assert (5 <= Z.pos m / 2 ^ (- e)) by (apply Z.div_le_lower_bound; nia). lia. }
Qed.

(** The length of the overlay loop for a count of 1 at least: it is
    defined, and every index below it lies below the count. *)
Lemma overlay_length_defined (o : outputs) (n : Z) :
  to_int (reported_count o) = Some n -> 1 <= n ->
  exists olen,
    to_size_t (if SFltb (reported_count o) (F32.of_Z OBJECT_OVERLAYS_MAX_LENGTH)
               then reported_count o else F32.of_Z OBJECT_OVERLAYS_MAX_LENGTH)
    = Some olen /\
    0 <= olen <= 5 /\
    forall k, 0 <= k < olen -> below_count o k = true.
Proof.
  unfold below_count, reported_count. set (w := default 0 (larodOutput4 o !! 0%nat)).
  intros Hint Hn. apply to_int_trunc in Hint as [Ht Hr].
  destruct (SFltb (F32.of_bits w) (F32.of_Z OBJECT_OVERLAYS_MAX_LENGTH)) eqn:Hlt.
  - assert (Hs : to_size_t (F32.of_bits w) = Some n).
    { unfold to_size_t, in_range. rewrite Ht.
      destruct (Z.leb_spec 0 n); [|lia].
      destruct (Z.ltb_spec n (2 ^ 64)); [reflexivity|lia]. }
    exists n. split; [exact Hs|].
    assert (Hb : 0 <= n <= 5).
    { apply (overlay_length_bound w n). rewrite Hlt. exact Hs. }
    split; [exact Hb|].
    intros k Hk. apply (below_trunc w k n Ht); lia.
  - exists 5. split; [reflexivity|]. split; [lia|].
    intros k Hk. pose proof (trunc_not_below_5 w n Ht Hn Hlt) as H5.
    apply (below_trunc w k n Ht); lia.
Qed.

(** ** A tick over well-formed tensors *)

Lemma crop_and_encode_defined (c : config) (i : Z) (g : globals) :
  0 <= i < 20 ->
  (exists r, rect_at c (out_mem g) i = Some r) ->
  (kept_at c (out_mem g) i = true -> exists l, label_at c (out_mem g) i = Some l) ->
  result_of (crop_and_encode c i g) = Next tt.
Proof.
  intros Hi [r Hr] Hlabel.
  unfold crop_and_encode. run_m.
  all: cbn [app result_of snd]; try reflexivity.
  all: exfalso.
  all: try bounds.
  all: try (revert Hr; cbv [rect_at box_at];
            repeat match goal with H : _ = _ |- _ => rewrite H end;
            discriminate).
  all: destruct Hlabel as [l Hl];
    [ cbv [kept_at];
      repeat match goal with H : _ = Some _ |- _ => rewrite H end; assumption
    | revert Hl; cbv [label_at];
      repeat match goal with H : _ = _ |- _ => rewrite H end;
      discriminate ].
Qed.

Lemma detection_loop_defined (c : config) (fuel : nat) :
  forall (i : Z) (g : globals),
  0 <= i <= 20 -> 21 <= Z.of_nat fuel + i ->
  SFleb (reported_count (out_mem g)) (F32.of_Z 20) = true ->
  (forall j, i <= j < 20 -> below_count (out_mem g) j = true ->
             exists r, rect_at c (out_mem g) j = Some r) ->
  (forall j, i <= j < 20 -> below_count (out_mem g) j = true ->
             kept_at c (out_mem g) j = true ->
             exists l, label_at c (out_mem g) j = Some l) ->
  result_of (detection_loop c fuel i g) = Next tt.
Proof.
  induction fuel as [|fuel IH]; intros i g Hi Hfuel H20 Hrect Hlabel.
  - cbn [detection_loop]. unfold_m. rewrite read_count.
    destruct (SFltb (F32.of_Z i) (reported_count (out_mem g))) eqn:Hlt; cbn [app];
      [|reflexivity].
    assert (i = 20) by lia. subst i.
    apply SFleb_not_ltb in H20. congruence.
  - cbn [detection_loop]. unfold bind at 1. unfold load_f32 at 1. unfold_m.
    rewrite read_count.
    destruct (SFltb (F32.of_Z i) (reported_count (out_mem g))) eqn:Hlt; cbn [app];
      [|reflexivity].
    assert (Hi20 : i < 20).
    { destruct (Z.eq_dec i 20) as [->|]; [|lia].
      apply SFleb_not_ltb in H20. congruence. }
    pose proof (crop_and_encode_defined c i g ltac:(lia)
                  (Hrect i ltac:(lia) Hlt) (Hlabel i ltac:(lia) Hlt)) as Hbody.
    pose proof (crop_and_encode_run c i g) as Hrun.
    destruct (crop_and_encode c i g) as [[t1 g1] r1].
    destruct Hrun as (-> & _). cbn [result_of snd] in Hbody. subst r1.
    specialize (IH (i + 1) g ltac:(lia) ltac:(lia) H20).
    destruct (detection_loop c fuel (i + 1) g) as [[t2 g2] r2].
    cbn [result_of snd] in IH |- *. apply IH.
    + intros j Hj. apply Hrect. lia.
    + intros j Hj. apply Hlabel. lia.
Qed.

Lemma update_overlay_defined (c : config) (i : Z) (g : globals) :
  0 <= i < 20 ->
  (Z.to_nat i < length (object_overlays g))%nat ->
  (exists r, rect_at c (out_mem g) i = Some r) ->
  (exists l, label_at c (out_mem g) i = Some l /\
             Z.of_nat (String.length l) < CLASS_BUFFER_SIZE) ->
  result_of (update_overlay c i g) = Next tt.
Proof.
  intros Hi Hlen [r Hr] (l & Hl & Hshort).
  unfold update_overlay, get_coordinates. run_m.
  all: cbn [app result_of snd]; try reflexivity.
  all: exfalso.
  all: try bounds.
  all: try (revert Hr; cbv [rect_at box_at];
            repeat match goal with H : _ = _ |- _ => rewrite H end;
            discriminate).
  all: try (revert Hl; cbv [label_at];
            repeat match goal with H : _ = _ |- _ => rewrite H end;
            discriminate).
  all: try (destruct (Z.leb_spec 0 i); [|lia];
            match goal with H : _ !! _ = None |- _ => apply lookup_ge_None in H end;
            lia).
  all: revert Hl; cbv [label_at];
    repeat match goal with H : _ = Some _ |- _ => rewrite H end;
    intros E; inversion E; subst;
    match goal with H : (_ <? _) = false |- _ => apply Z.ltb_ge in H end; lia.
Qed.

Lemma overlay_loop_defined (c : config) (n : nat) :
  forall (i : Z) (g : globals),
  0 <= i -> i + Z.of_nat n <= 20 ->
  (Z.to_nat i + n <= length (object_overlays g))%nat ->
  (forall k, i <= k < i + Z.of_nat n ->
             (exists r, rect_at c (out_mem g) k = Some r) /\
             exists l, label_at c (out_mem g) k = Some l /\
                       Z.of_nat (String.length l) < CLASS_BUFFER_SIZE) ->
  result_of (overlay_loop c n i g) = Next tt.
Proof.
  induction n as [|n IH]; intros i g Hi H20 Hlen Hall; [reflexivity|].
  cbn [overlay_loop]. unfold bind at 1.
  destruct (Hall i ltac:(lia)) as [Hr Hl].
  pose proof (update_overlay_defined c i g ltac:(lia) ltac:(lia) Hr Hl) as Hbody.
  pose proof (update_overlay_run c i g) as Hrun.
  destruct (update_overlay c i g) as [[t1 g1] r1].
  cbn [result_of snd] in Hbody. subst r1.
  destruct Hrun as (_ & _ & _ & _ & _ & old & rec & _ & _ & ->).
  specialize (IH (i + 1) (set_overlays g (<[Z.to_nat i:=rec]> (object_overlays g)))
                 ltac:(lia) ltac:(lia)).
  cbn [set_overlays object_overlays out_mem] in IH.
  rewrite length_insert in IH.
  destruct (overlay_loop c n (i + 1) _) as [[t2 g2] r2].
  cbn [result_of snd] in IH |- *. apply IH; [lia|].
  intros k Hk. apply Hall. lia.
Qed.

Lemma overlay_block_defined (c : config) (g : globals) (n : Z) :
  to_int (reported_count (out_mem g)) = Some n -> 1 <= n ->
  (overlay_build c = true ->
   (5 <= length (object_overlays g))%nat /\
   forall k, 0 <= k < 5 -> below_count (out_mem g) k = true ->
             (exists r, rect_at c (out_mem g) k = Some r) /\
             exists l, label_at c (out_mem g) k = Some l /\
                       Z.of_nat (String.length l) < CLASS_BUFFER_SIZE) ->
  result_of (overlay_block c g) = Next tt.
Proof.
  intros Hn H1 Hov. unfold overlay_block.
  destruct (overlay_build c); [|reflexivity].
  destruct (Hov eq_refl) as [Hlen Hall].
  unfold update_overlays. unfold_m. rewrite read_count. cbn [app].
  destruct (overlay_length_defined (out_mem g) n Hn H1) as (olen & -> & Hb & Hbelow).
  cbn [app].
  pose proof (overlay_loop_defined c (Z.to_nat olen) 0 (set_overlays_length g olen)
                ltac:(lia) ltac:(lia)) as Hloop.
  cbn [set_overlays_length object_overlays out_mem] in Hloop.
  destruct (overlay_loop c (Z.to_nat olen) 0 (set_overlays_length g olen))
    as [[t2 g2] r2].
  cbn [result_of snd] in Hloop |- *. apply Hloop; [lia|].
  intros k Hk. apply Hall; [lia|]. apply Hbelow. lia.
Qed.

Lemma post_process_defined (c : config) (buf buf_hq : Z) (g : globals) (n : Z) :
  to_int (reported_count (out_mem g)) = Some n -> 0 <= n ->
  SFleb (reported_count (out_mem g)) (F32.of_Z 20) = true ->
  (forall i, 0 <= i < 20 -> below_count (out_mem g) i = true ->
             exists r, rect_at c (out_mem g) i = Some r) ->
  (forall i, 0 <= i < 20 -> below_count (out_mem g) i = true ->
             kept_at c (out_mem g) i = true ->
             exists l, label_at c (out_mem g) i = Some l) ->
  (overlay_build c = true ->
   (5 <= length (object_overlays g))%nat /\
   forall k, 0 <= k < 5 -> below_count (out_mem g) k = true ->
             exists l, label_at c (out_mem g) k = Some l /\
                       Z.of_nat (String.length l) < CLASS_BUFFER_SIZE) ->
  result_of (post_process c buf buf_hq g) = Return true.
Proof.
  intros Hn Hn0 H20 Hrect Hlabel Hov.
  unfold post_process. unfold bind at 1. unfold load_f32 at 1. unfold_m.
  rewrite read_count, Hn. cbn [app].
  destruct (Z.eqb_spec n 0) as [->|Hne]; cbn [app]; [reflexivity|].
  pose proof (detection_loop_defined c DETECTION_FUEL 0 g ltac:(lia)
                ltac:(unfold DETECTION_FUEL; lia) H20 Hrect Hlabel) as Hloop.
  pose proof (detection_loop_run c DETECTION_FUEL 0 g) as Hrun.
  destruct (detection_loop c DETECTION_FUEL 0 g) as [[t1 g1] r1].
  destruct Hrun as (-> & _). cbn [result_of snd] in Hloop. subst r1.
  assert (Hblock : result_of (overlay_block c g) = Next tt).
  { apply (overlay_block_defined c g n Hn); [lia|].
    intros Hb. destruct (Hov Hb) as [Hlen Hl]. split; [exact Hlen|].
    intros k Hk Hbelow. split; [apply Hrect; [lia|exact Hbelow]|].
    apply Hl; assumption. }
  destruct (overlay_block c g) as [[t2 g2] r2].
  cbn [result_of snd] in Hblock. subst r2. reflexivity.
Qed.

Lemma crop_and_encode_crop (c : config) (i : Z) (g : globals)
      (j iw ih ch x y w h : Z) :
  In (EvCrop j iw ih ch x y w h) (trace_of (crop_and_encode c i g)) -> j = i.
Proof.
  unfold crop_and_encode. run_m.
  all: cbn [app trace_of fst In]; intros Hin; try tauto.
  repeat (destruct Hin as [Hin|Hin]; [try discriminate|]); [|tauto].
  inversion Hin. reflexivity.
Qed.

(** The crops of the detection loop belong to detections below the
    count. *)
Lemma detection_loop_crops_below (c : config) (fuel : nat) :
  forall (i : Z) (g : globals) (j iw ih ch x y w h : Z),
  In (EvCrop j iw ih ch x y w h) (trace_of (detection_loop c fuel i g)) ->
  below_count (out_mem g) j = true.
Proof.
  unfold below_count.
  induction fuel as [|fuel IH]; intros i g j iw ih ch x y w h.
  - cbn [detection_loop]. unfold_m. rewrite read_count.
    destruct (SFltb (F32.of_Z i) (reported_count (out_mem g))); cbn; tauto.
  - cbn [detection_loop]. unfold bind at 1. unfold load_f32 at 1. unfold_m.
    rewrite read_count.
    destruct (SFltb (F32.of_Z i) (reported_count (out_mem g))) eqn:Hlt; cbn [app].
    2:{ cbn. tauto. }
    pose proof (crop_and_encode_crop c i g j iw ih ch x y w h) as Hbody.
    pose proof (crop_and_encode_run c i g) as Hrun.
    destruct (crop_and_encode c i g) as [[t1 g1] r1].
    destruct Hrun as (-> & _).
    cbn [trace_of fst] in Hbody.
    destruct r1 as [[]|b|u|];
      try (cbn [trace_of fst]; intros Hin; rewrite (Hbody Hin); exact Hlt).
    specialize (IH (i + 1) g j iw ih ch x y w h).
    destruct (detection_loop c fuel (i + 1) g) as [[t2 g2] r2].
    cbn [trace_of fst] in IH |- *.
    intros Hin. apply in_app_or in Hin as [Hin|Hin].
    + rewrite (Hbody Hin). exact Hlt.
    + exact (IH Hin).
Qed.

Lemma overlay_log_not_crop (t : list event) (j iw ih ch x y w h : Z) :
  Forall (fun ev => is_overlay_log ev = true) t ->
  ~ In (EvCrop j iw ih ch x y w h) t.
Proof.
  intros Hall Hin. rewrite List.Forall_forall in Hall.
  specialize (Hall _ Hin). discriminate.
Qed.

Lemma tick_crops_below (c : config) (e : tick_env) (g : globals)
      (j iw ih ch x y w h : Z) :
  In (EvCrop j iw ih ch x y w h) (trace_of (tick c e g)) ->
  below_count (inf_mem e) j = true.
Proof.
  intros Hin.
  destruct (tick_failed c e g) as [(buf & buf_hq & Hok)|(_ & Hearly & _)].
  - rewrite (tick_ok c e g buf buf_hq Hok) in Hin.
    pose proof (post_process_shape c buf buf_hq (after_inference e g)) as Hs.
    destruct (post_process c buf buf_hq (after_inference e g)) as [[t g'] r].
    cbn [trace_of fst] in Hin. apply in_app_or in Hin as [Hin|Hin].
    { exfalso. cbn in Hin.
      repeat (destruct Hin as [Hin|Hin]; [discriminate|]). exact Hin. }
    pose proof (detection_loop_crops_below c DETECTION_FUEL 0 (after_inference e g)
                  j iw ih ch x y w h) as Hl.
    rewrite out_mem_after_inference in Hl.
    destruct Hs as [Hc|Hc|n t1 u Hc Hn E1|n t1 t2 g2 u Hc Hn E1 E2
                    |n t1 t2 g2 Hc Hn E1 E2].
    + destruct Hin.
    + destruct Hin as [Hin|[]]. discriminate.
    + rewrite E1 in Hl. exact (Hl Hin).
    + rewrite E1 in Hl. apply in_app_or in Hin as [Hin|Hin]; [exact (Hl Hin)|].
      exfalso. pose proof (overlay_block_run c (after_inference e g)) as Ho.
      rewrite E2 in Ho. destruct Ho as (_ & _ & _ & _ & _ & _ & Hev & _).
      exact (overlay_log_not_crop _ _ _ _ _ _ _ _ _ Hev Hin).
    + rewrite E1 in Hl. apply in_app_or in Hin as [Hin|Hin]; [exact (Hl Hin)|].
      exfalso. apply in_app_or in Hin as [Hin|Hin].
      * pose proof (overlay_block_run c (after_inference e g)) as Ho.
        rewrite E2 in Ho. destruct Ho as (_ & _ & _ & _ & _ & _ & Hev & _).
        exact (overlay_log_not_crop _ _ _ _ _ _ _ _ _ Hev Hin).
      * cbn in Hin. repeat (destruct Hin as [Hin|Hin]; [discriminate|]). exact Hin.
  - rewrite List.Forall_forall in Hearly. specialize (Hearly _ Hin). discriminate.
Qed.

(** X15. When every collaborator succeeds and the tensors are well
    formed, a tick runs [detect_objects] to its end and returns TRUE:
    each tensor read, conversion to an integer, label look-up, copy into
    [class] and access to [object_overlays] on its way is defined, and
    every rectangle that it hands to [crop_interleaved] lies inside the
    HD frame that it names.  Well formed means: the count converts to an
    [int] from 0 on and is at most 20; the box of every counted
    detection converts to [unsigned int]; every counted detection that
    passes the threshold test has a class inside the label table and a
    rectangle inside the HD frame; and, in an overlay build, the array
    has its five records and the labels of the first five counted
    detections fit the [class] buffer. *)
Theorem tick_defined_on_well_formed_tensors
    (c : config) (e : tick_env) (g : globals) (buf buf_hq n : Z) :
  all_ok e buf buf_hq ->
  to_int (reported_count (inf_mem e)) = Some n -> 0 <= n ->
  SFleb (reported_count (inf_mem e)) (F32.of_Z 20) = true ->
  (forall i, 0 <= i < 20 -> below_count (inf_mem e) i = true ->
             exists r, rect_at c (inf_mem e) i = Some r) ->
  (forall i, 0 <= i < 20 -> below_count (inf_mem e) i = true ->
             kept_at c (inf_mem e) i = true ->
             exists l, label_at c (inf_mem e) i = Some l) ->
  (forall i r, 0 <= i < 20 -> below_count (inf_mem e) i = true ->
               kept_at c (inf_mem e) i = true ->
               rect_at c (inf_mem e) i = Some r ->
               inside_frame (widthFrameHD c) (heightFrameHD c) r) ->
  (overlay_build c = true ->
   (5 <= length (object_overlays g))%nat /\
   forall k, 0 <= k < 5 -> below_count (inf_mem e) k = true ->
             exists l, label_at c (inf_mem e) k = Some l /\
                       Z.of_nat (String.length l) < CLASS_BUFFER_SIZE) ->
  result_of (tick c e g) = Return true /\
  forall i iw ih ch x y w h,
    In (EvCrop i iw ih ch x y w h) (trace_of (tick c e g)) ->
    iw = widthFrameHD c /\ ih = heightFrameHD c /\
    inside_frame iw ih (x, y, w, h).
Proof.
  intros Hok Hn Hn0 H20 Hrect Hlabel Hinside Hov. split.
  - rewrite (tick_ok c e g buf buf_hq Hok).
    pose proof (post_process_defined c buf buf_hq (after_inference e g) n) as Hpost.
    cbn [after_inference set_out_pos set_out_mem out_mem object_overlays] in Hpost.
    specialize (Hpost Hn Hn0 H20 Hrect Hlabel Hov).
    destruct (post_process c buf buf_hq (after_inference e g)) as [[t g'] r].
    exact Hpost.
  - intros i iw ih ch x y w h Hin.
    pose proof (tick_crops_below c e g _ _ _ _ _ _ _ _ Hin) as Hbelow.
    apply crop_event_rect in Hin as (Hi & Hkept & -> & -> & _ & Hr).
    split; [reflexivity|]. split; [reflexivity|].
    apply (Hinside i); [|exact Hbelow|exact Hkept|exact Hr].
    split; [exact Hi|].
    apply rect_at_inv in Hr as (top & left & bottom & right & Hbox & _).
    unfold box_at in Hbox.
    destruct (read_f32 (inf_mem e) Locations (4 * i)) as [f|] eqn:Hf; [|discriminate].
    bounds.
Qed.

(** The tick over the strong and the weak detection, as [main] starts
    the program. *)
Lemma tick_defined_on_well_formed_tensors_witness :
  result_of (tick (Prog.cfg 50 (1280, 720) true) (Ex.good Ex.strong_and_weak) Prog.start)
  = Return true /\
  forall i iw ih ch x y w h,
    In (EvCrop i iw ih ch x y w h)
       (trace_of (tick (Prog.cfg 50 (1280, 720) true) (Ex.good Ex.strong_and_weak)
                       Prog.start)) ->
    iw = 1280 /\ ih = 720 /\ inside_frame iw ih (x, y, w, h).
Proof.
  apply (tick_defined_on_well_formed_tensors
           (Prog.cfg 50 (1280, 720) true) (Ex.good Ex.strong_and_weak) Prog.start 1 2 2).
  - repeat split; reflexivity.
  - reflexivity.
  - lia.
  - reflexivity.
  - intros i Hi.
    assert (i = 0 \/ i = 1 \/ 2 <= i < 20) as [->|[->|Hi2]] by lia.
    + intros _. eexists. vm_compute. reflexivity.
    + intros _. eexists. vm_compute. reflexivity.
    + unfold below_count. intros Hb. exfalso.
      apply (SFltb_of_Z_below _ 2 i) in Hb; [vm_compute in Hb; discriminate|lia|lia].
  - intros i Hi.
    assert (i = 0 \/ i = 1 \/ 2 <= i < 20) as [->|[->|Hi2]] by lia.
    + intros _ _. eexists. vm_compute. reflexivity.
    + intros _ _. eexists. vm_compute. reflexivity.
    + unfold below_count. intros Hb. exfalso.
      apply (SFltb_of_Z_below _ 2 i) in Hb; [vm_compute in Hb; discriminate|lia|lia].
  - intros i r Hi.
    assert (i = 0 \/ i = 1 \/ 2 <= i < 20) as [->|[->|Hi2]] by lia.
    + intros _ _ Hr. vm_compute in Hr. inversion Hr; subst. cbn. lia.
    + intros _ _ Hr. vm_compute in Hr. inversion Hr; subst. cbn. lia.
    + unfold below_count. intros Hb. exfalso.
      apply (SFltb_of_Z_below _ 2 i) in Hb; [vm_compute in Hb; discriminate|lia|lia].
  - intros _. split; [cbn; lia|]. intros k Hk.
    assert (k = 0 \/ k = 1 \/ 2 <= k < 20) as [->|[->|Hk2]] by lia.
    + intros _. eexists. split; vm_compute; reflexivity.
    + intros _. eexists. split; vm_compute; reflexivity.
    + unfold below_count. intros Hb. exfalso.
      apply (SFltb_of_Z_below _ 2 k) in Hb; [vm_compute in Hb; discriminate|lia|lia].
Defined.

(** ** Drawing the records *)

Import Bbox.

Lemma rectangles_app (t1 t2 : list bbox_event) :
  rectangles (t1 ++ t2) = rectangles t1 ++ rectangles t2.
Proof.
  induction t1 as [|ev t1 IH]; [reflexivity|].
  destruct ev; cbn [app rectangles]; rewrite IH; reflexivity.
Qed.

Lemma draw_object_rectangles (g : globals) (view : option Z) (object : ObjectOverlay) :
  rectangles (draw_object g view object) = [normalized g object].
Proof.
  unfold draw_object. destruct (normalized g object) as [[[l t] r] b].
  destruct (SFleb _ _); reflexivity.
Qed.

(** The loop stays inside the array of records when the records that
    are left to draw fit in it, and draws one rectangle for each. *)
Lemma draw_objects_run (g : globals) (view : option Z) (n : nat) :
  forall i : Z,
  0 <= i ->
  (Z.to_nat i + n <= length (object_overlays g))%nat ->
  exists t,
    draw_objects g view n i = Some t /\
    rectangles t = map (normalized g) (take n (drop (Z.to_nat i) (object_overlays g))).
Proof.
  induction n as [|n IH]; intros i Hi Hlen.
  - exists []. split; reflexivity.
  - cbn [draw_objects]. destruct (Z.leb_spec 0 i) as [_|]; [|lia].
    destruct (object_overlays g !! Z.to_nat i) as [object|] eqn:Hobj.
    2:{ apply lookup_ge_None in Hobj. lia. }
    destruct (IH (i + 1) ltac:(lia) ltac:(lia)) as (t & Ht & Hrect).
    rewrite Ht. eexists. split; [reflexivity|].
    rewrite rectangles_app, draw_object_rectangles, Hrect.
    rewrite (drop_S _ _ _ Hobj). cbn [take map app].
    replace (Z.to_nat (i + 1)) with (S (Z.to_nat i)) by lia. reflexivity.
Qed.

Lemma draw_cv25_overlay_run (b : bbox_env) (overlay : option Z) (g : globals) :
  (Z.to_nat (object_overlays_length g) <= length (object_overlays g))%nat ->
  exists t,
    draw_cv25_overlay b overlay g = Some (t, view_new b) /\
    rectangles t = map (normalized g) (overlay_output g).
Proof.
  intros Hlen. unfold draw_cv25_overlay.
  destruct (draw_objects_run g (view_new b) (Z.to_nat (object_overlays_length g)) 0
              ltac:(lia) ltac:(cbn; lia)) as (boxes & -> & Hrect).
  eexists. split; [reflexivity|].
  rewrite !rectangles_app, Hrect. cbn [Z.to_nat drop].
  destruct (view_new b), (video_output_ok b), (commit_ok b); cbn;
    rewrite app_nil_r; reflexivity.
Qed.

Lemma draw_objects_ext (g g' : globals) (view : option Z) (n : nat) :
  object_overlays g' = object_overlays g ->
  stream_width g' = stream_width g -> stream_height g' = stream_height g ->
  forall i, draw_objects g' view n i = draw_objects g view n i.
Proof.
  intros Ho Hw Hh. induction n as [|n IH]; intros i; [reflexivity|].
  cbn [draw_objects]. rewrite Ho, IH.
  unfold draw_object, normalized. rewrite Hw, Hh. reflexivity.
Qed.

(** What is drawn depends on the records in use and on the stream size
    only. *)
Lemma draw_cv25_overlay_ext (b : bbox_env) (overlay : option Z) (g g' : globals) :
  object_overlays g' = object_overlays g ->
  object_overlays_length g' = object_overlays_length g ->
  stream_width g' = stream_width g -> stream_height g' = stream_height g ->
  draw_cv25_overlay b overlay g' = draw_cv25_overlay b overlay g.
Proof.
  intros Ho Hl Hw Hh. unfold draw_cv25_overlay.
  rewrite Hl, (draw_objects_ext g g' _ _ Ho Hw Hh). reflexivity.
Qed.

(** X6. The array of five overlay records is not left after a tick
    that returns, with TRUE or with FALSE: the tick keeps five records
    and at most five in use, and [draw_cv25_overlay] then reads records
    of the array only.  It hands one rectangle to [bbox_rectangle] for
    each record in use, in order and whatever the score: the
    coordinates of the record divided by the stream size. *)
Theorem draw_after_tick_stays_in_array (c : config) (e : tick_env) (g : globals)
        (b : bbox_env) (overlay : option Z) (r : bool) :
  result_of (tick c e g) = Return r ->
  length (object_overlays g) = 5%nat ->
  object_overlays_length g <= 5 ->
  let g' := globals_of (tick c e g) in
  length (object_overlays g') = 5%nat /\
  object_overlays_length g' <= 5 /\
  exists t,
    draw_cv25_overlay b overlay g' = Some (t, view_new b) /\
    rectangles t = map (normalized g') (overlay_output g').
Proof.
  intros _ Hlen Hn g'.
  destruct (tick_frame c e g) as (_ & _ & Hlen' & Hn').
  fold g' in Hlen', Hn'. specialize (Hn' Hn).
  split; [congruence|]. split; [exact Hn'|].
  apply draw_cv25_overlay_run. lia.
Qed.

(** Drawing after the tick over the strong and the weak detection. *)
Lemma draw_after_tick_stays_in_array_witness :
  let g' := globals_of (tick (Prog.cfg 50 (1280, 720) true) (Ex.good Ex.strong_and_weak)
                             Prog.start) in
  length (object_overlays g') = 5%nat /\
  object_overlays_length g' <= 5 /\
  exists t,
    draw_cv25_overlay Prog.bbox_good None g' = Some (t, Some 7) /\
    rectangles t = map (normalized g') (overlay_output g').
Proof.
  apply (draw_after_tick_stays_in_array
           (Prog.cfg 50 (1280, 720) true) (Ex.good Ex.strong_and_weak) Prog.start
           Prog.bbox_good None true).
  - vm_compute. reflexivity.
  - reflexivity.
  - vm_compute. discriminate.
Defined.

(** X7. A tick that fails, or that reports a count of zero, changes
    neither the overlay records nor their number nor the stream size:
    [draw_cv25_overlay] draws after it what it drew before it, so the
    boxes of the last tick that found detections stay on the video. *)
Theorem boxes_stay_after_empty_tick (c : config) (e : tick_env) (g : globals)
        (b : bbox_env) (overlay : option Z) :
  result_of (tick c e g) = Return false \/
  (exists buf buf_hq,
     all_ok e buf buf_hq /\ to_int (reported_count (inf_mem e)) = Some 0) ->
  overlay_output (globals_of (tick c e g)) = overlay_output g /\
  draw_cv25_overlay b overlay (globals_of (tick c e g)) = draw_cv25_overlay b overlay g.
Proof.
  intros H.
  assert (Hsame : object_overlays (globals_of (tick c e g)) = object_overlays g /\
                  object_overlays_length (globals_of (tick c e g))
                  = object_overlays_length g /\
                  stream_width (globals_of (tick c e g)) = stream_width g /\
                  stream_height (globals_of (tick c e g)) = stream_height g).
  { destruct H as [Hf|(buf & buf_hq & Hok & Hc)].
    - destruct (tick_failed_state c e g) as [(buf & buf_hq & Hok)|(_ & Hs)];
        [|exact Hs].
      destruct (tick_ok_result c e g buf buf_hq Hok) as [Hr|[u Hr]];
        rewrite Hr in Hf; discriminate.
    - rewrite (tick_zero_count c e g buf buf_hq Hok Hc). repeat split. }
  destruct Hsame as (Ho & Hl & Hw & Hh). split.
  - unfold overlay_output. rewrite Ho, Hl. reflexivity.
  - apply draw_cv25_overlay_ext; assumption.
Qed.

(** Two ticks: the first finds the centred box, the second nothing. *)
Lemma boxes_stay_after_empty_tick_witness :
  let g1 := globals_of (tick (Ex.cfg 50 true) (Ex.good Ex.one_centered)
                             (Ex.start 1280 720)) in
  overlay_output (globals_of (tick (Ex.cfg 50 true) (Ex.good Ex.none) g1))
  = overlay_output g1 /\
  draw_cv25_overlay {| view_new := Some 7; video_output_ok := true; commit_ok := true |}
                    None (globals_of (tick (Ex.cfg 50 true) (Ex.good Ex.none) g1))
  = draw_cv25_overlay {| view_new := Some 7; video_output_ok := true; commit_ok := true |}
                      None g1.
Proof.
  apply (boxes_stay_after_empty_tick
           (Ex.cfg 50 true) (Ex.good Ex.none)
           (globals_of (tick (Ex.cfg 50 true) (Ex.good Ex.one_centered)
                             (Ex.start 1280 720)))
           {| view_new := Some 7; video_output_ok := true; commit_ok := true |} None).
  right. exists 1, 2. split; [repeat split; reflexivity|reflexivity].
Defined.

(** ** Temporary files *)

Import TmpFile.

(** X8. [createAndMapTmpFile] returns true only when [mkstemp],
    [ftruncate], [unlink] and [mmap] all succeed; it has then unlinked
    the file and hands back the descriptor and the mapping, with nothing
    closed.  When it returns false after [mkstemp] gave a descriptor,
    the descriptor is closed, once, as the last call, and when
    [ftruncate] is the call that failed the file is not unlinked. *)
Theorem tmp_file_closed_or_returned (e : tmp_env) (fileName : string) (fileSize : Z) :
  let fd := mkstemp_fd e in
  match createAndMapTmpFile e fileName fileSize with
  | (t, Some (data, convFd)) =>
      0 <= fd /\ convFd = fd /\ mmap_addr e = Some data /\
      ftruncate_ok e = true /\ unlink_ok e = true /\
      Forall (fun ev => is_close ev = false) t /\
      In (TmpUnlink (mkstemp_name e) true) t
  | (t, None) =>
      (fd < 0 \/ ftruncate_ok e = false \/ unlink_ok e = false \/ mmap_addr e = None) /\
      (fd < 0 -> Forall (fun ev => is_close ev = false) t) /\
      (0 <= fd ->
       exists t', t = t' ++ [TmpClose fd] /\
                  Forall (fun ev => is_close ev = false) t') /\
      (0 <= fd -> ftruncate_ok e = false ->
       Forall (fun ev => is_unlink ev = false) t)
  end.
Proof.
  intros fd. unfold createAndMapTmpFile, error_exit. fold fd.
  destruct (Z.ltb_spec fd 0) as [Hneg|Hpos].
  - destruct (Z.leb_spec 0 fd) as [|_]; [lia|]. cbn [app].
    split; [left; exact Hneg|]. split; [intros _; repeat constructor|].
    split; intros; lia.
  - destruct (Z.leb_spec 0 fd) as [_|]; [|lia].
    destruct (ftruncate_ok e) eqn:Hft; cbn [negb app].
    2:{ split; [right; left; reflexivity|]. split; [intros; lia|].
        split; [intros _|intros _ _; repeat constructor].
        eexists [_; _; _; _]. split; [reflexivity|repeat constructor]. }
    destruct (unlink_ok e) eqn:Hul; cbn [negb app].
    2:{ split; [right; right; left; reflexivity|]. split; [intros; lia|].
        split; [intros _|intros _ Hf; discriminate].
        eexists [_; _; _; _; _]. split; [reflexivity|repeat constructor]. }
    destruct (mmap_addr e) as [data|] eqn:Hmm; cbn [app].
    + split; [exact Hpos|]. split; [reflexivity|]. split; [reflexivity|].
      split; [reflexivity|]. split; [reflexivity|].
      split; [repeat constructor|]. cbn. tauto.
    + split; [right; right; right; reflexivity|]. split; [intros; lia|].
      split; [intros _|intros _ Hf; discriminate].
      eexists [_; _; _; _; _; _]. split; [reflexivity|repeat constructor].
Qed.

(** A call in which [ftruncate] fails on descriptor 5. *)
Lemma tmp_file_closed_or_returned_witness :
  createAndMapTmpFile
    {| mkstemp_fd := 5; mkstemp_name := "/tmp/larod.out1.test-a1b2c3";
       ftruncate_ok := false; unlink_ok := true; mmap_addr := Some 4096 |}
    "/tmp/larod.out1.test-XXXXXX" 320
  = ([TmpSyslog (LogSetup "/tmp/larod.out1.test-XXXXXX" 320);
      TmpMkstemp "/tmp/larod.out1.test-XXXXXX" 5;
      TmpFtruncate 5 320 false;
      TmpSyslog (LogTruncateFailed "/tmp/larod.out1.test-a1b2c3");
      TmpClose 5], None) /\
  (exists t',
     [TmpSyslog (LogSetup "/tmp/larod.out1.test-XXXXXX" 320);
      TmpMkstemp "/tmp/larod.out1.test-XXXXXX" 5;
      TmpFtruncate 5 320 false;
      TmpSyslog (LogTruncateFailed "/tmp/larod.out1.test-a1b2c3");
      TmpClose 5] = t' ++ [TmpClose 5] /\
     Forall (fun ev => is_close ev = false) t').
Proof.
  split; [reflexivity|].
  pose proof (tmp_file_closed_or_returned
                {| mkstemp_fd := 5; mkstemp_name := "/tmp/larod.out1.test-a1b2c3";
                   ftruncate_ok := false; unlink_ok := true; mmap_addr := Some 4096 |}
                "/tmp/larod.out1.test-XXXXXX" 320) as H.
  cbv zeta in H. cbn in H. destruct H as (_ & _ & H & _).
  apply H. lia.
Defined.

(** ** The connection to larod *)

Import Larod.

Lemma log_devices_no_disconnect (names : list (option string)) :
  forall i, Forall (fun ev => is_disconnect ev = false) (log_devices i names).
Proof.
  induction names as [|name rest IH]; intros i; [constructor|].
  cbn [log_devices]. repeat constructor. apply IH.
Qed.

(** X9. [setupLarod] returns true exactly when [larodConnect] and
    [larodLoadModel] succeed, whatever [larodGetDevice] answered: the
    model is loaded on the device it gave, NULL included.  It then hands
    back the connection without closing it.  When the model cannot be
    loaded the connection is closed, once, and when the connection
    cannot be opened nothing is closed. *)
Theorem larod_connection_closed_or_returned
        (e : larod_env) (chipString : string) (larodModelFd : Z) :
  match setupLarod e chipString larodModelFd with
  | (t, Some (conn, model)) =>
      connect e = Some conn /\ load_model e = Some model /\
      In (LarodLoadModel conn larodModelFd (get_device e) (Some model)) t /\
      List.filter is_disconnect t = []
  | (t, None) =>
      match connect e with
      | None => List.filter is_disconnect t = []
      | Some conn =>
          load_model e = None /\
          In (LarodLoadModel conn larodModelFd (get_device e) None) t /\
          List.filter is_disconnect t = [LarodDisconnect conn]
      end
  end.
Proof.
  unfold setupLarod.
  destruct (connect e) as [conn|]; [|reflexivity].
  assert (Hdev : List.filter is_disconnect (log_devices 0 (listed e)) = []).
  { pose proof (log_devices_no_disconnect (listed e) 0) as H.
    induction H as [|ev t Hev Ht IH]; [reflexivity|].
    cbn [List.filter]. rewrite Hev. exact IH. }
  destruct (load_model e) as [model|].
  - split; [reflexivity|]. split; [reflexivity|]. split.
    + apply in_or_app. left. cbn [app]. do 3 right.
      apply in_or_app. right. cbn. tauto.
    + rewrite !List.filter_app, Hdev. unfold end_exit.
      destruct (_ || _); reflexivity.
  - split; [reflexivity|]. split.
    + apply in_or_app. left. cbn [app]. do 3 right.
      apply in_or_app. right. cbn. tauto.
    + rewrite !List.filter_app, Hdev. unfold end_exit.
      destruct (_ || _); reflexivity.
Qed.

Module LabelPasses.
Import Labels LabelSpec LabelFacts.

Lemma for_loop_app {S : Type} (body : Z -> S -> option S) (n m : nat) :
  forall (i : Z) (s : S),
  for_loop (n + m) i body s =
  match for_loop n i body s with
  | Some s' => for_loop m (i + Z.of_nat n) body s'
  | None => None
  end.
Proof.
  induction n as [|n IH]; intros i s.
  - cbn. f_equal. lia.
  - cbn [Nat.add for_loop]. destruct (body i s) as [s1|]; [|reflexivity].
    rewrite IH. destruct (for_loop n (i + 1) body s1); [|reflexivity].
    f_equal. lia.
Qed.

Lemma load_app (pre suf : list ascii) (c : ascii) (i : Z) :
  i = Z.of_nat (length pre) -> load (pre ++ c :: suf) i = Some c.
Proof.
  intros ->. unfold load. destruct (Z.leb_spec 0 (Z.of_nat (length pre))); [|lia].
  rewrite Nat2Z.id. apply list_lookup_middle. reflexivity.
Qed.

Lemma store_app (pre suf : list ascii) (c d : ascii) (i : Z) :
  i = Z.of_nat (length pre) -> store (pre ++ c :: suf) i d = Some (pre ++ d :: suf).
Proof.
  intros ->. unfold store. rewrite length_app. cbn [length].
  destruct (Z.leb_spec 0 (Z.of_nat (length pre))); [|lia].
  destruct (Z.ltb_spec (Z.of_nat (length pre)) (Z.of_nat (length pre + S (length suf))));
    [|lia].
  cbn [andb]. rewrite Nat2Z.id. f_equal.
  rewrite insert_app_r_alt by lia. rewrite Nat.sub_diag. reflexivity.
Qed.

(** The first pass counts the newlines of the bytes it visits. *)
Lemma count_loop (tl : list ascii) :
  forall (suf pre : list ascii) (acc i : Z),
  i = Z.of_nat (length pre) ->
  for_loop (length suf) i
    (fun i numLines =>
       match load (pre ++ suf ++ tl) i with
       | Some c => Some (if Ascii.eqb c NEWLINE then numLines + 1 else numLines)
       | None => None
       end) acc
  = Some (acc + newlines suf).
Proof.
  induction suf as [|c rest IH]; intros pre acc i Hi.
  - cbn. f_equal. lia.
  - cbn [length for_loop]. rewrite <- app_comm_cons.
    rewrite (load_app pre (rest ++ tl) c i Hi).
    specialize (IH (pre ++ [c]) (if Ascii.eqb c NEWLINE then acc + 1 else acc) (i + 1)).
    rewrite <- !app_assoc in IH. cbn [app] in IH.
    rewrite IH by (rewrite length_app; cbn; lia).
    f_equal. cbn [newlines]. destruct (Ascii.eqb c NEWLINE); lia.
Qed.

Lemma count_lines_spec (bytes : list ascii) :
  bytes <> [] ->
  count_lines (bytes ++ [NUL]) (Z.of_nat (length bytes))
  = Some (newlines (removelast bytes)).
Proof.
  intros Hne. unfold count_lines.
  destruct (exists_last Hne) as (front & lastc & ->).
  rewrite removelast_last, length_app. cbn [length].
  replace (Z.to_nat (Z.of_nat (length front + 1) - 1)) with (length front) by lia.
  rewrite <- app_assoc.
  exact (count_loop ([lastc] ++ [NUL]) front [] 0 0 eq_refl).
Qed.

Lemma split_lines_body (data : list ascii) (arr : list Z) (size : Z) :
  split_lines data arr size
  = for_loop (Z.to_nat size) 0 (split_body size) (data, arr, 1).
Proof. reflexivity. Qed.

Lemma cap_lines_body (data : list ascii) (arr : list Z) (numLines : Z) :
  cap_lines data arr numLines = for_loop (Z.to_nat numLines) 0 (cap_body arr) data.
Proof. reflexivity. Qed.

Lemma starts_from_length (l : list ascii) :
  forall i, Z.of_nat (length (starts_from i l)) = newlines (removelast l).
Proof.
  induction l as [|c rest IH]; intros i; [reflexivity|].
  cbn [starts_from]. destruct rest as [|d rest'].
  - cbn. destruct (Ascii.eqb c NEWLINE); reflexivity.
  - change (removelast (c :: d :: rest')) with (c :: removelast (d :: rest')).
    cbn [newlines]. destruct (Ascii.eqb c NEWLINE).
    + cbn [length]. rewrite Nat2Z.inj_succ, IH. lia.
    + rewrite IH. lia.
Qed.

(** The second pass over the bytes [suf] that start at offset [i]:
    every newline becomes a NUL and the offsets that follow the newlines
    are written to the label array from [idx] on. *)
Lemma split_loop (size : Z) (tl : list ascii) :
  forall (suf pre : list ascii) (arr : list Z) (idx : nat) (i : Z),
  i = Z.of_nat (length pre) ->
  size = i + Z.of_nat (length suf) ->
  (idx + length (starts_from i suf) <= length arr)%nat ->
  for_loop (length suf) i (split_body size) (pre ++ suf ++ tl, arr, Z.of_nat idx)
  = Some (pre ++ map nul_for_newline suf ++ tl,
          take idx arr ++ starts_from i suf
            ++ drop (idx + length (starts_from i suf)) arr,
          Z.of_nat (idx + length (starts_from i suf))).
Proof.
  induction suf as [|c rest IH]; intros pre arr idx i Hi Hsize Hlen.
  - cbn. rewrite Nat.add_0_r, take_drop. reflexivity.
  - cbn [length for_loop]. unfold split_body at 1.
    rewrite <- app_comm_cons.
    rewrite (load_app pre (rest ++ tl) c i Hi).
    cbn [starts_from map] in *. unfold nul_for_newline at 1.
    destruct (Ascii.eqb c NEWLINE) eqn:Hc.
    + rewrite (store_app pre (rest ++ tl) c NUL i Hi).
      destruct rest as [|d rest'].
      * destruct (Z.ltb_spec i (size - 1)) as [Hlt|_]; [cbn [length] in Hsize; lia|].
        cbn. rewrite Nat.add_0_r, take_drop. reflexivity.
      * destruct (Z.ltb_spec i (size - 1)) as [_|Hge]; [|cbn [length] in Hsize; lia].
        cbn [length] in Hlen.
        unfold store_ptr.
        destruct (Z.leb_spec 0 (Z.of_nat idx)); [|lia].
        destruct (Z.ltb_spec (Z.of_nat idx) (Z.of_nat (length arr))); [|lia].
        cbn [andb]. rewrite Nat2Z.id.
        specialize (IH (pre ++ [NUL]) (<[idx := i + 1]> arr) (S idx) (i + 1)).
        rewrite <- !app_assoc in IH. cbn [app] in IH.
        replace (Z.of_nat idx + 1) with (Z.of_nat (S idx)) by lia.
        etransitivity; [apply IH|].
        -- rewrite length_app. cbn [length]. lia.
        -- cbn [length] in Hsize |- *. lia.
        -- rewrite length_insert. lia.
        -- f_equal. f_equal; [f_equal|].
           ++ rewrite (take_S_r _ _ (i + 1)) by (apply list_lookup_insert_eq; lia).
              rewrite take_insert_ge by lia. rewrite <- app_assoc. cbn [app].
              rewrite drop_insert_lt by lia.
              do 3 f_equal. cbn [length]. f_equal. lia.
           ++ cbn [length]. lia.
    + specialize (IH (pre ++ [c]) arr idx (i + 1)).
      rewrite <- !app_assoc in IH. cbn [app] in IH.
      etransitivity; [apply IH|].
      * rewrite length_app. cbn [length]. lia.
      * cbn [length] in Hsize. lia.
      * exact Hlen.
      * reflexivity.
Qed.

Lemma split_lines_spec (bytes : list ascii) (arr0 : list Z) :
  bytes <> [] ->
  Z.of_nat (length arr0) = newlines (removelast bytes) + 1 ->
  split_lines (bytes ++ [NUL]) (<[0%nat := 0]> arr0) (Z.of_nat (length bytes))
  = Some (map nul_for_newline bytes ++ [NUL], line_starts bytes,
          newlines (removelast bytes) + 1).
Proof.
  intros Hne Hlen. rewrite split_lines_body, Nat2Z.id.
  pose proof (starts_from_length bytes 0) as Hs.
  pose proof (split_loop (Z.of_nat (length bytes)) [NUL] bytes []
                (<[0%nat := 0]> arr0) 1 0 eq_refl ltac:(lia)) as H.
  cbn [app] in H. change (Z.of_nat 1) with 1 in H.
  rewrite H by (rewrite length_insert; lia).
  f_equal. f_equal; [f_equal|lia].
  unfold line_starts.
  destruct arr0 as [|a arr0]; [cbn [length] in Hlen; lia|].
  cbn [take]. cbn. f_equal.
  rewrite drop_ge by (cbn [length] in Hlen; lia).
  apply app_nil_r.
Qed.

(** [parseLabels] on a file that is not empty: the answers of the file
    system and of the allocator decide whether it fails, and the third
    pass runs over the bytes with a NUL for every newline and over the
    offsets of the lines. *)
Lemma parseLabels_nonempty (f : label_file) :
  file_bytes f <> [] ->
  parseLabels f =
  (if negb (stat_ok f) || (10 * 1024 * 1024 <? Z.of_nat (length (file_bytes f)))
     || negb (open_ok f) || negb (data_malloc_ok f) || negb (read_ok f)
     || negb (array_malloc_ok f)
  then ParseFalse
  else
    match cap_lines (map nul_for_newline (file_bytes f) ++ [NUL])
                    (line_starts (file_bytes f))
                    (newlines (removelast (file_bytes f)) + 1) with
    | Some data => ParseTrue (line_starts (file_bytes f))
                             (newlines (removelast (file_bytes f)) + 1) data
    | None => ParseUndefined
    end).
Proof.
  intros Hne. unfold parseLabels.
  destruct (stat_ok f); [|reflexivity]. cbn [negb orb].
  destruct (10 * 1024 * 1024 <? _); [reflexivity|]. cbn [orb].
  destruct (open_ok f); [|reflexivity]. cbn [negb orb].
  destruct (data_malloc_ok f); [|reflexivity]. cbn [negb orb].
  assert (Hpos : 0 < Z.of_nat (length (file_bytes f)))
    by (destruct (file_bytes f); [congruence|cbn [length]; lia]).
  destruct (Z.ltb_spec 0 (Z.of_nat (length (file_bytes f)))) as [_|]; [|lia].
  destruct (read_ok f); [|reflexivity]. cbn [negb andb orb].
  destruct (Z.eqb_spec (Z.of_nat (length (file_bytes f))) 0) as [|_]; [lia|].
  rewrite (count_lines_spec _ Hne).
  destruct (array_malloc_ok f); [|reflexivity]. cbn [negb].
  assert (Hn : 0 <= newlines (removelast (file_bytes f))).
  { rewrite <- (starts_from_length (file_bytes f) 0). lia. }
  rewrite split_lines_spec.
  - rewrite (store_app (map nul_for_newline (file_bytes f)) [] NUL NUL)
      by (rewrite length_map; reflexivity).
    reflexivity.
  - exact Hne.
  - rewrite length_replicate. lia.
Qed.

Lemma parseLabels_empty_not_true (f : label_file) :
  file_bytes f = [] -> forall arr n data, parseLabels f <> ParseTrue arr n data.
Proof.
  intros He arr n data. unfold parseLabels. rewrite He. cbn.
  destruct (stat_ok f), (open_ok f), (data_malloc_ok f), (read_ok f); cbn; discriminate.
Qed.

Lemma parseLabels_true_inv (f : label_file) (arr : list Z) (n : Z) (data : list ascii) :
  parseLabels f = ParseTrue arr n data ->
  file_bytes f <> [] /\
  arr = line_starts (file_bytes f) /\
  n = newlines (removelast (file_bytes f)) + 1 /\
  cap_lines (map nul_for_newline (file_bytes f) ++ [NUL]) arr n = Some data.
Proof.
  intros H.
  assert (Hne : file_bytes f <> []).
  { intros He. exact (parseLabels_empty_not_true f He arr n data H). }
  rewrite (parseLabels_nonempty f Hne) in H.
  destruct (_ || _); [discriminate|].
  destruct (cap_lines _ _ _) as [d|] eqn:Hcap; [|discriminate].
  inversion H; subst. auto.
Qed.

Lemma for_loop_None {S : Type} (P : Z -> S -> Prop) (body : Z -> S -> option S) (n : nat) :
  forall (i : Z) (s : S),
  (forall j x y, i <= j -> P j x -> body j x = Some y -> P (j + 1) y) ->
  P i s -> for_loop n i body s = None ->
  exists j x, i <= j < i + Z.of_nat n /\ P j x /\ body j x = None.
Proof.
  induction n as [|n IH]; intros i s Hstep Hs Hrun; [discriminate|].
  cbn [for_loop] in Hrun. destruct (body i s) as [s1|] eqn:Hb.
  - destruct (IH (i + 1) s1) as (j & x & Hj & Hx & Hnone).
    + intros j x y Hj. apply Hstep. lia.
    + apply (Hstep i s s1); [lia|exact Hs|exact Hb].
    + exact Hrun.
    + exists j, x. split; [lia|]. split; assumption.
  - exists i, s. split; [lia|]. split; assumption.
Qed.

Lemma for_loop_same {S : Type} (body : Z -> S -> option S) (s : S) (n : nat) :
  forall i : Z,
  (forall j, i <= j < i + Z.of_nat n -> body j s = Some s) ->
  for_loop n i body s = Some s.
Proof.
  induction n as [|n IH]; intros i Hb; [reflexivity|].
  cbn [for_loop]. rewrite Hb by lia. apply IH. intros j Hj. apply Hb. lia.
Qed.

Lemma strnlen_full (k : nat) :
  forall l : list ascii,
  (k <= strnlen l k)%nat ->
  forall q, (q < k)%nat -> exists c, l !! q = Some c /\ c <> NUL.
Proof.
  induction k as [|k IH]; intros l Hk q Hq; [lia|].
  destruct l as [|a l]; [cbn in Hk; lia|].
  cbn [strnlen] in Hk. destruct (Ascii.eqb_spec a NUL) as [|Ha]; [lia|].
  destruct q as [|q].
  - exists a. split; [reflexivity|exact Ha].
  - cbn. apply IH; lia.
Qed.

Lemma strnlen_clean (l rest : list ascii) (k : nat) :
  Forall (fun c => c <> NUL) l -> (length l < k)%nat ->
  strnlen (l ++ NUL :: rest) k = length l.
Proof.
  revert k. induction l as [|a l IH]; intros k Hl Hk.
  - destruct k; [lia|]. cbn. reflexivity.
  - destruct k; [cbn in Hk; lia|]. inversion Hl as [|? ? Ha Hl']; subst.
    cbn [app strnlen length]. destruct (Ascii.eqb_spec a NUL) as [|_]; [contradiction|].
    rewrite IH; [reflexivity|exact Hl'|cbn in Hk; lia].
Qed.

Lemma cstring_clean (l rest : list ascii) :
  Forall (fun c => c <> NUL) l ->
  cstring (l ++ NUL :: rest) = string_of_list_ascii l.
Proof.
  induction l as [|a l IH]; intros Hl; [reflexivity|].
  inversion Hl as [|? ? Ha Hl']; subst.
  cbn [app cstring string_of_list_ascii].
  destruct (Ascii.eqb_spec a NUL) as [|_]; [contradiction|].
  rewrite IH by exact Hl'. reflexivity.
Qed.

Lemma cstring_Forall (P : ascii -> Prop) (l : list ascii) :
  Forall P l -> Forall P (list_ascii_of_string (cstring l)).
Proof.
  induction 1 as [|a l Ha Hl IH]; [constructor|].
  cbn [cstring]. destruct (Ascii.eqb a NUL); [constructor|].
  cbn [list_ascii_of_string]. constructor; assumption.
Qed.

Lemma starts_from_range (l : list ascii) :
  forall i, Forall (fun p => i < p < i + Z.of_nat (length l)) (starts_from i l).
Proof.
  induction l as [|c rest IH]; intros i; [constructor|].
  cbn [starts_from length].
  assert (Hrest : Forall (fun p => i < p < i + Z.of_nat (S (length rest)))
                         (starts_from (i + 1) rest)).
  { eapply Forall_impl; [apply IH|]. cbv beta. intros p Hp. lia. }
  destruct (Ascii.eqb c NEWLINE); [|exact Hrest].
  destruct rest as [|d rest']; [constructor|].
  constructor; [cbn [length]; lia|exact Hrest].
Qed.

Lemma line_starts_range (bytes : list ascii) :
  bytes <> [] ->
  Forall (fun p => 0 <= p < Z.of_nat (length bytes)) (line_starts bytes).
Proof.
  intros Hne. unfold line_starts. constructor.
  - destruct bytes; [congruence|cbn [length]; lia].
  - eapply Forall_impl; [apply starts_from_range|]. cbv beta. intros p Hp. lia.
Qed.

Lemma line_starts_length (bytes : list ascii) :
  Z.of_nat (length (line_starts bytes)) = newlines (removelast bytes) + 1.
Proof.
  unfold line_starts. cbn [length]. rewrite Nat2Z.inj_succ, starts_from_length. lia.
Qed.

Lemma capped_init (bytes : list ascii) :
  capped bytes (map nul_for_newline bytes ++ [NUL]).
Proof.
  split; [rewrite length_app, length_map; cbn; lia|]. split.
  - rewrite lookup_app_r by (rewrite length_map; lia).
    rewrite length_map, Nat.sub_diag. reflexivity.
  - auto.
Qed.

Lemma cap_body_capped (bytes : list ascii) (arr : list Z) (j : Z) (x y : list ascii) :
  capped bytes x -> cap_body arr j x = Some y -> capped bytes y.
Proof.
  intros (Hlen & Hnul & Hold) Hb. unfold cap_body in Hb.
  destruct (if 0 <=? j then arr !! Z.to_nat j else None) as [p|]; [|discriminate].
  destruct (LINE_MAX_LEN <=? _); [|inversion Hb; subst; repeat split; assumption].
  apply store_inv in Hb as [Hin ->].
  split; [rewrite length_insert; exact Hlen|]. split.
  - destruct (Nat.eq_dec (Z.to_nat (p + LINE_MAX_LEN + 1)) (length bytes)) as [E|E].
    + rewrite E. apply list_lookup_insert_eq. lia.
    + rewrite list_lookup_insert_ne by exact E. exact Hnul.
  - intros q c Hq Hc.
    destruct (Nat.eq_dec (Z.to_nat (p + LINE_MAX_LEN + 1)) q) as [E|E].
    + subst q. rewrite list_lookup_insert_eq in Hq by lia.
      inversion Hq; subst. contradiction.
    + rewrite list_lookup_insert_ne in Hq by exact E. apply Hold; assumption.
Qed.

Lemma nul_for_newline_clean (c : ascii) :
  nul_for_newline c <> NUL -> c <> NUL /\ c <> NEWLINE.
Proof.
  unfold nul_for_newline. destruct (Ascii.eqb_spec c NEWLINE) as [->|Hn].
  - intros H. contradiction.
  - intros H. split; assumption.
Qed.

(** The third pass writes outside the buffer only when the last 60 bytes
    of the file hold neither a newline nor a NUL. *)
Lemma cap_lines_None (bytes : list ascii) :
  bytes <> [] ->
  cap_lines (map nul_for_newline bytes ++ [NUL]) (line_starts bytes)
            (newlines (removelast bytes) + 1) = None ->
  (60 <= length bytes)%nat /\
  Forall (fun c => c <> NUL /\ c <> NEWLINE) (drop (length bytes - 60) bytes).
Proof.
  intros Hne Hrun. rewrite cap_lines_body in Hrun.
  apply (for_loop_None (fun _ d => capped bytes d)) in Hrun.
  2:{ intros j x y _. apply cap_body_capped. }
  2:{ apply capped_init. }
  destruct Hrun as (j & x & Hj & (Hlen & Hnul & Hold) & Hb).
  unfold cap_body in Hb.
  destruct (Z.leb_spec 0 j) as [_|]; [|lia].
  pose proof (line_starts_length bytes) as Hn.
  destruct (line_starts bytes !! Z.to_nat j) as [p|] eqn:Hp.
  2:{ apply lookup_ge_None in Hp. lia. }
  pose proof (line_starts_range bytes Hne) as Hr.
  rewrite Forall_lookup in Hr. specialize (Hr _ _ Hp). cbv beta in Hr.
  destruct (Z.leb_spec LINE_MAX_LEN
              (Z.of_nat (strnlen (drop (Z.to_nat p) x) (Z.to_nat LINE_MAX_LEN))))
    as [Hlong|_]; [|discriminate].
  unfold store in Hb. rewrite Hlen in Hb.
  destruct (Z.leb_spec 0 (p + LINE_MAX_LEN + 1)) as [_|]; [|unfold LINE_MAX_LEN in *; lia].
  destruct (Z.ltb_spec (p + LINE_MAX_LEN + 1) (Z.of_nat (S (length bytes))))
    as [|Hout]; [discriminate|].
  unfold LINE_MAX_LEN in *. change (Z.to_nat 60) with 60%nat in Hlong.
  assert (Hfull : forall q, (q < 60)%nat ->
                  exists c, x !! (Z.to_nat p + q)%nat = Some c /\ c <> NUL).
  { intros q Hq. rewrite <- lookup_drop. apply (strnlen_full 60); lia. }
  assert (Hend : (Z.to_nat p + 60 = length bytes)%nat).
  { destruct (Hfull 59%nat ltac:(lia)) as (c & Hc & Hcn).
    assert ((Z.to_nat p + 59 < length x)%nat) by (eapply lookup_lt_Some; exact Hc).
    assert (Z.to_nat p + 59 <> length bytes)%nat.
    { intros E. rewrite E, Hnul in Hc. inversion Hc; subst. contradiction. }
    lia. }
  split; [lia|].
  replace (length bytes - 60)%nat with (Z.to_nat p) by lia.
  apply Forall_lookup. intros q c Hq. rewrite lookup_drop in Hq.
  assert (Hq60 : (q < 60)%nat).
  { apply lookup_lt_Some in Hq. lia. }
  destruct (Hfull q Hq60) as (c' & Hc' & Hcn).
  specialize (Hold _ _ Hc' Hcn).
  rewrite lookup_app_l in Hold by (rewrite length_map; lia).
  rewrite list_lookup_fmap, Hq in Hold. cbn in Hold. inversion Hold as [E].
  apply nul_for_newline_clean. rewrite E. exact Hcn.
Qed.

Lemma cap_lines_no_newline (bytes data : list ascii) (arr : list Z) (n : Z) :
  cap_lines (map nul_for_newline bytes ++ [NUL]) arr n = Some data ->
  Forall (fun c => c <> NEWLINE) data.
Proof.
  intros Hrun. rewrite cap_lines_body in Hrun.
  refine (for_loop_inv (fun _ d => Forall (fun c => c <> NEWLINE) d) _ _ 0 _ data _ _ Hrun).
  - intros j x y _ Hx Hb. unfold cap_body in Hb.
    destruct (if 0 <=? j then arr !! Z.to_nat j else None) as [p|]; [|discriminate].
    destruct (LINE_MAX_LEN <=? _); [|inversion Hb; subst; exact Hx].
    apply store_inv in Hb as [_ ->]. apply Forall_insert; [exact Hx|discriminate].
  - apply Forall_app. split; [|repeat constructor; discriminate].
    apply Forall_map. apply Forall_forall. intros c _. cbv beta.
    unfold nul_for_newline. destruct (Ascii.eqb_spec c NEWLINE); [discriminate|assumption].
Qed.

Lemma starts_from_app (l rest : list ascii) :
  Forall (fun c => c <> NEWLINE) l ->
  forall i, starts_from i (l ++ rest) = starts_from (i + Z.of_nat (length l)) rest.
Proof.
  induction 1 as [|a l Ha Hl IH]; intros i.
  - cbn. f_equal. lia.
  - cbn [app starts_from length].
    destruct (Ascii.eqb_spec a NEWLINE) as [|_]; [contradiction|].
    rewrite IH. f_equal. lia.
Qed.

Lemma map_nul_for_newline_id (l : list ascii) :
  Forall (fun c => c <> NEWLINE) l -> map nul_for_newline l = l.
Proof.
  induction 1 as [|a l Ha Hl IH]; [reflexivity|].
  cbn [map]. rewrite IH. unfold nul_for_newline.
  destruct (Ascii.eqb_spec a NEWLINE) as [|_]; [contradiction|reflexivity].
Qed.

Lemma joined_nil (lines : list (list ascii)) (last : list ascii) :
  joined lines last = [] -> all_lines lines last = [].
Proof.
  unfold joined, all_lines. destruct lines as [|l ls]; cbn.
  - intros ->. reflexivity.
  - intros H. apply app_eq_nil in H as [H _]. apply app_eq_nil in H as [H _].
    apply app_eq_nil in H as [_ H]. discriminate.
Qed.

Lemma joined_cons (l : list ascii) (ls : list (list ascii)) (last : list ascii) :
  joined (l :: ls) last = l ++ NEWLINE :: joined ls last.
Proof. unfold joined. cbn [map concat]. rewrite <- !app_assoc. reflexivity. Qed.

(** In the buffer that the second pass leaves, every registered offset
    is followed by the bytes of its line and a NUL. *)
Lemma starts_lines (last : list ascii) :
  Forall (fun c => c <> NEWLINE) last ->
  forall (lines : list (list ascii)) (pre : list ascii) (i : Z),
  Forall (Forall (fun c => c <> NEWLINE)) lines ->
  all_lines lines last <> [] ->
  i = Z.of_nat (length pre) ->
  Forall2 (fun p l =>
             0 <= p /\
             exists rest,
               drop (Z.to_nat p) (pre ++ map nul_for_newline (joined lines last) ++ [NUL])
               = l ++ NUL :: rest)
          (i :: starts_from i (joined lines last)) (all_lines lines last).
Proof.
  intros Hlast. induction lines as [|l ls IH]; intros pre i Hlines Hne Hi.
  - unfold joined, all_lines in *. cbn [map concat app] in *.
    destruct last as [|a last']; [congruence|].
    rewrite <- (app_nil_r (a :: last')) at 1.
    rewrite (starts_from_app _ [] Hlast). cbn [starts_from].
    constructor; [|constructor]. split; [lia|]. exists [].
    rewrite (map_nul_for_newline_id _ Hlast).
    subst i. rewrite Nat2Z.id, drop_app_length. reflexivity.
  - inversion Hlines as [|? ? Hl Hls]; subst.
    rewrite joined_cons.
    change (all_lines (l :: ls) last) with (l :: all_lines ls last).
    rewrite (starts_from_app _ _ Hl). rewrite map_app, (map_nul_for_newline_id _ Hl).
    cbn [map starts_from]. unfold nul_for_newline at 1.
    destruct (Ascii.eqb_spec NEWLINE NEWLINE) as [_|]; [|congruence].
    constructor.
    + split; [lia|]. exists (map nul_for_newline (joined ls last) ++ [NUL]).
      rewrite Nat2Z.id, drop_app_length, <- app_assoc. reflexivity.
    + destruct (joined ls last) as [|d J'] eqn:EJ.
      * rewrite (joined_nil _ _ EJ). constructor.
      * assert (Hne' : all_lines ls last <> []).
        { intros E. unfold all_lines in E. apply app_eq_nil in E as [-> E].
          destruct last; [|discriminate]. discriminate. }
        specialize (IH (pre ++ l ++ [NUL]) (Z.of_nat (length pre) + Z.of_nat (length l) + 1)
                       Hls Hne').
        rewrite <- !app_assoc in IH. cbn [app] in IH.
        rewrite <- app_assoc. cbn [app]. apply IH.
        rewrite !length_app. cbn [length]. lia.
Qed.

Lemma plain_no_newline (l : list ascii) :
  plain_line l -> Forall (fun c => c <> NEWLINE) l.
Proof. intros [_ H]. eapply Forall_impl; [exact H|]. cbv beta. tauto. Qed.

Lemma plain_no_nul (l : list ascii) :
  plain_line l -> Forall (fun c => c <> NUL) l.
Proof. intros [_ H]. eapply Forall_impl; [exact H|]. cbv beta. tauto. Qed.

Lemma all_lines_plain (lines : list (list ascii)) (last : list ascii) :
  Forall plain_line lines -> plain_line last -> Forall plain_line (all_lines lines last).
Proof.
  intros H1 H2. unfold all_lines. apply Forall_app. split; [exact H1|].
  destruct last; [constructor|]. constructor; [exact H2|constructor].
Qed.

(** The third pass leaves a buffer of plain lines as it is. *)
Lemma cap_lines_plain (data : list ascii) (arr : list Z) (ls : list (list ascii)) :
  Forall2 (fun p l => 0 <= p /\ exists rest, drop (Z.to_nat p) data = l ++ NUL :: rest)
          arr ls ->
  Forall plain_line ls ->
  cap_lines data arr (Z.of_nat (length arr)) = Some data.
Proof.
  intros Hrel Hplain. rewrite cap_lines_body, Nat2Z.id.
  apply for_loop_same. intros j Hj. unfold cap_body.
  destruct (Z.leb_spec 0 j) as [_|]; [|lia].
  destruct (arr !! Z.to_nat j) as [p|] eqn:Hp.
  2:{ apply lookup_ge_None in Hp. lia. }
  destruct (Forall2_lookup_l _ _ _ _ _ Hrel Hp) as (l & Hl & _ & rest & Hdrop).
  rewrite Forall_lookup in Hplain. specialize (Hplain _ _ Hl).
  rewrite Hdrop. unfold LINE_MAX_LEN in *.
  rewrite strnlen_clean.
  - destruct Hplain as [Hlen _]. unfold LINE_MAX_LEN in Hlen.
    destruct (Z.leb_spec 60 (Z.of_nat (length l))); [lia|reflexivity].
  - apply plain_no_nul. exact Hplain.
  - destruct Hplain as [Hlen _]. unfold LINE_MAX_LEN in Hlen. lia.
Qed.

Lemma label_table_plain (data : list ascii) (arr : list Z) (ls : list (list ascii)) :
  Forall2 (fun p l => 0 <= p /\ exists rest, drop (Z.to_nat p) data = l ++ NUL :: rest)
          arr ls ->
  Forall plain_line ls ->
  map (label_at data) arr = map string_of_list_ascii ls.
Proof.
  induction 1 as [|p l arr ls (_ & rest & Hdrop) Hrel IH]; intros Hplain; [reflexivity|].
  inversion Hplain as [|? ? Hl Hls]; subst.
  cbn [map]. rewrite (IH Hls). f_equal.
  unfold label_at. rewrite Hdrop. apply cstring_clean. apply plain_no_nul. exact Hl.
Qed.

Lemma cap_lines_capped (bytes data : list ascii) (arr : list Z) (n : Z) :
  cap_lines (map nul_for_newline bytes ++ [NUL]) arr n = Some data ->
  capped bytes data.
Proof.
  intros Hrun. rewrite cap_lines_body in Hrun.
  refine (for_loop_inv (fun _ d => capped bytes d) _ _ 0 _ data _ _ Hrun).
  - intros j x y _. apply cap_body_capped.
  - apply capped_init.
Qed.

End LabelPasses.


(** ** The labels of a file, line by line *)

Import Labels LabelSpec.

(** X10. A label file of plain lines is read back line by line: when the
    file system and the allocator answer, the file is not empty and
    holds at most 10 MiB, and every line has fewer than 60 bytes and no
    NUL, [parseLabels] succeeds and the labels are the lines, in order;
    a newline at the very end of the file does not start a label. *)
Theorem parse_labels_round_trip
        (f : label_file) (lines : list (list ascii)) (last : list ascii) :
  stat_ok f = true -> open_ok f = true -> data_malloc_ok f = true ->
  read_ok f = true -> array_malloc_ok f = true ->
  file_bytes f = joined lines last ->
  file_bytes f <> [] ->
  Z.of_nat (length (file_bytes f)) <= 10 * 1024 * 1024 ->
  Forall plain_line lines -> plain_line last ->
  exists arr data,
    parseLabels f = ParseTrue arr (Z.of_nat (length (all_lines lines last))) data /\
    label_table (parseLabels f) = map string_of_list_ascii (all_lines lines last).
Proof.
  intros Hstat Hopen Hdata Hread Harr Hfile Hne Hsize Hlines Hlast.
  rewrite (LabelPasses.parseLabels_nonempty f Hne).
  rewrite Hstat, Hopen, Hdata, Hread, Harr. cbn [negb orb].
  destruct (Z.ltb_spec (10 * 1024 * 1024) (Z.of_nat (length (file_bytes f))))
    as [|_]; [lia|]. cbn [orb].
  assert (Hall : all_lines lines last <> []).
  { intros E. apply Hne. rewrite Hfile. unfold all_lines in E.
    apply app_eq_nil in E as [-> E]. destruct last; [reflexivity|discriminate]. }
  pose proof (LabelPasses.starts_lines last (LabelPasses.plain_no_newline _ Hlast)
                lines [] 0) as Hrel.
  cbn [app length] in Hrel. rewrite <- Hfile in Hrel.
  specialize (Hrel ltac:(eapply Forall_impl; [exact Hlines|];
                         exact LabelPasses.plain_no_newline) Hall eq_refl).
  change (0 :: starts_from 0 (file_bytes f)) with (line_starts (file_bytes f)) in Hrel.
  pose proof (LabelPasses.all_lines_plain _ _ Hlines Hlast) as Hplain.
  pose proof (Forall2_length _ _ _ Hrel) as Hlen.
  rewrite <- LabelPasses.line_starts_length.
  rewrite (LabelPasses.cap_lines_plain _ _ _ Hrel Hplain).
  eexists _, _. split; [rewrite Hlen; reflexivity|].
  cbn [label_table]. exact (LabelPasses.label_table_plain _ _ _ Hrel Hplain).
Qed.

(** Three labels, the last without a newline. *)
Lemma parse_labels_round_trip_witness :
  exists arr data,
    parseLabels (Ex.label_file_of LabelEx.three_labels) = ParseTrue arr 3 data /\
    label_table (parseLabels (Ex.label_file_of LabelEx.three_labels))
    = ["bed"; "chair"; "person"]%string.
Proof.
  apply (parse_labels_round_trip
           (Ex.label_file_of LabelEx.three_labels)
           [list_ascii_of_string "bed"; list_ascii_of_string "chair"]
           (list_ascii_of_string "person")).
  - reflexivity.
  - reflexivity.
  - reflexivity.
  - reflexivity.
  - reflexivity.
  - reflexivity.
  - discriminate.
  - vm_compute. discriminate.
  - repeat constructor; discriminate.
  - repeat constructor; discriminate.
Defined.

(** X11. The labels of a parsed file start where its lines start: the
    first at offset 0 and one after every newline, the last byte of the
    file apart.  Their number is the number of those newlines plus one,
    every slot of the label array is written, every label starts inside
    the file contents, and the buffer ends with a NUL, so that every
    label is a string that ends inside the buffer. *)
Theorem parsed_labels_start_lines
        (f : label_file) (arr : list Z) (n : Z) (data : list ascii) :
  parseLabels f = ParseTrue arr n data ->
  arr = line_starts (file_bytes f) /\
  n = newlines (removelast (file_bytes f)) + 1 /\
  Z.of_nat (length arr) = n /\
  Forall (fun p => 0 <= p < Z.of_nat (length (file_bytes f))) arr /\
  length data = S (length (file_bytes f)) /\
  data !! length (file_bytes f) = Some NUL.
Proof.
  intros H. apply LabelPasses.parseLabels_true_inv in H as (Hne & -> & -> & Hcap).
  apply LabelPasses.cap_lines_capped in Hcap as (Hlen & Hnul & _).
  split; [reflexivity|]. split; [reflexivity|].
  split; [apply LabelPasses.line_starts_length|].
  split; [apply LabelPasses.line_starts_range; exact Hne|].
  split; assumption.
Qed.

(** Two lines that end with a newline each. *)
Lemma parsed_labels_start_lines_witness :
  [0; 4] = line_starts (file_bytes (Ex.label_file_of LabelEx.two_lines)) /\
  2 = newlines (removelast (file_bytes (Ex.label_file_of LabelEx.two_lines))) + 1 /\
  Z.of_nat (length [0; 4]) = 2 /\
  Forall (fun p => 0 <= p
                   < Z.of_nat (length (file_bytes (Ex.label_file_of LabelEx.two_lines))))
         [0; 4] /\
  length (list_ascii_of_string "bed" ++ [NUL] ++ list_ascii_of_string "chair" ++ [NUL; NUL])
  = S (length (file_bytes (Ex.label_file_of LabelEx.two_lines))) /\
  (list_ascii_of_string "bed" ++ [NUL] ++ list_ascii_of_string "chair" ++ [NUL; NUL])
    !! length (file_bytes (Ex.label_file_of LabelEx.two_lines)) = Some NUL.
Proof.
  apply (parsed_labels_start_lines
           (Ex.label_file_of LabelEx.two_lines) [0; 4] 2
           (list_ascii_of_string "bed" ++ [NUL]
              ++ list_ascii_of_string "chair" ++ [NUL; NUL])).
  vm_compute. reflexivity.
Defined.

(** X12. No label holds a newline: the second pass has put a NUL in the
    place of every newline of the file, and the third pass only writes
    NULs. *)
Theorem parsed_labels_hold_no_newline (f : label_file) :
  Forall (fun s => Forall (fun c => c <> NEWLINE) (list_ascii_of_string s))
         (label_table (parseLabels f)).
Proof.
  destruct (parseLabels f) as [| |arr n data] eqn:Hp; [constructor|constructor|].
  apply LabelPasses.parseLabels_true_inv in Hp as (_ & _ & _ & Hcap).
  apply LabelPasses.cap_lines_no_newline in Hcap.
  cbn [label_table]. apply Forall_map. apply Forall_forall. intros p _. cbv beta.
  unfold label_at. apply LabelPasses.cstring_Forall. apply Forall_drop. exact Hcap.
Qed.

(** X14. [parseLabels] leaves its buffers in two cases only: on an empty
    file, whose size less one wraps around in the first pass, and on a
    file whose last 60 bytes hold neither a newline nor a NUL, where the
    capping NUL of the last line may fall behind the buffer.  A file that
    is not empty and ends with a newline is parsed within bounds. *)
Theorem parse_labels_undefined_only_at_end (f : label_file) :
  (parseLabels f = ParseUndefined ->
   file_bytes f = [] \/
   ((60 <= length (file_bytes f))%nat /\
    Forall (fun c => c <> NUL /\ c <> NEWLINE)
           (drop (length (file_bytes f) - 60) (file_bytes f)))) /\
  (file_bytes f <> [] -> List.last (file_bytes f) NUL = NEWLINE ->
   parseLabels f <> ParseUndefined).
Proof.
  assert (Hmain : parseLabels f = ParseUndefined ->
                  file_bytes f = [] \/
                  ((60 <= length (file_bytes f))%nat /\
                   Forall (fun c => c <> NUL /\ c <> NEWLINE)
                          (drop (length (file_bytes f) - 60) (file_bytes f)))).
  { intros H. destruct (file_bytes f) as [|a l] eqn:Hb; [left; reflexivity|].
    right. rewrite <- Hb in *.
    assert (Hne : file_bytes f <> []) by (rewrite Hb; discriminate).
    rewrite (LabelPasses.parseLabels_nonempty f Hne) in H.
    destruct (_ || _); [discriminate|].
    destruct (cap_lines _ _ _) as [d|] eqn:Hcap; [discriminate|].
    exact (LabelPasses.cap_lines_None _ Hne Hcap). }
  split; [exact Hmain|].
  intros Hne Hlast Hu.
  destruct (Hmain Hu) as [He|[Hlen Hclean]]; [contradiction|].
  destruct (exists_last Hne) as (front & c & Hfc).
  rewrite Hfc in Hlast, Hlen, Hclean. rewrite last_last in Hlast. subst c.
  rewrite length_app in Hlen, Hclean. cbn [length] in Hlen, Hclean.
  rewrite drop_app_le in Hclean by lia.
  apply Forall_app in Hclean as [_ Hc].
  inversion Hc as [|? ? [_ Hn] _]. contradiction.
Qed.

(** A file of one line of exactly 60 bytes and no newline. *)
Lemma parse_labels_undefined_only_at_end_witness :
  file_bytes (Ex.label_file_of Ex.line_of_60) = [] \/
  ((60 <= length (file_bytes (Ex.label_file_of Ex.line_of_60)))%nat /\
   Forall (fun c => c <> NUL /\ c <> NEWLINE)
          (drop (length (file_bytes (Ex.label_file_of Ex.line_of_60)) - 60)
                (file_bytes (Ex.label_file_of Ex.line_of_60)))).
Proof.
  apply (parse_labels_undefined_only_at_end (Ex.label_file_of Ex.line_of_60)).
  vm_compute. reflexivity.
Defined.
